(** * HelpMate backend: the report-analysis pipeline

    A shallow embedding of the parts of the backend that the analysis
    pipeline is made of:

    - [config/gemini.js]: [parseGeminiResponse] and [analyzeMedicalReport];
    - [models/Vitals.js]: [checkNormalRanges];
    - [models/AiInsight.js], [models/File.js]: the two schemas;
    - [routes/files.js]: the upload route and [processAIInsight];
    - [routes/ai.js]: the manual [POST /analyze-file/:fileId] route;

    and of what stands around it: the [DELETE /:id] route, [analyzeVitals],
    the methods and virtuals of the models ([overallRiskLevel],
    [getCriticalFindings], [getNormalFindings], [ageInDays], [isRecent],
    [bmi], [bmiCategory]), the upload filter and
    [sensitiveOperationLimit].

    JavaScript strings are sequences of UTF-16 code units. Numbers are
    exact rationals where the code only compares them, and IEEE-754
    doubles where it divides and rounds them (the body-mass index).
    Exceptions are an explicit completion type, and the document store is
    threaded through a state-and-exception monad. The handlers are
    [async] functions: [Pipeline] has each of them as a function of the
    store, run from its first call to its last, and [Async] has them as
    code that takes turns with the other handlers, one call on the store
    at a time. *)

From Stdlib Require Import ZArith NArith QArith Ascii String List Bool Lia.
From Stdlib Require Import DecimalString Qabs Qround Lqa Sorted.
From Stdlib Require SpecFloat.
From stdpp Require Import gmap list.
Import ListNotations.

Set Warnings "-register-all".
Local Open Scope N_scope.

(* ===================================================================== *)
(** * JavaScript values                                                   *)
(* ===================================================================== *)

Module JS.

(** A string is its list of UTF-16 code units. *)
Abbreviation jstring := (list N).

(** The code units of an ASCII literal. *)
Definition u (s : string) : jstring := map N_of_ascii (list_ascii_of_string s).

(** As [u], with every apostrophe (39) read as a double quote (34): a way
    to write JSON text as a literal. *)
Definition json_text (s : string) : jstring :=
  map (fun c => if c =? 39 then 34 else c) (u s).

Inductive exn :=
| SyntaxError
| TypeError
| Error (msg : jstring)
| DbError.

(** The outcome of running a piece of code: a value, or a thrown exception. *)
Inductive completion (A : Type) :=
| Normal (a : A)
| Throw (e : exn).
Arguments Normal {A} a.
Arguments Throw {A} e.

Definition try_catch {A} (body : completion A) (handler : exn -> completion A)
  : completion A :=
  match body with
  | Normal a => Normal a
  | Throw e => handler e
  end.

(** Values that [JSON.parse] can produce. Object properties are kept in
    insertion order. *)
Inductive json :=
| JNull
| JBool (b : bool)
| JNumber (q : Q)
| JString (s : jstring)
| JArray (items : list json)
| JObject (props : list (jstring * json)).

Definition str_eqb (a b : jstring) : bool := bool_decide (a = b).

(** Own-property read [o.k]; [None] is [undefined]. None of the keys the
    pipeline reads exists on a prototype, so a primitive, an array or an
    object without the key gives [undefined]. *)
Fixpoint assoc (k : jstring) (l : list (jstring * json)) : option json :=
  match l with
  | [] => None
  | (k', v) :: l' => if str_eqb k k' then Some v else assoc k l'
  end.

Definition get (v : json) (k : jstring) : option json :=
  match v with
  | JObject l => assoc k l
  | _ => None
  end.

(** Optional chaining [o?.k] on a possibly undefined [o]. *)
Definition get_opt (o : option json) (k : jstring) : option json :=
  match o with
  | None | Some JNull => None
  | Some v => get v k
  end.

(** ToBoolean. *)
Definition truthy (o : option json) : bool :=
  match o with
  | None | Some JNull => false
  | Some (JBool b) => b
  | Some (JNumber q) => negb (Qeq_bool q 0)
  | Some (JString s) => negb (str_eqb s [])
  | Some (JArray _) | Some (JObject _) => true
  end.

(** [a || b] where the right operand is always defined. *)
Definition or_else (a : option json) (b : json) : json :=
  match a with
  | Some v => if truthy a then v else b
  | None => b
  end.

(** [a || b] where both operands may be undefined. *)
Definition or_opt (a b : option json) : option json :=
  if truthy a then a else b.

End JS.
Import JS.

(* ===================================================================== *)
(** * JSON.parse and JSON.stringify                                       *)
(* ===================================================================== *)

Module JSON.

(** ** Lexical grammar *)

Inductive token :=
| TLBrace | TRBrace | TLBracket | TRBracket | TColon | TComma
| TString (s : jstring)
| TNumber (q : Q)
| TTrue | TFalse | TNull.

(** The digits read so far of a number literal. *)
Record numacc := {
  n_neg : bool;     (* a leading minus sign *)
  n_mant : N;       (* integer and fraction digits, read as one integer *)
  n_scale : N;      (* how many of them are fraction digits *)
  n_eneg : bool;    (* a minus sign in the exponent *)
  n_exp : N         (* the exponent digits *)
}.

Definition num0 : numacc :=
  {| n_neg := false; n_mant := 0; n_scale := 0; n_eneg := false; n_exp := 0 |}.

Definition number_value (a : numacc) : Q :=
  let m := if n_neg a then (- Z.of_N (n_mant a))%Z else Z.of_N (n_mant a) in
  let e := if n_eneg a then (- Z.of_N (n_exp a))%Z else Z.of_N (n_exp a) in
  Qred (inject_Z m * Qpower (10 # 1) (e - Z.of_N (n_scale a))).

Inductive numphase :=
| NMinus | NZero | NInt | NDot | NFrac | NExpStart | NExpSign | NExpDig.

Inductive lmode :=
| LStart
| LStr (acc : jstring)                      (* inside a string; [acc] reversed *)
| LEsc (acc : jstring)                      (* after a backslash *)
| LUni (acc : jstring) (k : nat) (code : N) (* in a u-escape, [k] digits to go *)
| LLit (rest : jstring) (t : token)         (* inside true, false or null *)
| LNum (ph : numphase) (a : numacc).

Definition is_ws (c : N) : bool :=
  (c =? 32) || (c =? 9) || (c =? 10) || (c =? 13).

Definition is_digit (c : N) : bool := (48 <=? c) && (c <=? 57).

Definition is_e (c : N) : bool := (c =? 101) || (c =? 69).

Definition hex_digit (c : N) : option N :=
  if is_digit c then Some (c - 48)
  else if (97 <=? c) && (c <=? 102) then Some (c - 87)
  else if (65 <=? c) && (c <=? 70) then Some (c - 55)
  else None.

(** The character a one-letter escape stands for. *)
Definition escape_char (c : N) : option N :=
  if c =? 34 then Some 34          (* a double quote *)
  else if c =? 92 then Some 92     (* a backslash *)
  else if c =? 47 then Some 47     (* a slash *)
  else if c =? 98 then Some 8      (* b: backspace *)
  else if c =? 102 then Some 12    (* f: form feed *)
  else if c =? 110 then Some 10    (* n: line feed *)
  else if c =? 114 then Some 13    (* r: carriage return *)
  else if c =? 116 then Some 9     (* t: tab *)
  else None.

Definition push_digit (a : numacc) (c : N) : numacc :=
  {| n_neg := n_neg a; n_mant := 10 * n_mant a + (c - 48); n_scale := n_scale a;
     n_eneg := n_eneg a; n_exp := n_exp a |}.

Definition push_frac (a : numacc) (c : N) : numacc :=
  {| n_neg := n_neg a; n_mant := 10 * n_mant a + (c - 48);
     n_scale := n_scale a + 1; n_eneg := n_eneg a; n_exp := n_exp a |}.

Definition push_exp (a : numacc) (c : N) : numacc :=
  {| n_neg := n_neg a; n_mant := n_mant a; n_scale := n_scale a;
     n_eneg := n_eneg a; n_exp := 10 * n_exp a + (c - 48) |}.

Definition set_eneg (a : numacc) : numacc :=
  {| n_neg := n_neg a; n_mant := n_mant a; n_scale := n_scale a;
     n_eneg := true; n_exp := n_exp a |}.

Definition set_neg (a : numacc) : numacc :=
  {| n_neg := true; n_mant := n_mant a; n_scale := n_scale a;
     n_eneg := n_eneg a; n_exp := n_exp a |}.

Inductive num_next :=
| NCont (ph : numphase) (a : numacc)
| NDone
| NFail.

(** One character of a number literal: an optional minus sign, an integer
    part with no superfluous leading zero, an optional fraction and an
    optional exponent. *)
Definition num_step (ph : numphase) (a : numacc) (c : N) : num_next :=
  match ph with
  | NMinus =>
      if c =? 48 then NCont NZero a
      else if is_digit c then NCont NInt (push_digit a c) else NFail
  | NZero =>
      if c =? 46 then NCont NDot a
      else if is_e c then NCont NExpStart a else NDone
  | NInt =>
      if is_digit c then NCont NInt (push_digit a c)
      else if c =? 46 then NCont NDot a
      else if is_e c then NCont NExpStart a else NDone
  | NDot => if is_digit c then NCont NFrac (push_frac a c) else NFail
  | NFrac =>
      if is_digit c then NCont NFrac (push_frac a c)
      else if is_e c then NCont NExpStart a else NDone
  | NExpStart =>
      if c =? 43 then NCont NExpSign a
      else if c =? 45 then NCont NExpSign (set_eneg a)
      else if is_digit c then NCont NExpDig (push_exp a c) else NFail
  | NExpSign => if is_digit c then NCont NExpDig (push_exp a c) else NFail
  | NExpDig => if is_digit c then NCont NExpDig (push_exp a c) else NDone
  end.

Definition num_final (ph : numphase) : bool :=
  match ph with
  | NZero | NInt | NFrac | NExpDig => true
  | _ => false
  end.

(** What a character does between tokens: the tokens it completes and the
    mode it leaves the lexer in. *)
Definition start_char (c : N) : option (list token * lmode) :=
  if is_ws c then Some ([], LStart)
  else if c =? 123 then Some ([TLBrace], LStart)
  else if c =? 125 then Some ([TRBrace], LStart)
  else if c =? 91 then Some ([TLBracket], LStart)
  else if c =? 93 then Some ([TRBracket], LStart)
  else if c =? 58 then Some ([TColon], LStart)
  else if c =? 44 then Some ([TComma], LStart)
  else if c =? 34 then Some ([], LStr [])
  else if c =? 45 then Some ([], LNum NMinus (set_neg num0))
  else if c =? 48 then Some ([], LNum NZero num0)
  else if is_digit c then Some ([], LNum NInt (push_digit num0 c))
  else if c =? 116 then Some ([], LLit (u "rue") TTrue)
  else if c =? 102 then Some ([], LLit (u "alse") TFalse)
  else if c =? 110 then Some ([], LLit (u "ull") TNull)
  else None.

Definition lex_step (m : lmode) (c : N) : option (list token * lmode) :=
  match m with
  | LStart => start_char c
  | LStr acc =>
      if c =? 34 then Some ([TString (rev acc)], LStart)
      else if c =? 92 then Some ([], LEsc acc)
      else if c <? 32 then None
      else Some ([], LStr (c :: acc))
  | LEsc acc =>
      match escape_char c with
      | Some d => Some ([], LStr (d :: acc))
      | None => if c =? 117 then Some ([], LUni acc 4 0) else None
      end
  | LUni acc k code =>
      match hex_digit c with
      | None => None
      | Some d =>
          match k with
          | O => None
          | S O => Some ([], LStr ((16 * code + d) :: acc))
          | S k' => Some ([], LUni acc k' (16 * code + d))
          end
      end
  | LLit rest t =>
      match rest with
      | [] => None
      | e :: rest' =>
          if c =? e
          then match rest' with
               | [] => Some ([t], LStart)
               | _ => Some ([], LLit rest' t)
               end
          else None
      end
  | LNum ph a =>
      match num_step ph a c with
      | NCont ph' a' => Some ([], LNum ph' a')
      | NFail => None
      | NDone =>
          match start_char c with
          | Some (ts, m') => Some (TNumber (number_value a) :: ts, m')
          | None => None
          end
      end
  end.

Definition lex_end (m : lmode) : option (list token) :=
  match m with
  | LStart => Some []
  | LNum ph a => if num_final ph then Some [TNumber (number_value a)] else None
  | _ => None
  end.

(** [acc] holds the tokens read so far, last first. *)
Fixpoint lex_go (m : lmode) (acc : list token) (s : jstring)
  : option (list token) :=
  match s with
  | [] =>
      match lex_end m with
      | Some ts => Some (rev (rev ts ++ acc))
      | None => None
      end
  | c :: s' =>
      match lex_step m c with
      | Some (ts, m') => lex_go m' (rev ts ++ acc) s'
      | None => None
      end
  end.

Definition lex (s : jstring) : option (list token) := lex_go LStart [] s.

(** ** Syntactic grammar

    A pushdown automaton over the tokens: the stack holds the arrays and
    objects that are still open. *)

Inductive frame :=
| FArr (done : list json)                           (* elements, last first *)
| FObj (props : list (jstring * json)) (key : jstring).

Inductive pstate :=
| PValue (stk : list frame)                          (* a value is due *)
| PArrFirst (stk : list frame)                       (* just after [ *)
| PObjFirst (stk : list frame)                       (* just after { *)
| PObjKey (props : list (jstring * json)) (stk : list frame)  (* after a comma *)
| PColon (props : list (jstring * json)) (key : jstring) (stk : list frame)
| PAfter (v : json) (stk : list frame).              (* [v] is complete *)

(** CreateDataProperty: a repeated key keeps its place and takes the last
    value. (The engine lists keys that are array indices first; that
    reordering is not modelled.) *)
Fixpoint obj_set (props : list (jstring * json)) (k : jstring) (v : json)
  : list (jstring * json) :=
  match props with
  | [] => [(k, v)]
  | (k', v') :: rest =>
      if str_eqb k k' then (k', v) :: rest else (k', v') :: obj_set rest k v
  end.

Definition value_token (t : token) (stk : list frame) : option pstate :=
  match t with
  | TString s => Some (PAfter (JString s) stk)
  | TNumber q => Some (PAfter (JNumber q) stk)
  | TTrue => Some (PAfter (JBool true) stk)
  | TFalse => Some (PAfter (JBool false) stk)
  | TNull => Some (PAfter JNull stk)
  | TLBracket => Some (PArrFirst stk)
  | TLBrace => Some (PObjFirst stk)
  | _ => None
  end.

Definition parse_step (st : pstate) (t : token) : option pstate :=
  match st with
  | PValue stk => value_token t stk
  | PArrFirst stk =>
      match t with
      | TRBracket => Some (PAfter (JArray []) stk)
      | _ => value_token t (FArr [] :: stk)
      end
  | PObjFirst stk =>
      match t with
      | TRBrace => Some (PAfter (JObject []) stk)
      | TString k => Some (PColon [] k stk)
      | _ => None
      end
  | PObjKey props stk =>
      match t with
      | TString k => Some (PColon props k stk)
      | _ => None
      end
  | PColon props k stk =>
      match t with
      | TColon => Some (PValue (FObj props k :: stk))
      | _ => None
      end
  | PAfter v stk =>
      match stk, t with
      | FArr done :: stk', TComma => Some (PValue (FArr (v :: done) :: stk'))
      | FArr done :: stk', TRBracket => Some (PAfter (JArray (rev (v :: done))) stk')
      | FObj props k :: stk', TComma => Some (PObjKey (obj_set props k v) stk')
      | FObj props k :: stk', TRBrace => Some (PAfter (JObject (obj_set props k v)) stk')
      | _, _ => None
      end
  end.

Fixpoint parse_go (st : pstate) (ts : list token) : option json :=
  match ts with
  | [] =>
      match st with
      | PAfter v [] => Some v
      | _ => None
      end
  | t :: ts' =>
      match parse_step st t with
      | Some st' => parse_go st' ts'
      | None => None
      end
  end.

Definition parse_tokens (ts : list token) : option json := parse_go (PValue []) ts.

(** [JSON.parse(text)]: the value, or a thrown [SyntaxError]. *)
Definition parse (text : jstring) : completion json :=
  match lex text with
  | Some ts =>
      match parse_tokens ts with
      | Some v => Normal v
      | None => Throw SyntaxError
      end
  | None => Throw SyntaxError
  end.

(** ** JSON.stringify *)

Definition hex_char (d : N) : N := if d <? 10 then 48 + d else 87 + d.

(** UnicodeEscape: backslash, u and four lowercase hexadecimal digits. *)
Definition unicode_escape (c : N) : jstring :=
  [92; 117; hex_char (c / 4096 mod 16); hex_char (c / 256 mod 16);
   hex_char (c / 16 mod 16); hex_char (c mod 16)].

Definition is_high (c : N) : bool := (55296 <=? c) && (c <=? 56319).
Definition is_low (c : N) : bool := (56320 <=? c) && (c <=? 57343).

Definition next_is_low (s : jstring) : bool :=
  match s with
  | c :: _ => is_low c
  | [] => false
  end.

(** The body of QuoteJSONString. It goes through the code points of the
    string: [prev_high] says that the previous code unit was the first
    half of a surrogate pair, of which this one is the second half. *)
Fixpoint quote_go (prev_high : bool) (s : jstring) : jstring :=
  match s with
  | [] => []
  | c :: rest =>
      if c =? 8 then 92 :: 98 :: quote_go false rest
      else if c =? 9 then 92 :: 116 :: quote_go false rest
      else if c =? 10 then 92 :: 110 :: quote_go false rest
      else if c =? 12 then 92 :: 102 :: quote_go false rest
      else if c =? 13 then 92 :: 114 :: quote_go false rest
      else if c =? 34 then 92 :: 34 :: quote_go false rest
      else if c =? 92 then 92 :: 92 :: quote_go false rest
      else if c <? 32 then unicode_escape c ++ quote_go false rest
      else if is_high c then
        if next_is_low rest then c :: quote_go true rest
        else unicode_escape c ++ quote_go false rest
      else if is_low c then
        if prev_high then c :: quote_go false rest
        else unicode_escape c ++ quote_go false rest
      else c :: quote_go false rest
  end.

Definition quote (s : jstring) : jstring := 34 :: quote_go false s ++ [34].

(** Number::toString for an integer below 10^21 in magnitude, which prints
    as its decimal digits. Other numbers are outside the fragment
    modelled ([None]). *)
Definition number_to_string (q : Q) : option jstring :=
  if (Qden q =? 1)%positive && (Z.abs (Qnum q) <? 10 ^ 21)%Z
  then
    let digits := u (NilZero.string_of_uint (N.to_uint (Z.abs_N (Qnum q)))) in
    Some (if (Qnum q <? 0)%Z then 45 :: digits else digits)
  else None.

Fixpoint join (sep : jstring) (parts : list jstring) : jstring :=
  match parts with
  | [] => []
  | [p] => p
  | p :: rest => p ++ sep ++ join sep rest
  end.

(** [JSON.stringify(value)] with no replacer and no indentation. *)
Fixpoint stringify (v : json) : option jstring :=
  match v with
  | JNull => Some (u "null")
  | JBool true => Some (u "true")
  | JBool false => Some (u "false")
  | JNumber q => number_to_string q
  | JString s => Some (quote s)
  | JArray items =>
      let fix elements (l : list json) : option (list jstring) :=
        match l with
        | [] => Some []
        | x :: l' =>
            match stringify x, elements l' with
            | Some sx, Some rest => Some (sx :: rest)
            | _, _ => None
            end
        end in
      match elements items with
      | Some parts => Some ([91] ++ join [44] parts ++ [93])
      | None => None
      end
  | JObject props =>
      let fix members (l : list (jstring * json)) : option (list jstring) :=
        match l with
        | [] => Some []
        | (k, x) :: l' =>
            match stringify x, members l' with
            | Some sx, Some rest => Some ((quote k ++ [58] ++ sx) :: rest)
            | _, _ => None
            end
        end in
      match members props with
      | Some parts => Some ([123] ++ join [44] parts ++ [125])
      | None => None
      end
  end.

End JSON.

(* ===================================================================== *)
(** * The output schema                                                   *)
(* ===================================================================== *)

(** The shape the prompt asks the model for, with the enumerations of
    [models/AiInsight.js]. *)
Module Schema.

Definition status_values : list jstring :=
  [u "normal"; u "high"; u "low"; u "abnormal"; u "critical"].

Definition level_values : list jstring := [u "low"; u "medium"; u "high"].

Definition timeframe_values : list jstring :=
  [u "1-week"; u "2-weeks"; u "1-month"; u "3-months"; u "6-months"; u "1-year"].

Definition is_enum (allowed : list jstring) (o : option json) : bool :=
  match o with
  | Some (JString s) => existsb (str_eqb s) allowed
  | _ => false
  end.

Definition nonempty_string (o : option json) : bool :=
  match o with
  | Some (JString s) => negb (str_eqb s [])
  | _ => false
  end.

(** An integer between 0 and 100. *)
Definition confidence_ok (o : option json) : bool :=
  match o with
  | Some (JNumber q) =>
      (Qden q =? 1)%positive && (0 <=? Qnum q)%Z && (Qnum q <=? 100)%Z
  | _ => false
  end.

Definition all_items (p : json -> bool) (o : option json) : bool :=
  match o with
  | Some (JArray l) => forallb p l
  | _ => false
  end.

(** [followUpTimeframe] is one of the six values; it may be left out when
    no follow-up is required. *)
Definition timeframe_ok (v : json) : bool :=
  match get v (u "followUpTimeframe") with
  | None => negb (truthy (get v (u "followUpRequired")))
  | o => is_enum timeframe_values o
  end.

Definition valid_payload (v : json) : bool :=
  confidence_ok (get v (u "confidence"))
  && nonempty_string (get_opt (get v (u "summary")) (u "english"))
  && nonempty_string (get_opt (get v (u "summary")) (u "urdu"))
  && all_items (fun f => is_enum status_values (get f (u "status")))
       (get v (u "keyFindings"))
  && all_items (fun r => is_enum level_values (get r (u "level")))
       (get v (u "riskFactors"))
  && timeframe_ok v.

End Schema.

(* ===================================================================== *)
(** * config/gemini.js                                                    *)
(* ===================================================================== *)

Module Gemini.

Definition bilingual (english urdu : json) : json :=
  JObject [(u "english", english); (u "urdu", urdu)].

Definition strings (l : list jstring) : json := JArray (map JString l).

(** The regular expression of [parseGeminiResponse] matches from the first
    opening brace to the last closing brace that follows it. *)
Fixpoint from_first_lbrace (s : jstring) : jstring :=
  match s with
  | [] => []
  | c :: s' => if c =? 123 then c :: s' else from_first_lbrace s'
  end.

Fixpoint upto_last_rbrace (s : jstring) : option jstring :=
  match s with
  | [] => None
  | c :: s' =>
      match upto_last_rbrace s' with
      | Some r => Some (c :: r)
      | None => if c =? 125 then Some [c] else None
      end
  end.

(** [text.match(...)]: the matched block [jsonMatch[0]], or [None] for
    [null]. *)
Definition match_json_block (text : jstring) : option jstring :=
  upto_last_rbrace (from_first_lbrace text).

(** The record returned when the text holds no block. *)
Definition noJsonResponse (text : jstring) : json :=
  JObject
    [ (u "summary",
        bilingual (JString (take 500 text ++ u "..."))
          (JString (u "Report ka summary Roman Urdu mein translate karna hai")));
      (u "keyFindings", JArray []);
      (u "recommendations",
        bilingual (strings [u "Consult with your doctor for detailed analysis"])
          (strings [u "Apne doctor se detailed analysis ke liye consult karein"]));
      (u "doctorQuestions",
        bilingual (strings [u "What do these results mean for my health?"])
          (strings [u "Ye results mere health ke liye kya matlab hai?"]));
      (u "riskFactors", JArray []);
      (u "followUpRequired", JBool true);
      (u "followUpTimeframe", JString (u "1-month"));
      (u "confidence", JNumber 60) ].

(** The record returned by the [catch] clause. *)
Definition parseErrorResponse : json :=
  JObject
    [ (u "summary",
        bilingual (JString (u "Unable to parse report. Please consult your doctor."))
          (JString (u "Report parse nahi kar sakte. Doctor se consult karein.")));
      (u "keyFindings", JArray []);
      (u "recommendations",
        bilingual (strings [u "Consult with your doctor"])
          (strings [u "Doctor se consult karein"]));
      (u "doctorQuestions",
        bilingual (strings [u "Please explain these results"])
          (strings [u "In results ki explanation dijiye"]));
      (u "riskFactors", JArray []);
      (u "followUpRequired", JBool true);
      (u "followUpTimeframe", JString (u "1-month"));
      (u "confidence", JNumber 30) ].

Definition parseGeminiResponse (text : jstring) : completion json :=
  try_catch
    (match match_json_block text with
     | Some block => JSON.parse block
     | None => Normal (noJsonResponse text)
     end)
    (fun _ => Normal parseErrorResponse).

(** What [analyzeMedicalReport] is given as [fileData]: a Buffer or a
    string. *)
Inductive file_data :=
| Buffer (bytes : list N)
| Text (s : jstring).

Inductive mime := ImageJpeg | ImagePng | ImageGif | ImageBmp.

(** The MIME type, from the first two bytes of the buffer. *)
Definition detectMime (bytes : list N) : mime :=
  match bytes with
  | b0 :: b1 :: _ =>
      if (b0 =? 255) && (b1 =? 216) then ImageJpeg
      else if (b0 =? 137) && (b1 =? 80) then ImagePng
      else if (b0 =? 71) && (b1 =? 73) then ImageGif
      else if (b0 =? 66) && (b1 =? 77) then ImageBmp
      else ImageJpeg
  | _ => ImageJpeg
  end.

(** A call of [model.generateContent]. The prompt is a fixed template
    around [fileType] and [reportType]; a request is represented by the
    values the call is built from. *)
Inductive request :=
| WithImage (fileType reportType : jstring) (bytes : list N) (mimeType : mime)
| PromptOnly (fileType reportType : jstring) (fileData : file_data).

(** The external model: the text of its response, or an exception from
    the call or from reading the response. *)
Definition model := request -> completion jstring.

Record result := {
  success : bool;
  data : json;
  processingTime : Z;
  fallback : bool          (* [false] when the property is not set *)
}.

Definition message (e : exn) : jstring :=
  match e with
  | Error msg => msg
  | SyntaxError => u "SyntaxError"
  | TypeError => u "TypeError"
  | DbError => u "DbError"
  end.

Definition fallbackResponse : json :=
  JObject
    [ (u "summary",
        bilingual
          (JString (u "AI analysis temporarily unavailable. Please consult your healthcare provider for detailed analysis."))
          (JString (u "AI analysis abhi available nahi hai. Detailed analysis ke liye apne doctor se consult karein.")));
      (u "keyFindings", JArray []);
      (u "recommendations",
        bilingual
          (strings [u "Consult with your healthcare provider for detailed analysis"])
          (strings [u "Detailed analysis ke liye apne doctor se consult karein"]));
      (u "doctorQuestions",
        bilingual
          (strings [u "What do these results mean?"; u "Do I need any follow-up tests?"])
          (strings [u "Ye results ka matlab kya hai?"; u "Kya mujhe koi follow-up tests chahiye?"]));
      (u "riskFactors", JArray []);
      (u "followUpRequired", JBool true);
      (u "followUpTimeframe", JString (u "1-month"));
      (u "confidence", JNumber 30) ].

(** The text of a response, normalized and timed. *)
Definition respond (endTime startTime : Z) (response : completion jstring)
  : completion result :=
  match response with
  | Normal text =>
      match parseGeminiResponse text with
      | Normal d =>
          Normal {| success := true; data := d;
                    processingTime := endTime - startTime; fallback := false |}
      | Throw e => Throw e
      end
  | Throw e => Throw e
  end.

(** The [try] block of [analyzeMedicalReport]. *)
Definition analyze_body (gemini : model) (startTime endTime : Z)
    (fileData : file_data) (fileType reportType : jstring) : completion result :=
  if str_eqb fileType (u "image") then
    match fileData with
    | Text _ => Throw (Error (u "Image data must be a Buffer"))
    | Buffer bytes =>
        try_catch
          (respond endTime startTime
             (gemini (WithImage fileType reportType bytes (detectMime bytes))))
          (fun geminiError =>
             Throw (Error (u "Gemini API failed: " ++ message geminiError)))
    end
  else
    respond endTime startTime (gemini (PromptOnly fileType reportType fileData)).

(** [startTime] and [endTime] are the two readings of the clock. *)
Definition analyzeMedicalReport (gemini : model) (startTime endTime : Z)
    (fileData : file_data) (fileType reportType : jstring) : completion result :=
  try_catch
    (analyze_body gemini startTime endTime fileData fileType reportType)
    (fun _ =>
       Normal {| success := true; data := fallbackResponse;
                 processingTime := endTime - startTime; fallback := true |}).

End Gemini.

(* ===================================================================== *)
(** * models/Vitals.js                                                    *)
(* ===================================================================== *)

Module Vitals.

(** A Number path of a vitals document is unset ([None], read as
    [undefined]) or holds a number: the routes accept nothing else. *)
Record bloodPressure_t := { systolic : option Q; diastolic : option Q }.
Record bloodSugar_t := {
  fasting : option Q; postPrandial : option Q; random : option Q }.
Record reading := { value : option Q }.

Record vitals := {
  bloodPressure : option bloodPressure_t;
  bloodSugar : option bloodSugar_t;
  heartRate : option reading;
  temperature : option reading;
  oxygenSaturation : option reading
}.

(** [x > c] and [x < c]; a comparison with [undefined] is false. *)
Definition gt (x : option Q) (c : Q) : bool :=
  match x with
  | Some q => negb (Qle_bool q c)
  | None => false
  end.

Definition lt (x : option Q) (c : Q) : bool :=
  match x with
  | Some q => negb (Qle_bool c q)
  | None => false
  end.

Definition alert_if (cond : bool) (text : string) : list string :=
  if cond then [text] else [].

Definition checkNormalRanges (this : vitals) : list string :=
  (match bloodPressure this with
   | Some bp =>
       alert_if (gt (systolic bp) 140 || gt (diastolic bp) 90)
         "High blood pressure detected"
       ++ alert_if (lt (systolic bp) 90 || lt (diastolic bp) 60)
         "Low blood pressure detected"
   | None => []
   end)
  ++ (match bloodSugar this with
      | Some bs =>
          alert_if (gt (fasting bs) 126) "High fasting blood sugar"
          ++ alert_if (gt (postPrandial bs) 200) "High post-meal blood sugar"
      | None => []
      end)
  ++ (match heartRate this with
      | Some hr =>
          alert_if (gt (value hr) 100 || lt (value hr) 60) "Abnormal heart rate"
      | None => []
      end)
  ++ (match temperature this with
      | Some t =>
          alert_if (gt (value t) (1004 # 10) || lt (value t) 97)
            "Abnormal body temperature"
      | None => []
      end)
  ++ (match oxygenSaturation this with
      | Some o => alert_if (lt (value o) 95) "Low oxygen saturation"
      | None => []
      end).

End Vitals.

(* ===================================================================== *)
(** * The document store: models/File.js and models/AiInsight.js          *)
(* ===================================================================== *)

Module Store.

(** An ObjectId. *)
Abbreviation oid := N.

Inductive status := Pending | Processing | Completed | Failed.

#[export] Instance status_eq_dec : EqDecision status.
Proof. solve_decision. Defined.

(** The paths of a File document that the pipeline reads or writes. *)
Record File := {
  f_user : oid;
  originalName : jstring;
  fileUrl : jstring;
  f_fileType : jstring;
  f_reportType : jstring;
  testDate : jstring;                 (* the date as it prints *)
  labName : option jstring;
  doctorName : option jstring;
  isProcessed : bool;                 (* default: false *)
  processingStatus : status;          (* default: pending *)
  aiInsight : option oid              (* no default: unset *)
}.

(** The object given to [new AiInsight]. The paths filled from the model's
    answer hold whatever value the answer had. *)
Record AiInsight := {
  i_file : oid;
  i_user : oid;
  rawText : jstring;
  summary_english : json;
  summary_urdu : json;
  keyFindings : json;
  recommendations : json;
  doctorQuestions : json;
  riskFactors : json;
  followUpRequired : json;
  followUpTimeframe : json;
  confidence : json;
  i_processingTime : Z;
  i_model : jstring
}.

(** The two collections, the next fresh ObjectId, and a log of every value
    written to a [processingStatus] (the log is an observer's record, not
    part of the database). *)
Record db := {
  files : gmap N File;
  insights : gmap N AiInsight;
  next_id : N;
  history : list (oid * status)
}.

Definition empty_db : db :=
  {| files := ∅; insights := ∅; next_id := 0; history := [] |}.

(** The statuses written to file [id], in order. *)
Fixpoint trace (id : oid) (h : list (oid * status)) : list status :=
  match h with
  | [] => []
  | (i, s) :: h' => if i =? id then s :: trace id h' else trace id h'
  end.

(** ** Code that reads and writes the store, and may throw *)

Definition St (A : Type) : Type := db -> completion A * db.

#[export] Instance St_ret : MRet St := fun A a d => (Normal a, d).

#[export] Instance St_bind : MBind St := fun A B f m d =>
  match m d with
  | (Normal a, d') => f a d'
  | (Throw e, d') => (Throw e, d')
  end.

Definition throw {A} (e : exn) : St A := fun d => (Throw e, d).

(** [try { body } catch (e) { handler }]: what the body wrote stays. *)
Definition try_catch_st {A} (body : St A) (handler : exn -> St A) : St A :=
  fun d =>
    match body d with
    | (Normal a, d') => (Normal a, d')
    | (Throw e, d') => handler e d'
    end.

(** A call that is not awaited: its exception reaches nobody. As a
    function of the store this is the task run to its end before the
    caller goes on, which is one of the orders in which the two can run;
    [Async] has the others. *)
Definition detached {A} (task : St A) : St unit :=
  fun d => (Normal tt, snd (task d)).

Definition set_status (s : status) (f : File) : File :=
  {| f_user := f_user f; originalName := originalName f; fileUrl := fileUrl f;
     f_fileType := f_fileType f; f_reportType := f_reportType f;
     testDate := testDate f; labName := labName f; doctorName := doctorName f;
     isProcessed := isProcessed f; processingStatus := s;
     aiInsight := aiInsight f |}.

Definition set_completed (insight : oid) (f : File) : File :=
  {| f_user := f_user f; originalName := originalName f; fileUrl := fileUrl f;
     f_fileType := f_fileType f; f_reportType := f_reportType f;
     testDate := testDate f; labName := labName f; doctorName := doctorName f;
     isProcessed := true; processingStatus := Completed;
     aiInsight := Some insight |}.

(** Every database call takes a flag [fails]: whether this call throws
    (connection lost, write refused). A call that throws writes nothing. *)

(** [new Model(...)] draws a fresh [_id]. *)
Definition newId : St oid := fun d =>
  (Normal (next_id d),
   {| files := files d; insights := insights d; next_id := next_id d + 1;
      history := history d |}).

(** [file.save()] of a new File document. *)
Definition File_save (fails : bool) (id : oid) (f : File) : St unit := fun d =>
  if fails then (Throw DbError, d)
  else (Normal tt,
        {| files := <[id := f]> (files d); insights := insights d;
           next_id := next_id d;
           history := history d ++ [(id, processingStatus f)] |}).

(** [File.findById(id)]; [None] is [null]. *)
Definition File_findById (fails : bool) (id : oid) : St (option File) := fun d =>
  if fails then (Throw DbError, d) else (Normal (files d !! id), d).

(** [File.findOne({ _id: id, user: user })]. *)
Definition File_findOne (fails : bool) (id user : oid) : St (option File) :=
  fun d =>
    if fails then (Throw DbError, d)
    else (Normal (match files d !! id with
                  | Some f => if f_user f =? user then Some f else None
                  | None => None
                  end), d).

(** [File.findByIdAndUpdate(id, { processingStatus: s })]. Nothing happens
    when no document has this id. *)
Definition File_updateStatus (fails : bool) (id : oid) (s : status) : St unit :=
  fun d =>
    if fails then (Throw DbError, d)
    else match files d !! id with
         | Some f =>
             (Normal tt,
              {| files := <[id := set_status s f]> (files d);
                 insights := insights d; next_id := next_id d;
                 history := history d ++ [(id, s)] |})
         | None => (Normal tt, d)
         end.

(** [File.findByIdAndUpdate(id, { aiInsight, isProcessed: true,
    processingStatus: 'completed' })]. *)
Definition File_link (fails : bool) (id insight : oid) : St unit := fun d =>
  if fails then (Throw DbError, d)
  else match files d !! id with
       | Some f =>
           (Normal tt,
            {| files := <[id := set_completed insight f]> (files d);
               insights := insights d; next_id := next_id d;
               history := history d ++ [(id, Completed)] |})
       | None => (Normal tt, d)
       end.

(** [AiInsight.findByIdAndDelete(id)] and [File.findByIdAndDelete(id)]. *)
Definition AiInsight_findByIdAndDelete (fails : bool) (id : oid) : St unit :=
  fun d =>
    if fails then (Throw DbError, d)
    else (Normal tt,
          {| files := files d; insights := delete id (insights d);
             next_id := next_id d; history := history d |}).

Definition File_findByIdAndDelete (fails : bool) (id : oid) : St unit :=
  fun d =>
    if fails then (Throw DbError, d)
    else (Normal tt,
          {| files := delete id (files d); insights := insights d;
             next_id := next_id d; history := history d |}).

(** A computation that does not touch the store. *)
Definition lift {A} (c : completion A) : St A := fun d => (c, d).

Section Mongoose.

(** What Mongoose makes of a value that is not a number on a Number path:
    the number it is cast to, or [None] for a cast error. This is library
    behaviour and stays a parameter. *)
Variable castNumberOther : json -> option Q.

Definition castNumber (v : json) : option Q :=
  match v with
  | JNumber q => Some q
  | _ => castNumberOther v
  end.

(** The validators of the [confidence] path: a number, [min: 0],
    [max: 100]. *)
Definition confidence_cast (v : json) : option Q :=
  match castNumber v with
  | Some q => if Qle_bool 0 q && Qle_bool q 100 then Some q else None
  | None => None
  end.

Definition with_confidence (q : Q) (i : AiInsight) : AiInsight :=
  {| i_file := i_file i; i_user := i_user i; rawText := rawText i;
     summary_english := summary_english i; summary_urdu := summary_urdu i;
     keyFindings := keyFindings i; recommendations := recommendations i;
     doctorQuestions := doctorQuestions i; riskFactors := riskFactors i;
     followUpRequired := followUpRequired i;
     followUpTimeframe := followUpTimeframe i; confidence := JNumber q;
     i_processingTime := i_processingTime i; i_model := i_model i |}.

(** [aiInsight.save()]: validation, then the write. [fails] stands for
    every failure other than the [confidence] validators: another
    validator of the schema, or the write itself. *)
Definition AiInsight_save (fails : bool) (id : oid) (doc : AiInsight) : St unit :=
  fun d =>
    match confidence_cast (confidence doc) with
    | None => (Throw (Error (u "AiInsight validation failed")), d)
    | Some q =>
        if fails then (Throw DbError, d)
        else (Normal tt,
              {| files := files d;
                 insights := <[id := with_confidence q doc]> (insights d);
                 next_id := next_id d; history := history d |})
    end.

End Mongoose.

End Store.

(* ===================================================================== *)
(** * routes/files.js and routes/ai.js                                    *)
(* ===================================================================== *)

Module Pipeline.
Import Store Gemini.

(** ** What lies outside the program *)

(** The model, the object storage, the two readings of the clock in
    [analyzeMedicalReport], and Mongoose's cast of a value that is not a
    number. *)
Record env := {
  gemini : model;
  download : jstring -> completion (list N);    (* the GET of [file.fileUrl] *)
  startTime : Z;
  endTime : Z;
  castNumberOther : json -> option Q
}.

(** Which database calls of one run throw, in the order of the calls of
    [processAIInsight]. The manual route makes the same calls with
    [File.findOne] first, its failure is [fail_find]. *)
Record faults := {
  fail_mark_processing : bool;
  fail_find : bool;
  fail_save : bool;
  fail_link : bool;
  fail_mark_failed : bool
}.

Definition no_faults : faults :=
  {| fail_mark_processing := false; fail_find := false; fail_save := false;
     fail_link := false; fail_mark_failed := false |}.

(** ** processAIInsight *)

(** [s || d] for a string path of a document. *)
Definition text_or (o : option jstring) (d : jstring) : jstring :=
  match o with
  | Some s => if str_eqb s [] then d else s
  | None => d
  end.

(** A line break of a template literal, with the indentation of the
    source line that follows. *)
Definition nl (indent : nat) : jstring := 10 :: repeat 32 indent.

(** The two template literals: the one of the [catch] clause of the
    download ([note], 16 spaces) and the one for files that are not
    images (12 spaces). *)
Definition metadataText (indent : nat) (note : bool) (file : File)
    (fileType reportType : jstring) : jstring :=
  u "Medical Report Analysis Request:"
  ++ nl indent ++ u "File: " ++ originalName file
  ++ nl indent ++ u "Type: " ++ fileType
  ++ nl indent ++ u "Report Type: " ++ reportType
  ++ nl indent ++ u "Lab: " ++ text_or (labName file) (u "Not specified")
  ++ nl indent ++ u "Doctor: " ++ text_or (doctorName file) (u "Not specified")
  ++ nl indent ++ u "Date: " ++ testDate file
  ++ nl indent
  ++ (if note
      then nl indent
           ++ u "Note: Could not download image for analysis. Please analyze based on metadata."
           ++ nl indent
      else [])
  ++ nl indent ++ u "Please analyze this medical report and provide insights.".

(** The value of [fileData]. *)
Definition prepareData (e : env) (file : File) (fileType reportType : jstring)
  : file_data :=
  if str_eqb (f_fileType file) (u "image") then
    match download e (fileUrl file) with
    | Normal fileBuffer => Buffer fileBuffer
    | Throw _ => Text (metadataText 16 true file fileType reportType)
    end
  else Text (metadataText 12 false file fileType reportType).

Definition emptyBilingual : json := bilingual (JArray []) (JArray []).

(** The object given to [new AiInsight]. [analysis] is an object: it is
    one of the records of [config/gemini.js] or what [JSON.parse] made of
    a text that starts with a brace. *)
Definition buildInsight (fileId userId : oid) (file : File)
    (fileData : file_data) (geminiResult : result) : AiInsight :=
  let analysis := data geminiResult in
  {| i_file := fileId;
     i_user := userId;
     rawText := match fileData with
                | Buffer _ => u "Image file: " ++ originalName file
                | Text s => s
                end;
     summary_english :=
       or_else (or_opt (get_opt (get analysis (u "summary")) (u "english"))
                       (get analysis (u "summary")))
               (JString (u "Analysis completed"));
     summary_urdu :=
       or_else (get_opt (get analysis (u "summary")) (u "urdu"))
               (JString (u "Roman Urdu summary not available"));
     keyFindings := or_else (get analysis (u "keyFindings")) (JArray []);
     recommendations := or_else (get analysis (u "recommendations")) emptyBilingual;
     doctorQuestions := or_else (get analysis (u "doctorQuestions")) emptyBilingual;
     riskFactors := or_else (get analysis (u "riskFactors")) (JArray []);
     followUpRequired := or_else (get analysis (u "followUpRequired")) (JBool false);
     followUpTimeframe :=
       or_else (get analysis (u "followUpTimeframe")) (JString (u "1-month"));
     confidence := or_else (get analysis (u "confidence")) (JNumber 60);
     i_processingTime := processingTime geminiResult;
     i_model := u "gemini-1.0-pro" |}.

(** The [try] block. *)
Definition process_body (e : env) (fs : faults) (fileId : oid)
    (fileType reportType : jstring) (userId : oid) : St unit :=
  File_updateStatus (fail_mark_processing fs) fileId Processing ;;
  found ← File_findById (fail_find fs) fileId ;
  match found with
  | None => throw (Error (u "File not found"))
  | Some file =>
      let fileData := prepareData e file fileType reportType in
      geminiResult ← lift (analyzeMedicalReport (gemini e) (startTime e) (endTime e)
                             fileData fileType reportType) ;
      id ← newId ;
      AiInsight_save (castNumberOther e) (fail_save fs) id
        (buildInsight fileId userId file fileData geminiResult) ;;
      File_link (fail_link fs) fileId id
  end.

(** [filePath] is not used by the function. *)
Definition processAIInsight (e : env) (fs : faults) (fileId : oid)
    (filePath fileType reportType : jstring) (userId : oid) : St unit :=
  try_catch_st
    (process_body e fs fileId fileType reportType userId)
    (fun _ => File_updateStatus (fail_mark_failed fs) fileId Failed).

(** ** The routes *)

Record response := {
  code : N;                (* the HTTP status *)
  ok : bool;               (* [success] *)
  message : jstring
}.

(** [req.uploadedFile] and [req.body], as far as the File document keeps
    them. *)
Record upload_request := {
  up_originalName : jstring;
  up_filePath : jstring;
  up_fileUrl : jstring;
  up_fileType : jstring;
  up_reportType : jstring;
  up_testDate : jstring;
  up_labName : option jstring;
  up_doctorName : option jstring
}.

(** [new File(...)]: the schema defaults fill the processing paths. *)
Definition newFile (user : oid) (req : upload_request) : File :=
  {| f_user := user;
     originalName := up_originalName req;
     fileUrl := up_fileUrl req;
     f_fileType := up_fileType req;
     f_reportType := up_reportType req;
     testDate := up_testDate req;
     labName := up_labName req;
     doctorName := up_doctorName req;
     isProcessed := false;
     processingStatus := Pending;
     aiInsight := None |}.

(** [POST /api/files/upload], after the middleware. [valid] is the outcome
    of the validators, [fail_file_save] whether [file.save()] throws, and
    [e], [fs] are what the background run will meet. *)
Definition uploadRoute (e : env) (fs : faults) (valid fail_file_save : bool)
    (user : oid) (req : upload_request) : St response :=
  try_catch_st
    (if valid then
       id ← newId ;
       File_save fail_file_save id (newFile user req) ;;
       detached (processAIInsight e fs id (up_filePath req) (up_fileType req)
                   (up_reportType req) user) ;;
       mret {| code := 201; ok := true; message := u "File uploaded successfully" |}
     else
       mret {| code := 400; ok := false; message := u "Validation failed" |})
    (fun _ =>
       mret {| code := 500; ok := false; message := u "File upload failed" |}).

Definition finding (parameter value unit status normalRange english urdu : string)
  : json :=
  JObject
    [ (u "parameter", JString (u parameter));
      (u "value", JString (u value));
      (u "unit", JString (u unit));
      (u "status", JString (u status));
      (u "normalRange", JString (u normalRange));
      (u "significance", bilingual (JString (u english)) (JString (u urdu))) ].

(** The document the manual route saves: constant but for the ids and the
    time. *)
Definition sampleInsight (fileId user : oid) (elapsed : Z) : AiInsight :=
  {| i_file := fileId;
     i_user := user;
     rawText := u "Sample extracted text from medical report";
     summary_english := JString (u "This is a comprehensive analysis of your medical report. The results show normal ranges for most parameters with a few areas that may need attention.");
     summary_urdu := JString (u "Ye aapke medical report ka comprehensive analysis hai. Results show karte hain ke most parameters normal range mein hain lekin kuch areas hain jo attention ki zarurat hai.");
     keyFindings :=
       JArray
         [ finding "Hemoglobin" "12.5" "g/dL" "normal" "12-16 g/dL"
             "Within normal range, indicates good oxygen-carrying capacity"
             "Normal range mein hai, oxygen carrying capacity acchi hai";
           finding "Blood Sugar (Fasting)" "110" "mg/dL" "high" "70-100 mg/dL"
             "Slightly elevated, may indicate pre-diabetes"
             "Thoda high hai, pre-diabetes ka indication ho sakta hai" ];
     recommendations :=
       bilingual
         (strings [ u "Monitor blood sugar levels regularly";
                    u "Follow a balanced diet with reduced sugar intake";
                    u "Exercise regularly for at least 30 minutes daily";
                    u "Schedule follow-up with your doctor in 3 months" ])
         (strings [ u "Blood sugar levels regular monitor karein";
                    u "Balanced diet follow karein with reduced sugar";
                    u "Regular exercise karein at least 30 minutes daily";
                    u "3 months mein doctor ke saath follow-up schedule karein" ]);
     doctorQuestions :=
       bilingual
         (strings [ u "Should I be concerned about my blood sugar levels?";
                    u "What dietary changes should I make?";
                    u "Do I need any additional tests?";
                    u "How often should I monitor my blood sugar?" ])
         (strings [ u "Kya mujhe blood sugar levels ke baare mein concern karna chahiye?";
                    u "Kya dietary changes karne chahiye?";
                    u "Kya mujhe koi additional tests chahiye?";
                    u "Kitni baar blood sugar monitor karna chahiye?" ]);
     riskFactors :=
       JArray
         [ JObject
             [ (u "factor", JString (u "Elevated Blood Sugar"));
               (u "level", JString (u "medium"));
               (u "description",
                 bilingual
                   (JString (u "Slightly elevated blood sugar may indicate pre-diabetes risk"))
                   (JString (u "Thoda high blood sugar pre-diabetes risk indicate kar sakta hai"))) ] ];
     followUpRequired := JBool true;
     followUpTimeframe := JString (u "3-months");
     confidence := JNumber 88;
     i_processingTime := elapsed;
     i_model := u "gemini-1.5-pro" |}.

(** [POST /api/ai/analyze-file/:fileId]. [elapsed] is the difference of
    the two readings of the clock. An id is taken to be a well-formed
    ObjectId. *)
Definition analyzeFileRoute (cast : json -> option Q) (fs : faults)
    (elapsed : Z) (fileId user : oid) : St response :=
  try_catch_st
    (found ← File_findOne (fail_find fs) fileId user ;
     match found with
     | None =>
         mret {| code := 404; ok := false; message := u "File not found" |}
     | Some file =>
         if isProcessed file && bool_decide (is_Some (aiInsight file)) then
           mret {| code := 400; ok := false; message := u "File already processed" |}
         else
           File_updateStatus (fail_mark_processing fs) fileId Processing ;;
           id ← newId ;
           AiInsight_save cast (fail_save fs) id (sampleInsight fileId user elapsed) ;;
           File_link (fail_link fs) fileId id ;;
           mret {| code := 200; ok := true;
                   message := u "AI analysis completed successfully" |}
     end)
    (fun _ =>
       File_updateStatus (fail_mark_failed fs) fileId Failed ;;
       mret {| code := 500; ok := false; message := u "AI analysis failed" |}).

(** [DELETE /api/files/:id]. [deleteFromCloudinary] catches its own
    exceptions and does not touch the store. *)
Definition deleteRoute (fail_findOne fail_delete_insight fail_delete_file : bool)
    (fileId user : oid) : St response :=
  try_catch_st
    (found ← File_findOne fail_findOne fileId user ;
     match found with
     | None =>
         mret {| code := 404; ok := false; message := u "File not found" |}
     | Some file =>
         match aiInsight file with
         | Some insight => AiInsight_findByIdAndDelete fail_delete_insight insight
         | None => mret tt
         end ;;
         File_findByIdAndDelete fail_delete_file fileId ;;
         mret {| code := 200; ok := true; message := u "File deleted successfully" |}
     end)
    (fun _ =>
       mret {| code := 500; ok := false; message := u "File deletion failed" |}).

(** ** Requests handled one after the other

    One step is one request, handled from start to end; the background
    run that an upload starts is part of the step of the upload. The
    server also lets handlers overlap: see [Async]. *)
Inductive request :=
| Upload (e : env) (fs : faults) (valid fail_file_save : bool)
    (user : oid) (req : upload_request)
| AnalyzeFile (cast : json -> option Q) (fs : faults) (elapsed : Z)
    (fileId user : oid)
| DeleteFile (fail_findOne fail_delete_insight fail_delete_file : bool)
    (fileId user : oid).

Definition handle (r : request) : St response :=
  match r with
  | Upload e fs valid fail_file_save user req =>
      uploadRoute e fs valid fail_file_save user req
  | AnalyzeFile cast fs elapsed fileId user =>
      analyzeFileRoute cast fs elapsed fileId user
  | DeleteFile f1 f2 f3 fileId user => deleteRoute f1 f2 f3 fileId user
  end.

Definition step (d : db) (r : request) : db := snd (handle r d).

(** The store after the requests [rs], from the empty store. *)
Definition run (rs : list request) : db := fold_left step rs empty_db.

(** The relation between the processing paths of a File document. *)
Definition consistent (f : File) : bool :=
  bool_decide (isProcessed f = true <->
               processingStatus f = Completed /\ is_Some (aiInsight f)).

End Pipeline.

(* ===================================================================== *)
(** * The handlers as asynchronous code                                   *)
(* ===================================================================== *)

(** The handlers of the routes and [processAIInsight] are [async]
    functions. Such a function runs until it awaits a call, and goes on
    with the outcome of the call when its turn comes again; in between,
    other handlers take their turns. The code between two awaits touches
    no store, so a turn is one awaited call, made on the store as it is
    at that moment, with the code that follows it up to the next await.
    The calls of one handler are made in their order; the calls of two
    handlers, in any order. *)
Module Async.
Import Store Gemini Pipeline.

Inductive proc (A : Type) : Type :=
| Ret (a : A)                                          (* [return a] *)
| Raise (e : exn)                                      (* [throw e] *)
| Await {B : Type} (call : St B) (k : completion B -> proc A)
| Start (child : proc unit) (k : proc A).              (* a call without [await] *)
Arguments Ret {A} a.
Arguments Raise {A} e.
Arguments Await {A B} call k.
Arguments Start {A} child k.

(** [await call]. *)
Definition await {B : Type} (call : St B) : proc B :=
  Await call (fun c => match c with Normal b => Ret b | Throw e => Raise e end).

Fixpoint bind {A B : Type} (p : proc A) (f : A -> proc B) : proc B :=
  match p with
  | Ret a => f a
  | Raise e => Raise e
  | Await call k => Await call (fun c => bind (k c) f)
  | Start child k => Start child (bind k f)
  end.

(** [try { p } catch (e) { handler }]. What a call that is not awaited
    throws does not reach the handler. *)
Fixpoint try_catch {A : Type} (p : proc A) (handler : exn -> proc A) : proc A :=
  match p with
  | Ret a => Ret a
  | Raise e => handler e
  | Await call k => Await call (fun c => try_catch (k c) handler)
  | Start child k => Start child (try_catch k handler)
  end.

#[export] Instance proc_bind : MBind proc := fun A B f p => bind p f.

(** [new Model(...)] followed by [await doc.save()]: the [_id] is drawn in
    the turn that sends the save. *)
Definition create {A : Type} (save : oid -> St A) : St oid :=
  id ← newId ; save id ;; mret id.

(** [processAIInsight]. The download (in [prepareData]) and the model
    touch no store. *)
Definition processAIInsight (e : env) (fs : faults) (fileId : oid)
    (filePath fileType reportType : jstring) (userId : oid) : proc unit :=
  try_catch
    (await (File_updateStatus (fail_mark_processing fs) fileId Processing) ;;
     found ← await (File_findById (fail_find fs) fileId) ;
     match found with
     | None => Raise (Error (u "File not found"))
     | Some file =>
         let fileData := prepareData e file fileType reportType in
         geminiResult ← await (lift (analyzeMedicalReport (gemini e) (startTime e)
                                       (endTime e) fileData fileType reportType)) ;
         id ← await (create (fun id =>
                       AiInsight_save (castNumberOther e) (fail_save fs) id
                         (buildInsight fileId userId file fileData geminiResult))) ;
         await (File_link (fail_link fs) fileId id)
     end)
    (fun _ => await (File_updateStatus (fail_mark_failed fs) fileId Failed)).

(** [POST /api/files/upload]. *)
Definition uploadRoute (e : env) (fs : faults) (valid fail_file_save : bool)
    (user : oid) (req : upload_request) : proc response :=
  try_catch
    (if valid then
       id ← await (create (fun id => File_save fail_file_save id (newFile user req))) ;
       Start (processAIInsight e fs id (up_filePath req) (up_fileType req)
                (up_reportType req) user)
         (Ret {| code := 201; ok := true; message := u "File uploaded successfully" |})
     else
       Ret {| code := 400; ok := false; message := u "Validation failed" |})
    (fun _ =>
       Ret {| code := 500; ok := false; message := u "File upload failed" |}).

(** [POST /api/ai/analyze-file/:fileId]. *)
Definition analyzeFileRoute (cast : json -> option Q) (fs : faults)
    (elapsed : Z) (fileId user : oid) : proc response :=
  try_catch
    (found ← await (File_findOne (fail_find fs) fileId user) ;
     match found with
     | None =>
         Ret {| code := 404; ok := false; message := u "File not found" |}
     | Some file =>
         if isProcessed file && bool_decide (is_Some (aiInsight file)) then
           Ret {| code := 400; ok := false; message := u "File already processed" |}
         else
           await (File_updateStatus (fail_mark_processing fs) fileId Processing) ;;
           id ← await (create (fun id =>
                         AiInsight_save cast (fail_save fs) id
                           (sampleInsight fileId user elapsed))) ;
           await (File_link (fail_link fs) fileId id) ;;
           Ret {| code := 200; ok := true;
                  message := u "AI analysis completed successfully" |}
     end)
    (fun _ =>
       await (File_updateStatus (fail_mark_failed fs) fileId Failed) ;;
       Ret {| code := 500; ok := false; message := u "AI analysis failed" |}).

(** [DELETE /api/files/:id]. *)
Definition deleteRoute (fail_findOne fail_delete_insight fail_delete_file : bool)
    (fileId user : oid) : proc response :=
  try_catch
    (found ← await (File_findOne fail_findOne fileId user) ;
     match found with
     | None =>
         Ret {| code := 404; ok := false; message := u "File not found" |}
     | Some file =>
         match aiInsight file with
         | Some insight => await (AiInsight_findByIdAndDelete fail_delete_insight insight)
         | None => Ret tt
         end ;;
         await (File_findByIdAndDelete fail_delete_file fileId) ;;
         Ret {| code := 200; ok := true; message := u "File deleted successfully" |}
     end)
    (fun _ =>
       Ret {| code := 500; ok := false; message := u "File deletion failed" |}).

Definition handle (r : request) : proc response :=
  match r with
  | Upload e fs valid fail_file_save user req =>
      uploadRoute e fs valid fail_file_save user req
  | AnalyzeFile cast fs elapsed fileId user =>
      analyzeFileRoute cast fs elapsed fileId user
  | DeleteFile f1 f2 f3 fileId user => deleteRoute f1 f2 f3 fileId user
  end.

(** ** The server

    The handlers that have been called, in the order of their calls, and
    the store. A handler whose code is [Ret] has answered; one whose code
    is [Raise] has thrown, and nobody hears of it. *)
Inductive thread :=
| Handler (p : proc response)
| Background (p : proc unit).

Record config := {
  store : db;
  pool : list thread
}.

Definition initial : config := {| store := empty_db; pool := [] |}.

(** One turn of a piece of code in store [d]: what is left of the code,
    the store, and what it started. Code that is done takes no turn. *)
Definition advance {A : Type} (p : proc A) (d : db) : proc A * db * list thread :=
  match p with
  | Await call k => (k (fst (call d)), snd (call d), [])
  | Start child k => (k, d, [Background child])
  | Ret _ | Raise _ => (p, d, [])
  end.

Definition turn (t : thread) (d : db) : thread * db * list thread :=
  match t with
  | Handler p => let '(p', d', started) := advance p d in (Handler p', d', started)
  | Background p => let '(p', d', started) := advance p d in (Background p', d', started)
  end.

(** What happens: a request arrives, or thread [n] takes a turn. *)
Inductive event :=
| Arrive (r : request)
| Turn (n : nat).

Definition next (c : config) (e : event) : config :=
  match e with
  | Arrive r => {| store := store c; pool := pool c ++ [Handler (handle r)] |}
  | Turn n =>
      match pool c !! n with
      | Some t =>
          let '(t', d', started) := turn t (store c) in
          {| store := d'; pool := <[n := t']> (pool c) ++ started |}
      | None => c
      end
  end.

(** The server after the events [es], from the empty store. *)
Definition schedule (es : list event) : config := fold_left next es initial.

(** The code run to its end in one go, what it starts included: the
    schedule in which nothing else takes a turn in between. *)
Fixpoint seq {A : Type} (p : proc A) : St A := fun d =>
  match p with
  | Ret a => (Normal a, d)
  | Raise e => (Throw e, d)
  | Await call k => seq (k (fst (call d))) (snd (call d))
  | Start child k => seq k (snd (seq child d))
  end.

End Async.

(* ===================================================================== *)
(** * Virtuals and methods of the models                                  *)
(* ===================================================================== *)

(** [models/AiInsight.js]: the virtual and the two methods of an insight,
    over its arrays of subdocuments. *)
Module Insight.

(** [x === s] for a string literal [s]. *)
Definition is_string (o : option json) (s : jstring) : bool :=
  match o with
  | Some (JString t) => str_eqb t s
  | _ => false
  end.

Definition has_level (l : string) (rf : json) : bool :=
  is_string (get rf (u "level")) (u l).

Definition has_status (s : string) (finding : json) : bool :=
  is_string (get finding (u "status")) (u s).

Definition overallRiskLevel (riskFactors : list json) : jstring :=
  let highRiskCount :=
    length (List.filter (fun rf => has_level "high" rf) riskFactors) in
  let mediumRiskCount :=
    length (List.filter (fun rf => has_level "medium" rf) riskFactors) in
  if (0 <? highRiskCount)%nat then u "high"
  else if (2 <? mediumRiskCount)%nat then u "medium"
  else u "low".

Definition getCriticalFindings (keyFindings : list json) : list json :=
  List.filter
    (fun finding => has_status "critical" finding || has_status "abnormal" finding)
    keyFindings.

Definition getNormalFindings (keyFindings : list json) : list json :=
  List.filter (fun finding => has_status "normal" finding) keyFindings.

End Insight.

(** [models/File.js]: the age of a file. Dates are milliseconds since the
    epoch. *)
Module FileAge.

Definition msPerDay : Z := 1000 * 60 * 60 * 24.

(** [Math.floor] of the quotient. *)
Definition ageInDays (now testDate : Z) : Z := ((now - testDate) / msPerDay)%Z.

Definition isRecent (now testDate : Z) : bool := (ageInDays now testDate <=? 30)%Z.

End FileAge.

(** [models/Vitals.js]: the two virtuals for the body-mass index. The
    index is computed in IEEE-754 double precision, as JavaScript
    computes it: [SpecFloat] of the Standard Library has the operations,
    rounded to nearest, ties to even. *)
Module Bmi.

Abbreviation double := SpecFloat.spec_float.

Definition prec : Z := 53.
Definition emax : Z := 1024.

(** The double nearest to an integer. *)
Definition of_Z (n : Z) : double :=
  SpecFloat.binary_normalize prec emax n 0 false.

Definition div (x y : double) : double := SpecFloat.SFdiv prec emax x y.
Definition mul (x y : double) : double := SpecFloat.SFmul prec emax x y.

(** The double that stands for the value [q] of a Number path: the
    quotient of its numerator and its denominator, rounded once, which is
    the double nearest to [q] when both are below 2^53 (so for 73.8,
    written [738 # 10], the double that the text 73.8 denotes). *)
Definition to_double (q : Q) : double :=
  div (of_Z (Qnum q)) (of_Z (Z.pos (Qden q))).

(** A number as the virtuals can meet it: the exact value of a finite
    double, or one of the three others. *)
Inductive number :=
| Num (q : Q)
| NaN
| PosInf
| NegInf.

Definition of_double (x : double) : number :=
  match x with
  | SpecFloat.S754_zero _ => Num 0
  | SpecFloat.S754_infinity false => PosInf
  | SpecFloat.S754_infinity true => NegInf
  | SpecFloat.S754_nan => NaN
  | SpecFloat.S754_finite s m e =>
      Num ((if s then -1 else 1) * inject_Z (Z.pos m) * 2 ^ e)%Q
  end.

(** [weight.value / (heightInMeters * heightInMeters)], where a value
    that is not set is [undefined]. *)
Definition ratio (weight height : option Q) : number :=
  match weight, height with
  | Some w, Some h =>
      let heightInMeters := div (to_double h) (of_Z 100) in
      of_double (div (to_double w) (mul heightInMeters heightInMeters))
  | _, _ => NaN
  end.

(** The number that [x.toFixed(1)] spells: the nearest multiple of a
    tenth, the larger one in magnitude of two that are equally near.
    From 10^21 on the text is that of the number itself. *)
Definition toFixed1 (x : number) : number :=
  match x with
  | Num q =>
      if Qle_bool (10 ^ 21) (Qabs q) then Num q
      else
        let n := Qfloor (10 * Qabs q + (1 # 2)) in
        Num (if Qle_bool 0 q then n # 10 else (- n) # 10)
  | other => other
  end.

(** [bmi]: [None] is [null]; there is a text otherwise. [weight] and
    [height] are the two objects, each with its [value]. *)
Definition bmi (weight height : option Vitals.reading) : option number :=
  match weight, height with
  | Some w, Some h => Some (toFixed1 (ratio (Vitals.value w) (Vitals.value h)))
  | _, _ => None
  end.

(** [text < c], after the text is read as a number. The text spells a
    multiple of a tenth; the double nearest to it lies on the same side
    of [c] as the multiple itself, for the three [c] of [bmiCategory],
    which are doubles and multiples of a half. *)
Definition less (x : number) (c : Q) : bool :=
  match x with
  | Num q => negb (Qle_bool c q)
  | NegInf => true
  | NaN | PosInf => false
  end.

Definition bmiCategory (weight height : option Vitals.reading) : option jstring :=
  match bmi weight height with
  | None => None
  | Some b =>
      Some (if less b (185 # 10) then u "underweight"
            else if less b 25 then u "normal"
            else if less b 30 then u "overweight"
            else u "obese")
  end.

End Bmi.

(* ===================================================================== *)
(** * config/gemini.js: analyzeVitals                                     *)
(* ===================================================================== *)

Module VitalsAnalysis.
Import Gemini.

(** The result: [data] on success, [error] on failure. *)
Record report := {
  success : bool;
  data : option json;
  error : option jstring
}.

(** The model is asked with a prompt built around [vitalsData]; the call
    stands for building the prompt, the request and reading the answer. *)
Definition analyzeVitals (gemini : json -> completion jstring) (vitalsData : json)
  : completion report :=
  try_catch
    (match gemini vitalsData with
     | Normal text =>
         match parseGeminiResponse text with
         | Normal d => Normal {| success := true; data := Some d; error := None |}
         | Throw e => Throw e
         end
     | Throw e => Throw e
     end)
    (fun e =>
       Normal {| success := false; data := None; error := Some (message e) |}).

End VitalsAnalysis.

(* ===================================================================== *)
(** * middleware/upload.js and middleware/auth.js                         *)
(* ===================================================================== *)

Module Upload.

Definition allowedTypes : list jstring :=
  [ u "application/pdf"; u "image/jpeg"; u "image/jpg"; u "image/png";
    u "image/gif"; u "image/webp"; u "image/tiff"; u "image/bmp" ].

(** [fileFilter]: whether the file is accepted. *)
Definition fileFilter (mimetype : jstring) : bool :=
  existsb (str_eqb mimetype) allowedTypes.

Fixpoint startsWith (s prefix : jstring) : bool :=
  match prefix, s with
  | [], _ => true
  | p :: prefix', c :: s' => (c =? p) && startsWith s' prefix'
  | _ :: _, [] => false
  end.

(** The [fileType] that [processAndUpload] records. *)
Definition fileTypeOf (mimetype : jstring) : jstring :=
  if startsWith mimetype (u "image/") then u "image" else u "pdf".

End Upload.

Module RateLimit.

(** The state of one limiter: the times of the attempts kept for each
    user. *)
Abbreviation attempts := (gmap jstring (list Z)).

(** One request through [sensitiveOperationLimit(windowMs, max)]: whether
    it is let through ([false] is the answer 429), and the map
    afterwards. *)
Definition sensitiveOperationLimit (windowMs : Z) (max : nat)
    (key : jstring) (now : Z) (a : attempts) : bool * attempts :=
  let userAttempts := default [] (a !! key) in
  let recentAttempts :=
    List.filter (fun time => bool_decide (now - time < windowMs)%Z) userAttempts in
  if (max <=? length recentAttempts)%nat then (false, a)
  else (true, <[key := recentAttempts ++ [now]]> a).

(** The requests of a sequence that are let through, from the map [a]. *)
Fixpoint admitted (windowMs : Z) (max : nat) (a : attempts)
    (requests : list (jstring * Z)) : list (jstring * Z) :=
  match requests with
  | [] => []
  | (key, now) :: rest =>
      let (pass, a') := sensitiveOperationLimit windowMs max key now a in
      (if pass then [(key, now)] else []) ++ admitted windowMs max a' rest
  end.

End RateLimit.

(* ===================================================================== *)
(** * Vocabulary of the statements                                        *)
(* ===================================================================== *)

Module Examples.

(** A response with a JSON object after a label. *)
Definition labelled_result : jstring :=
  json_text "Result: {'summary':{'english':'ok','urdu':'ok'},'keyFindings':[],'recommendations':{'english':[],'urdu':[]},'doctorQuestions':{'english':[],'urdu':[]},'riskFactors':[],'followUpRequired':false,'confidence':90}".

(** A response without any brace. *)
Definition unexpected : jstring := u "the model said something unexpected".

(** A response whose block is not JSON. *)
Definition broken_block : jstring := u "Here you go: {oops}".

(** A response that is JSON, with a confidence the schema refuses. *)
Definition overconfident : jstring := json_text "{'confidence':500}".

(** A world in which the model answers [text], the download of an image
    times out, the analysis takes a second and a half, and Mongoose casts
    nothing but numbers to a number. *)
Definition answering (text : jstring) : Pipeline.env :=
  {| Pipeline.gemini := fun _ => Normal text;
     Pipeline.download := fun _ => Throw (Error (u "Download timeout"));
     Pipeline.startTime := 0;
     Pipeline.endTime := 1500;
     Pipeline.castNumberOther := fun _ => None |}.

Definition report : Pipeline.upload_request :=
  {| Pipeline.up_originalName := u "cbc.pdf";
     Pipeline.up_filePath := u "healthmate/cbc";
     Pipeline.up_fileUrl := u "https://res.cloudinary.com/healthmate/cbc.pdf";
     Pipeline.up_fileType := u "pdf";
     Pipeline.up_reportType := u "blood-test";
     Pipeline.up_testDate := u "2024-01-15";
     Pipeline.up_labName := None;
     Pipeline.up_doctorName := None |}.

(** User 7 uploads the report; no database call fails. *)
Definition upload (text : jstring) : Pipeline.request :=
  Pipeline.Upload (answering text) Pipeline.no_faults true false 7 report.

(** The same upload, in a run whose link update throws. *)
Definition link_fails : Pipeline.faults :=
  {| Pipeline.fail_mark_processing := false; Pipeline.fail_find := false;
     Pipeline.fail_save := false; Pipeline.fail_link := true;
     Pipeline.fail_mark_failed := false |}.

Definition upload_unlinked (text : jstring) : Pipeline.request :=
  Pipeline.Upload (answering text) link_fails true false 7 report.

(** User 7 asks for the analysis of file 0. *)
Definition analyze : Pipeline.request :=
  Pipeline.AnalyzeFile (fun _ => None) Pipeline.no_faults 3000 0 7.

(** The same request, when the lookup of the file throws. *)
Definition lookup_fails : Pipeline.faults :=
  {| Pipeline.fail_mark_processing := false; Pipeline.fail_find := true;
     Pipeline.fail_save := false; Pipeline.fail_link := false;
     Pipeline.fail_mark_failed := false |}.

Definition analyze_lookup_fails : Pipeline.request :=
  Pipeline.AnalyzeFile (fun _ => None) lookup_fails 3000 0 7.


End Examples.

(** Orders in which the server takes its turns. Thread 0 is the handler
    of the first request. An upload takes two turns: the save of the
    file, and the start of the background run, which becomes the next
    thread. *)
Module Schedules.
Import Async.

(** The upload whose model answer the schema refuses, its background run
    to the end (which marks the file failed), then the manual analysis,
    to its end. *)
Definition failed_then_analysed : list event :=
  [ Arrive (Examples.upload Examples.overconfident); Turn 0; Turn 0;
    Turn 1; Turn 1; Turn 1; Turn 1; Turn 1;
    Arrive Examples.analyze; Turn 2; Turn 2; Turn 2; Turn 2 ].

(** An upload and a manual analysis that overlap, no call failing: the
    manual analysis looks the file up before the background run starts,
    and makes its update to [processing] when the background run has
    completed. *)
Definition overlapping : list event :=
  [ Arrive (Examples.upload Examples.labelled_result); Turn 0;
    Arrive Examples.analyze; Turn 1;
    Turn 0; Turn 2; Turn 2; Turn 2; Turn 2; Turn 2;
    Turn 1 ].

(** The same, with the manual analysis to its end. *)
Definition overlapped : list event := overlapping ++ [ Turn 1; Turn 1 ].

(** An upload with its background run to the end. *)
Definition analysed : list event :=
  [ Arrive (Examples.upload Examples.labelled_result); Turn 0; Turn 0;
    Turn 1; Turn 1; Turn 1; Turn 1; Turn 1 ].

(** The same, then a manual analysis whose lookup throws. *)
Definition lookup_thrown : list event :=
  analysed ++ [ Arrive Examples.analyze_lookup_fails; Turn 2; Turn 2 ].

End Schedules.

Module Ranges.

(** A reading is present and above, or below, a bound. *)
Definition above (x : option Q) (c : Q) : Prop := exists q, x = Some q /\ (c < q)%Q.
Definition below (x : option Q) (c : Q) : Prop := exists q, x = Some q /\ (q < c)%Q.

(** A reading is absent or on the right side of a bound. *)
Definition at_most (x : option Q) (c : Q) : Prop :=
  forall q, x = Some q -> (q <= c)%Q.
Definition at_least (x : option Q) (c : Q) : Prop :=
  forall q, x = Some q -> (c <= q)%Q.
Definition within (lo : Q) (x : option Q) (hi : Q) : Prop :=
  at_least x lo /\ at_most x hi.

(** The field [value] of a reading that may be absent. *)
Definition reading_of (r : option Vitals.reading) : option Q :=
  match r with
  | Some r => Vitals.value r
  | None => None
  end.

End Ranges.

(** The text holds an opening brace with a closing brace after it. *)
Definition has_block (text : jstring) : Prop :=
  exists a b c, text = a ++ 123 :: b ++ 125 :: c.

(* ===================================================================== *)
(** * parseGeminiResponse                                                 *)
(* ===================================================================== *)

Section Normalizer.
Import Schema Gemini.



Lemma valid_fallbackResponse : valid_payload fallbackResponse = true.
Proof. vm_compute; reflexivity. Qed.

Lemma parseGeminiResponse_cases text :
  match match_json_block text with
  | None => parseGeminiResponse text = Normal (noJsonResponse text)
  | Some block =>
      match JSON.parse block with
      | Normal v => parseGeminiResponse text = Normal v
      | Throw _ => parseGeminiResponse text = Normal parseErrorResponse
      end
  end.
Proof.
  unfold parseGeminiResponse.
  destruct (match_json_block text) as [block|]; [|reflexivity].
  destruct (JSON.parse block); reflexivity.
Qed.

Lemma parseGeminiResponse_normal text :
  exists v, parseGeminiResponse text = Normal v.
Proof.
  pose proof (parseGeminiResponse_cases text) as H.
  destruct (match_json_block text) as [block|]; [|eauto].
  destruct (JSON.parse block); eauto.
Qed.



End Normalizer.

Section Blocks.
Import Gemini.

Lemma upto_last_rbrace_None s : upto_last_rbrace s = None <-> ~ In 125 s.
Proof.
  induction s as [|c s IH]; simpl.
  - split; [intros _ []|reflexivity].
  - destruct (upto_last_rbrace s) as [r|].
    + split; [discriminate|]. intros H. exfalso. apply H. right.
      destruct (in_dec N.eq_dec 125 s) as [Hin|Hn]; [exact Hin|].
      apply IH in Hn. discriminate.
    + destruct (N.eqb_spec c 125) as [->|Hc].
      * split; [discriminate|]. intros H. exfalso. apply H. left. reflexivity.
      * split; [|reflexivity]. intros _ [Heq|Hin]; [congruence|].
        destruct IH as [IH _]. exact (IH eq_refl Hin).
Qed.

Lemma from_first_lbrace_In a r :
  In 125 r -> In 125 (from_first_lbrace (a ++ 123 :: r)).
Proof.
  intros Hr. induction a as [|c a IH]; simpl.
  - right. exact Hr.
  - destruct (c =? 123).
    + right. apply in_or_app. right. right. exact Hr.
    + exact IH.
Qed.

Lemma from_first_lbrace_split s :
  from_first_lbrace s = [] \/
  exists a r, s = a ++ 123 :: r /\ from_first_lbrace s = 123 :: r.
Proof.
  induction s as [|c s IH]; simpl.
  - left. reflexivity.
  - destruct (N.eqb_spec c 123) as [->|Hc].
    + right. exists [], s. split; reflexivity.
    + destruct IH as [IH|(a & r & Hs & Hf)].
      * left. exact IH.
      * right. exists (c :: a), r. split; [simpl; congruence|exact Hf].
Qed.

(** The regular expression finds nothing exactly when no opening brace
    has a closing brace after it. *)
Lemma match_json_block_None text :
  match_json_block text = None <-> ~ has_block text.
Proof.
  unfold match_json_block. rewrite upto_last_rbrace_None. split.
  - intros H (a & b & c & ->). apply H. apply from_first_lbrace_In.
    apply in_or_app. right. left. reflexivity.
  - intros H Hin. apply H.
    destruct (from_first_lbrace_split text) as [He|(a & r & Hs & Hf)].
    + rewrite He in Hin. destruct Hin.
    + rewrite Hf in Hin. destruct Hin as [Heq|Hin]; [discriminate|].
      apply in_split in Hin as (b & c & ->). exists a, b, c. exact Hs.
Qed.

(** C7: the labelled response. The block that is found is everything from
    the first brace on, and the result is the object it spells, with
    confidence 90. *)
Theorem C7_labelled_result :
  match_json_block Examples.labelled_result
    = Some (drop 8 Examples.labelled_result)
  /\ exists v,
       parseGeminiResponse Examples.labelled_result = Normal v
       /\ JSON.parse (drop 8 Examples.labelled_result) = Normal v
       /\ get v (u "confidence") = Some (JNumber 90)
       /\ get_opt (get v (u "summary")) (u "english") = Some (JString (u "ok"))
       /\ get v (u "followUpRequired") = Some (JBool false).
Proof.
  split; [vm_compute; reflexivity|].
  eexists. split; [vm_compute; reflexivity|].
  split; [vm_compute; reflexivity|].
  vm_compute. repeat split.
Qed.

(** C8: without a block the result is the record built from the text
    itself, with confidence 60, no findings and no risk factors, the
    generic recommendation, and the first 500 code units of the text
    followed by three dots as English summary. With a block that
    [JSON.parse] refuses the result is the fixed record with confidence
    30. *)
Theorem C8_degraded_records (text : jstring) :
  (match_json_block text = None <-> ~ has_block text)
  /\ (~ has_block text ->
      parseGeminiResponse text = Normal (noJsonResponse text)
      /\ get (noJsonResponse text) (u "confidence") = Some (JNumber 60)
      /\ get (noJsonResponse text) (u "keyFindings") = Some (JArray [])
      /\ get (noJsonResponse text) (u "riskFactors") = Some (JArray [])
      /\ get (noJsonResponse text) (u "recommendations")
         = Some (bilingual
                   (strings [u "Consult with your doctor for detailed analysis"])
                   (strings [u "Apne doctor se detailed analysis ke liye consult karein"]))
      /\ get_opt (get (noJsonResponse text) (u "summary")) (u "english")
         = Some (JString (take 500 text ++ u "...")))
  /\ (forall block e,
        match_json_block text = Some block -> JSON.parse block = Throw e ->
        parseGeminiResponse text = Normal parseErrorResponse
        /\ get parseErrorResponse (u "confidence") = Some (JNumber 30)
        /\ get parseErrorResponse (u "keyFindings") = Some (JArray [])
        /\ get parseErrorResponse (u "riskFactors") = Some (JArray [])).
Proof.
  split; [apply match_json_block_None|]. split.
  - intros H. apply match_json_block_None in H.
    pose proof (parseGeminiResponse_cases text) as Hc. rewrite H in Hc.
    split; [exact Hc|]. unfold noJsonResponse. vm_compute. repeat split.
  - intros block e Hb Hp.
    pose proof (parseGeminiResponse_cases text) as Hc. rewrite Hb, Hp in Hc.
    split; [exact Hc|]. vm_compute. repeat split.
Qed.

(** C8 at the text of the claim, and at a text whose block is not JSON. *)
Lemma C8_examples :
  (parseGeminiResponse Examples.unexpected
     = Normal (noJsonResponse Examples.unexpected)
   /\ get_opt (get (noJsonResponse Examples.unexpected) (u "summary")) (u "english")
      = Some (JString (u "the model said something unexpected...")))
  /\ (match_json_block Examples.broken_block = Some (u "{oops}")
      /\ parseGeminiResponse Examples.broken_block = Normal parseErrorResponse).
Proof.
  assert (Hno : ~ has_block Examples.unexpected).
  { apply match_json_block_None. vm_compute. reflexivity. }
  destruct (C8_degraded_records Examples.unexpected) as (_ & H1 & _).
  destruct (C8_degraded_records Examples.broken_block) as (_ & _ & H2).
  split.
  - destruct (H1 Hno) as (Hp & _ & _ & _ & _ & Hs).
    split; [exact Hp|]. rewrite Hs. vm_compute. reflexivity.
  - split; [vm_compute; reflexivity|].
    apply (H2 (u "{oops}") SyntaxError); vm_compute; reflexivity.
Defined.

End Blocks.

(* ===================================================================== *)
(** * analyzeMedicalReport                                                *)
(* ===================================================================== *)

Section Invoker.
Import Schema Gemini.

Lemma respond_cases endTime startTime response :
  match response with
  | Normal text =>
      exists d, parseGeminiResponse text = Normal d /\
        respond endTime startTime response
          = Normal {| success := true; data := d;
                      processingTime := endTime - startTime; fallback := false |}
  | Throw e => respond endTime startTime response = Throw e
  end.
Proof.
  destruct response as [text|e]; [|reflexivity].
  destruct (parseGeminiResponse_normal text) as (d & Hd).
  exists d. split; [exact Hd|]. unfold respond. rewrite Hd. reflexivity.
Qed.

Lemma analyzeMedicalReport_catch gemini startTime endTime fileData fileType
    reportType e :
  analyze_body gemini startTime endTime fileData fileType reportType = Throw e ->
  analyzeMedicalReport gemini startTime endTime fileData fileType reportType
    = Normal {| success := true; data := fallbackResponse;
                processingTime := endTime - startTime; fallback := true |}.
Proof. intros H. unfold analyzeMedicalReport. rewrite H. reflexivity. Qed.

Lemma analyzeMedicalReport_normal gemini startTime endTime fileData fileType
    reportType :
  exists r,
    analyzeMedicalReport gemini startTime endTime fileData fileType reportType
      = Normal r
    /\ success r = true /\ processingTime r = (endTime - startTime)%Z.
Proof.
  unfold analyzeMedicalReport.
  destruct (analyze_body gemini startTime endTime fileData fileType reportType)
    as [r|e] eqn:Hb; simpl; [|eauto].
  exists r. split; [reflexivity|].
  unfold analyze_body in Hb.
  assert (Hr : forall resp, respond endTime startTime resp = Normal r ->
                success r = true /\ processingTime r = (endTime - startTime)%Z).
  { intros resp H. pose proof (respond_cases endTime startTime resp) as Hc.
    destruct resp as [text|e']; [|congruence].
    destruct Hc as (d & _ & Hd). rewrite Hd in H. injection H as <-. split; reflexivity. }
  destruct (str_eqb fileType (u "image")).
  - destruct fileData as [bytes|s]; [|discriminate].
    destruct (respond endTime startTime
                (gemini (WithImage fileType reportType bytes (detectMime bytes))))
      as [r'|e'] eqn:Hresp; simpl in Hb; [|discriminate].
    injection Hb as <-. exact (Hr _ Hresp).
  - exact (Hr _ Hb).
Qed.

(** C2: [analyzeMedicalReport] returns a result with [success] set for
    every model, clock, [fileData], [fileType] and [reportType]. Whenever
    its [try] block throws, and so when image data is not a Buffer or
    when the call of the model throws, the result is the fallback: marked
    [fallback], with a payload that satisfies the output schema, has
    confidence 30, no findings, no risk factors, a follow-up required
    within one month, and one recommendation in each language. *)
Theorem C2_invoker_never_throws (gemini : model) (startTime endTime : Z)
    (fileData : file_data) (fileType reportType : jstring) :
  (exists r,
     analyzeMedicalReport gemini startTime endTime fileData fileType reportType
       = Normal r
     /\ success r = true)
  /\ (forall e,
        analyze_body gemini startTime endTime fileData fileType reportType = Throw e ->
        analyzeMedicalReport gemini startTime endTime fileData fileType reportType
          = Normal {| success := true; data := fallbackResponse;
                      processingTime := endTime - startTime; fallback := true |})
  /\ (forall s, fileType = u "image" -> fileData = Text s ->
        exists e,
          analyze_body gemini startTime endTime fileData fileType reportType = Throw e)
  /\ (forall bytes e, fileType = u "image" -> fileData = Buffer bytes ->
        gemini (WithImage fileType reportType bytes (detectMime bytes)) = Throw e ->
        exists e',
          analyze_body gemini startTime endTime fileData fileType reportType = Throw e')
  /\ (forall e, fileType <> u "image" ->
        gemini (PromptOnly fileType reportType fileData) = Throw e ->
        exists e',
          analyze_body gemini startTime endTime fileData fileType reportType = Throw e')
  /\ valid_payload fallbackResponse = true
  /\ get fallbackResponse (u "confidence") = Some (JNumber 30)
  /\ get fallbackResponse (u "keyFindings") = Some (JArray [])
  /\ get fallbackResponse (u "riskFactors") = Some (JArray [])
  /\ get fallbackResponse (u "followUpRequired") = Some (JBool true)
  /\ get fallbackResponse (u "followUpTimeframe") = Some (JString (u "1-month"))
  /\ get fallbackResponse (u "recommendations")
     = Some (bilingual
               (strings [u "Consult with your healthcare provider for detailed analysis"])
               (strings [u "Detailed analysis ke liye apne doctor se consult karein"])).
Proof.
  split.
  { destruct (analyzeMedicalReport_normal gemini startTime endTime fileData
                fileType reportType) as (r & Hr & Hs & _).
    exists r. split; assumption. }
  split; [intros e; apply analyzeMedicalReport_catch|].
  split.
  { intros s -> ->. eexists. reflexivity. }
  split.
  { intros bytes e -> -> Hg. unfold analyze_body.
    replace (str_eqb (u "image") (u "image")) with true by (vm_compute; reflexivity).
    rewrite Hg. simpl. eexists. reflexivity. }
  split.
  { intros e Hne Hg. unfold analyze_body.
    unfold str_eqb. rewrite bool_decide_eq_false_2 by exact Hne.
    rewrite Hg. simpl. eexists. reflexivity. }
  split; [exact valid_fallbackResponse|].
  vm_compute. repeat split.
Qed.

End Invoker.

(* ===================================================================== *)
(** * checkNormalRanges                                                   *)
(* ===================================================================== *)

Section RangeEvaluator.
Import Vitals Ranges.
Local Open Scope string_scope.

Lemma gt_above x c : gt x c = true <-> above x c.
Proof.
  unfold gt, above. destruct x as [q|].
  - rewrite negb_true_iff. split.
    + intros H. exists q. split; [reflexivity|].
      apply Qnot_le_lt. intros Hle. apply Qle_bool_iff in Hle. congruence.
    + intros (q' & [= <-] & Hlt).
      destruct (Qle_bool q c) eqn:E; [|reflexivity].
      apply Qle_bool_iff in E. exfalso. exact (Qlt_not_le _ _ Hlt E).
  - split; [discriminate|]. intros (q & Hq & _). discriminate.
Qed.

Lemma lt_below x c : lt x c = true <-> below x c.
Proof.
  unfold lt, below. destruct x as [q|].
  - rewrite negb_true_iff. split.
    + intros H. exists q. split; [reflexivity|].
      apply Qnot_le_lt. intros Hle. apply Qle_bool_iff in Hle. congruence.
    + intros (q' & [= <-] & Hlt).
      destruct (Qle_bool c q) eqn:E; [|reflexivity].
      apply Qle_bool_iff in E. exfalso. exact (Qlt_not_le _ _ Hlt E).
  - split; [discriminate|]. intros (q & Hq & _). discriminate.
Qed.

Lemma gt_at_most x c : at_most x c -> gt x c = false.
Proof.
  intros H. destruct (gt x c) eqn:E; [|reflexivity].
  apply gt_above in E as (q & Hq & Hlt).
  exfalso. exact (Qlt_not_le _ _ Hlt (H q Hq)).
Qed.

Lemma lt_at_least x c : at_least x c -> lt x c = false.
Proof.
  intros H. destruct (lt x c) eqn:E; [|reflexivity].
  apply lt_below in E as (q & Hq & Hlt).
  exfalso. exact (Qlt_not_le _ _ Hlt (H q Hq)).
Qed.

Lemma In_alert_if s c t : In s (alert_if c t) <-> c = true /\ t = s.
Proof.
  unfold alert_if. destruct c; simpl; intuition discriminate.
Qed.

Lemma In_group {A} s (o : option A) (f : A -> list string) :
  In s (match o with Some x => f x | None => [] end) <->
  exists x, o = Some x /\ In s (f x).
Proof.
  destruct o as [x|]; split.
  - intros H. exists x. split; [reflexivity|exact H].
  - intros (x' & [= <-] & H). exact H.
  - intros [].
  - intros (x' & [=] & _).
Qed.

Lemma or_iff2 (A A' B B' : Prop) :
  (A <-> A') -> (B <-> B') -> (A \/ B <-> A' \/ B').
Proof. tauto. Qed.

(** Which alerts are in the list, test by test. *)
Lemma In_checkNormalRanges s v :
  In s (checkNormalRanges v) <->
  (exists bp, bloodPressure v = Some bp /\
     (gt (systolic bp) 140 || gt (diastolic bp) 90 = true
      /\ "High blood pressure detected" = s
      \/ lt (systolic bp) 90 || lt (diastolic bp) 60 = true
         /\ "Low blood pressure detected" = s))
  \/ (exists bs, bloodSugar v = Some bs /\
        (gt (fasting bs) 126 = true /\ "High fasting blood sugar" = s
         \/ gt (postPrandial bs) 200 = true /\ "High post-meal blood sugar" = s))
  \/ (gt (reading_of (heartRate v)) 100 || lt (reading_of (heartRate v)) 60 = true
      /\ "Abnormal heart rate" = s)
  \/ (gt (reading_of (temperature v)) (1004 # 10)
      || lt (reading_of (temperature v)) 97 = true
      /\ "Abnormal body temperature" = s)
  \/ (lt (reading_of (oxygenSaturation v)) 95 = true
      /\ "Low oxygen saturation" = s).
Proof.
  unfold checkNormalRanges. rewrite !in_app_iff, !In_group.
  apply or_iff2.
  - split; intros (bp & Hbp & H); exists bp; (split; [exact Hbp|]);
      rewrite in_app_iff, !In_alert_if in *; exact H.
  - apply or_iff2.
    + split; intros (bs & Hbs & H); exists bs; (split; [exact Hbs|]);
        rewrite in_app_iff, !In_alert_if in *; exact H.
    + assert (Hone : forall (o : option reading) (c : option Q -> bool) t,
                c None = false ->
                ((exists x, o = Some x /\ In s (alert_if (c (value x)) t))
                 <-> c (reading_of o) = true /\ t = s)).
      { intros o c t Hc. destruct o as [x|]; simpl; split.
        - intros (x' & [= <-] & H). apply In_alert_if in H. exact H.
        - intros H. exists x. split; [reflexivity|]. apply In_alert_if. exact H.
        - intros (x' & [=] & _).
        - intros [H _]. congruence. }
      apply or_iff2;
        [exact (Hone (heartRate v) (fun x => gt x 100 || lt x 60) _ eq_refl)|].
      apply or_iff2;
        [exact (Hone (temperature v)
                  (fun x => gt x (1004 # 10) || lt x 97) _ eq_refl)|].
      exact (Hone (oxygenSaturation v) (fun x => lt x 95) _ eq_refl).
Qed.

Ltac alerts v :=
  rewrite In_checkNormalRanges;
  (split;
   [ intros [(bp & Hbp & [[H E]|[H E]])
            |[(bs & Hbs & [[H E]|[H E]])
             |[[H E]|[[H E]|[H E]]]]]; try discriminate E; eauto
   | intros H; try destruct H as (x & Hx & H); eauto 8 ]).

Lemma alerts_high_bp v :
  In "High blood pressure detected" (checkNormalRanges v) <->
  exists bp, bloodPressure v = Some bp /\
    gt (systolic bp) 140 || gt (diastolic bp) 90 = true.
Proof. alerts v. Qed.

Lemma alerts_low_bp v :
  In "Low blood pressure detected" (checkNormalRanges v) <->
  exists bp, bloodPressure v = Some bp /\
    lt (systolic bp) 90 || lt (diastolic bp) 60 = true.
Proof. alerts v. Qed.

Lemma alerts_fasting v :
  In "High fasting blood sugar" (checkNormalRanges v) <->
  exists bs, bloodSugar v = Some bs /\ gt (fasting bs) 126 = true.
Proof. alerts v. Qed.

Lemma alerts_post_meal v :
  In "High post-meal blood sugar" (checkNormalRanges v) <->
  exists bs, bloodSugar v = Some bs /\ gt (postPrandial bs) 200 = true.
Proof. alerts v. Qed.

Lemma alerts_heart_rate v :
  In "Abnormal heart rate" (checkNormalRanges v) <->
  gt (reading_of (heartRate v)) 100 || lt (reading_of (heartRate v)) 60 = true.
Proof. alerts v. Qed.

Lemma alerts_temperature v :
  In "Abnormal body temperature" (checkNormalRanges v) <->
  gt (reading_of (temperature v)) (1004 # 10)
  || lt (reading_of (temperature v)) 97 = true.
Proof. alerts v. Qed.

Lemma alerts_oxygen v :
  In "Low oxygen saturation" (checkNormalRanges v) <->
  lt (reading_of (oxygenSaturation v)) 95 = true.
Proof. alerts v. Qed.

(** C10: [checkNormalRanges] is a function of the snapshot alone. The
    alert for high blood pressure is in the list exactly when blood
    pressure is present with a systolic reading above 140 or a diastolic
    reading above 90; fasting sugar above 126, a heart rate above 100 or
    below 60, a temperature above 100.4 or below 97 and an oxygen
    saturation below 95 govern their alerts the same way. A snapshot
    without any field gives the empty list, and so does one whose
    readings are all within the ranges, where the ranges are those of all
    seven tests of the function: it also reports a systolic reading below
    90, a diastolic reading below 60 and a post-meal sugar above 200. *)
Theorem C10_checkNormalRanges (v : vitals) :
  (In "High blood pressure detected" (checkNormalRanges v) <->
     exists bp, bloodPressure v = Some bp /\
       (above (systolic bp) 140 \/ above (diastolic bp) 90))
  /\ (In "High fasting blood sugar" (checkNormalRanges v) <->
       exists bs, bloodSugar v = Some bs /\ above (fasting bs) 126)
  /\ (In "Abnormal heart rate" (checkNormalRanges v) <->
       above (reading_of (heartRate v)) 100 \/ below (reading_of (heartRate v)) 60)
  /\ (In "Abnormal body temperature" (checkNormalRanges v) <->
       above (reading_of (temperature v)) (1004 # 10)
       \/ below (reading_of (temperature v)) 97)
  /\ (In "Low oxygen saturation" (checkNormalRanges v) <->
       below (reading_of (oxygenSaturation v)) 95)
  /\ (bloodPressure v = None -> bloodSugar v = None -> heartRate v = None ->
      temperature v = None -> oxygenSaturation v = None ->
      checkNormalRanges v = [])
  /\ ((forall bp, bloodPressure v = Some bp ->
         within 90 (systolic bp) 140 /\ within 60 (diastolic bp) 90) ->
      (forall bs, bloodSugar v = Some bs ->
         at_most (fasting bs) 126 /\ at_most (postPrandial bs) 200) ->
      within 60 (reading_of (heartRate v)) 100 ->
      within 97 (reading_of (temperature v)) (1004 # 10) ->
      at_least (reading_of (oxygenSaturation v)) 95 ->
      checkNormalRanges v = []).
Proof.
  split.
  { rewrite alerts_high_bp. split; intros (bp & Hbp & H); exists bp; (split; [exact Hbp|]).
    - apply orb_true_iff in H. rewrite <- !gt_above. exact H.
    - apply orb_true_iff. rewrite !gt_above. exact H. }
  split.
  { rewrite alerts_fasting. split; intros (bs & Hbs & H); exists bs; (split; [exact Hbs|]);
      apply gt_above; exact H. }
  split.
  { rewrite alerts_heart_rate, orb_true_iff, gt_above, lt_below. reflexivity. }
  split.
  { rewrite alerts_temperature, orb_true_iff, gt_above, lt_below. reflexivity. }
  split.
  { rewrite alerts_oxygen, lt_below. reflexivity. }
  split.
  { intros H1 H2 H3 H4 H5. unfold checkNormalRanges.
    rewrite H1, H2, H3, H4, H5. reflexivity. }
  intros Hbp Hbs [Hh1 Hh2] [Ht1 Ht2] Ho.
  destruct v as [bp bs hr t o]; unfold checkNormalRanges; simpl in *.
  destruct bp as [bp|];
    [ destruct (Hbp bp eq_refl) as [[Hs1 Hs2] [Hd1 Hd2]];
      rewrite (gt_at_most _ _ Hs2), (gt_at_most _ _ Hd2),
        (lt_at_least _ _ Hs1), (lt_at_least _ _ Hd1) | ];
    (destruct bs as [bs|];
     [ destruct (Hbs bs eq_refl) as [Hf Hp];
       rewrite (gt_at_most _ _ Hf), (gt_at_most _ _ Hp) | ]);
    destruct hr as [hr|]; destruct t as [t|]; destruct o as [o|]; simpl in *;
    rewrite ?(gt_at_most _ _ Hh2), ?(lt_at_least _ _ Hh1),
      ?(gt_at_most _ _ Ht2), ?(lt_at_least _ _ Ht1), ?(lt_at_least _ _ Ho);
    reflexivity.
Qed.

(** C10 at three snapshots: systolic 150 over diastolic 80, no field at
    all, and readings that are all within the ranges. *)
Lemma C10_snapshots :
  In "High blood pressure detected"
    (checkNormalRanges
       {| bloodPressure := Some {| systolic := Some 150%Q; diastolic := Some 80%Q |};
          bloodSugar := None; heartRate := None; temperature := None;
          oxygenSaturation := None |})
  /\ checkNormalRanges
       {| bloodPressure := None; bloodSugar := None; heartRate := None;
          temperature := None; oxygenSaturation := None |} = []
  /\ checkNormalRanges
       {| bloodPressure := Some {| systolic := Some 120%Q; diastolic := Some 80%Q |};
          bloodSugar := Some {| fasting := Some 95%Q; postPrandial := None;
                                random := None |};
          heartRate := Some {| value := Some 72%Q |};
          temperature := Some {| value := Some (986 # 10) |};
          oxygenSaturation := Some {| value := Some 98%Q |} |} = [].
Proof.
  split; [|split].
  - apply (proj1 (C10_checkNormalRanges _)). eexists. split; [reflexivity|].
    left. unfold above. simpl. eexists. split; [reflexivity|]. reflexivity.
  - destruct (C10_checkNormalRanges
                {| bloodPressure := None; bloodSugar := None; heartRate := None;
                   temperature := None; oxygenSaturation := None |})
      as (_ & _ & _ & _ & _ & H & _).
    apply H; reflexivity.
  - match goal with
    | |- checkNormalRanges ?v = [] =>
        destruct (C10_checkNormalRanges v) as (_ & _ & _ & _ & _ & _ & H)
    end.
    apply H; simpl.
    + intros bp [= <-]; simpl. repeat split; intros q [= <-]; discriminate.
    + intros bs [= <-]; simpl. split; intros q; [intros [= <-]|]; discriminate.
    + split; intros q [= <-]; discriminate.
    + split; intros q [= <-]; discriminate.
    + intros q [= <-]; discriminate.
Defined.

End RangeEvaluator.

(* ===================================================================== *)
(** * JSON.stringify followed by JSON.parse                               *)
(* ===================================================================== *)

Section RoundTrip.
Import JSON Gemini.

(** The lexer on a prefix of its input: the mode and the tokens it has
    when the prefix is read. *)
Fixpoint lex_run (m : lmode) (acc : list token) (s : jstring)
  : option (lmode * list token) :=
  match s with
  | [] => Some (m, acc)
  | c :: s' =>
      match lex_step m c with
      | Some (ts, m') => lex_run m' (rev ts ++ acc) s'
      | None => None
      end
  end.

Lemma lex_go_app m acc s1 s2 :
  lex_go m acc (s1 ++ s2) =
  match lex_run m acc s1 with
  | Some (m', acc') => lex_go m' acc' s2
  | None => None
  end.
Proof.
  revert m acc. induction s1 as [|c s1 IH]; intros m acc; simpl; [reflexivity|].
  destruct (lex_step m c) as [[ts m']|]; [apply IH|reflexivity].
Qed.

Lemma lex_run_app m acc s1 s2 :
  lex_run m acc (s1 ++ s2) =
  match lex_run m acc s1 with
  | Some (m', acc') => lex_run m' acc' s2
  | None => None
  end.
Proof.
  revert m acc. induction s1 as [|c s1 IH]; intros m acc; simpl; [reflexivity|].
  destruct (lex_step m c) as [[ts m']|]; [apply IH|reflexivity].
Qed.

Lemma hex_digit_char d : d < 16 -> hex_digit (hex_char d) = Some d.
Proof.
  intros H. destruct d as [|p]; [reflexivity|].
  do 4 (destruct p as [p|p|]; try reflexivity; try lia).
Qed.

Lemma hex4 c :
  c < 65536 ->
  16 * (16 * (16 * (16 * 0 + c / 4096 mod 16) + c / 256 mod 16) + c / 16 mod 16)
  + c mod 16 = c.
Proof.
  intros H.
  pose proof (N.div_mod c 16 ltac:(lia)).
  pose proof (N.div_mod (c / 16) 16 ltac:(lia)).
  pose proof (N.div_mod (c / 16 / 16) 16 ltac:(lia)).
  pose proof (N.div_mod (c / 16 / 16 / 16) 16 ltac:(lia)).
  pose proof (N.mod_upper_bound c 16 ltac:(lia)).
  pose proof (N.mod_upper_bound (c / 16) 16 ltac:(lia)).
  pose proof (N.mod_upper_bound (c / 16 / 16) 16 ltac:(lia)).
  pose proof (N.mod_upper_bound (c / 16 / 16 / 16) 16 ltac:(lia)).
  replace (c / 4096) with (c / 16 / 16 / 16)
    by (rewrite !N.Div0.div_div; reflexivity).
  replace (c / 256) with (c / 16 / 16) by (rewrite !N.Div0.div_div; reflexivity).
  assert (c / 16 / 16 / 16 / 16 = 0).
  { rewrite !N.Div0.div_div. apply N.div_small. simpl. exact H. }
  pose proof (N.div_mod (c / 16 / 16 / 16) 16 ltac:(lia)).
  lia.
Qed.

Lemma lex_step_uni acc k code x :
  lex_step (LUni acc (S k) code) (hex_char (x mod 16)) =
  Some ([], match k with
            | O => LStr ((16 * code + x mod 16) :: acc)
            | S _ => LUni acc k (16 * code + x mod 16)
            end).
Proof.
  simpl. rewrite hex_digit_char by (apply N.mod_upper_bound; lia).
  destruct k; reflexivity.
Qed.

Lemma lex_run_unicode_escape acc toks c :
  c < 65536 ->
  lex_run (LStr acc) toks (unicode_escape c) = Some (LStr (c :: acc), toks).
Proof.
  intros H. unfold unicode_escape.
  cbn [lex_run].
  change (lex_step (LStr acc) 92) with (Some (@nil token, LEsc acc)). cbv iota beta.
  change (lex_step (LEsc acc) 117) with (Some (@nil token, LUni acc 4 0)).
  cbv iota beta.
  do 4 (rewrite lex_step_uni; cbv iota beta).
  cbn [rev app]. rewrite hex4 by exact H. reflexivity.
Qed.

Lemma lex_step_literal acc c :
  c <> 34 -> c <> 92 -> 32 <= c ->
  lex_step (LStr acc) c = Some ([], LStr (c :: acc)).
Proof.
  intros H1 H2 H3. simpl.
  destruct (N.eqb_spec c 34); [contradiction|].
  destruct (N.eqb_spec c 92); [contradiction|].
  destruct (N.ltb_spec c 32); [lia|reflexivity].
Qed.

(** The lexer reads the body of a quoted string back as the string. *)
Lemma lex_run_quote_go s : forall b acc toks,
  lex_run (LStr acc) toks (quote_go b s) = Some (LStr (rev s ++ acc), toks).
Proof.
  induction s as [|c rest IH]; intros b acc toks; [reflexivity|].
  assert (Hend : forall b', lex_run (LStr (c :: acc)) toks (quote_go b' rest)
                      = Some (LStr (rev (c :: rest) ++ acc), toks)).
  { intros b'. rewrite IH. simpl. rewrite <- app_assoc. reflexivity. }
  assert (Hlit : forall b', c <> 34 -> c <> 92 -> 32 <= c ->
                 lex_run (LStr acc) toks (c :: quote_go b' rest)
                 = Some (LStr (rev (c :: rest) ++ acc), toks)).
  { intros b' H1 H2 H3. cbn [lex_run]. rewrite lex_step_literal by assumption.
    apply Hend. }
  assert (Huni : c < 65536 ->
                 lex_run (LStr acc) toks (unicode_escape c ++ quote_go false rest)
                 = Some (LStr (rev (c :: rest) ++ acc), toks)).
  { intros H. rewrite lex_run_app, lex_run_unicode_escape by exact H. apply Hend. }
  cbn [quote_go].
  destruct (N.eqb_spec c 8) as [->|H8]; [apply Hend|].
  destruct (N.eqb_spec c 9) as [->|H9]; [apply Hend|].
  destruct (N.eqb_spec c 10) as [->|H10]; [apply Hend|].
  destruct (N.eqb_spec c 12) as [->|H12]; [apply Hend|].
  destruct (N.eqb_spec c 13) as [->|H13]; [apply Hend|].
  destruct (N.eqb_spec c 34) as [->|H34]; [apply Hend|].
  destruct (N.eqb_spec c 92) as [->|H92]; [apply Hend|].
  destruct (N.ltb_spec c 32) as [H32|H32]; [apply Huni; lia|].
  destruct (is_high c) eqn:Hh.
  { destruct (next_is_low rest); [apply Hlit; assumption|].
    apply Huni. apply andb_true_iff in Hh as [_ Hh]. apply N.leb_le in Hh. lia. }
  destruct (is_low c) eqn:Hl; [|apply Hlit; assumption].
  destruct b; [apply Hlit; assumption|].
  apply Huni. apply andb_true_iff in Hl as [_ Hl]. apply N.leb_le in Hl. lia.
Qed.

Lemma lex_go_quoted acc toks b s rest :
  lex_go (LStr acc) toks (quote_go b s ++ 34 :: rest)
  = lex_go LStart (TString (rev acc ++ s) :: toks) rest.
Proof.
  rewrite lex_go_app, lex_run_quote_go. cbn [lex_go lex_step].
  change (34 =? 34) with true. cbv iota. cbn [rev app].
  rewrite rev_app_distr, rev_involutive. reflexivity.
Qed.

Lemma upto_last_rbrace_app a b :
  upto_last_rbrace b = Some b -> upto_last_rbrace (a ++ b) = Some (a ++ b).
Proof.
  intros H. induction a as [|c a IH]; simpl; [exact H|]. rewrite IH. reflexivity.
Qed.

(** A text that is one block, from its first to its last character. *)
Lemma match_json_block_whole a b :
  upto_last_rbrace b = Some b ->
  match_json_block (123 :: a ++ b) = Some (123 :: a ++ b).
Proof.
  intros H. unfold match_json_block. cbn [from_first_lbrace].
  change (123 =? 123) with true. cbv iota.
  apply (upto_last_rbrace_app (123 :: a) b H).
Qed.

(** The serialization of the record for a text without a block: the
    English summary, quoted, between two fixed texts. *)
Lemma stringify_noJsonResponse text :
  stringify (noJsonResponse text)
  = Some (json_text "{'summary':{'english':'"
          ++ quote_go false (take 500 text ++ u "...")
          ++ json_text "','urdu':'Report ka summary Roman Urdu mein translate karna hai'},'keyFindings':[],'recommendations':{'english':['Consult with your doctor for detailed analysis'],'urdu':['Apne doctor se detailed analysis ke liye consult karein']},'doctorQuestions':{'english':['What do these results mean for my health?'],'urdu':['Ye results mere health ke liye kya matlab hai?']},'riskFactors':[],'followUpRequired':true,'followUpTimeframe':'1-month','confidence':60}").
Proof.
  unfold noJsonResponse. set (Y := take 500 text ++ u "...").
  cbv -[app quote_go Y].
  set (G := quote_go false Y). clearbody G.
  cbv -[app].
  induction G as [|g G IH]; [reflexivity|].
  cbn [app] in IH |- *. injection IH as IH. rewrite IH. reflexivity.
Qed.

Lemma parse_stringify_noJsonResponse text :
  exists s, stringify (noJsonResponse text) = Some s
            /\ parseGeminiResponse s = Normal (noJsonResponse text).
Proof.
  eexists. split; [apply stringify_noJsonResponse|].
  unfold noJsonResponse.
  set (Y := take 500 text ++ u "..."). clearbody Y.
  match goal with
  | |- parseGeminiResponse (?p ++ ?g ++ ?s) = _ =>
      set (P := p); set (S := s)
  end.
  assert (HP : P = 123 :: tl P) by (vm_compute; reflexivity).
  assert (HS : S = 34 :: tl S) by (vm_compute; reflexivity).
  assert (Hm : match_json_block (P ++ quote_go false Y ++ S)
               = Some (P ++ quote_go false Y ++ S)).
  { rewrite HP. cbn [app]. rewrite app_assoc.
    apply match_json_block_whole. vm_compute. reflexivity. }
  unfold parseGeminiResponse. rewrite Hm.
  unfold JSON.parse, lex. rewrite lex_go_app.
  let r := eval vm_compute in (lex_run LStart [] P) in
  change (lex_run LStart [] P) with r.
  cbv iota beta. rewrite HS, lex_go_quoted. cbn [rev app].
  subst P S. vm_compute. reflexivity.
Qed.

(** C9: the records that [parseGeminiResponse] makes up are fixed points
    of serializing and normalizing again. For every text, the record for
    a text without a block, the record for a block that does not parse
    and the fallback of [analyzeMedicalReport] each have a serialization,
    and [parseGeminiResponse] of that serialization is the record itself.
    So whenever the result for a text is not the value of a parsed block,
    normalizing its serialization gives it back. *)
Theorem C9_renormalize (text : jstring) :
  (exists s, stringify (noJsonResponse text) = Some s
             /\ parseGeminiResponse s = Normal (noJsonResponse text))
  /\ (exists s, stringify parseErrorResponse = Some s
                /\ parseGeminiResponse s = Normal parseErrorResponse)
  /\ (exists s, stringify fallbackResponse = Some s
                /\ parseGeminiResponse s = Normal fallbackResponse)
  /\ (forall r,
        parseGeminiResponse text = Normal r ->
        (forall block v, match_json_block text = Some block ->
                         JSON.parse block <> Normal v) ->
        exists s, stringify r = Some s /\ parseGeminiResponse s = Normal r).
Proof.
  assert (H1 := parse_stringify_noJsonResponse text).
  assert (H2 : exists s, stringify parseErrorResponse = Some s
                         /\ parseGeminiResponse s = Normal parseErrorResponse).
  { eexists. split; vm_compute; reflexivity. }
  split; [exact H1|]. split; [exact H2|]. split.
  { eexists. split; vm_compute; reflexivity. }
  intros r Hr Hno.
  pose proof (parseGeminiResponse_cases text) as Hc.
  destruct (match_json_block text) as [block|] eqn:Hb.
  - destruct (JSON.parse block) as [v|e] eqn:Hp.
    + exfalso. exact (Hno block v eq_refl Hp).
    + rewrite Hc in Hr. injection Hr as <-. exact H2.
  - rewrite Hc in Hr. injection Hr as <-. exact H1.
Qed.

(** C9 at a text without a block and at a text whose block is not JSON. *)
Lemma C9_examples :
  (exists s, stringify (noJsonResponse Examples.unexpected) = Some s
             /\ parseGeminiResponse s = Normal (noJsonResponse Examples.unexpected))
  /\ parseGeminiResponse Examples.broken_block = Normal parseErrorResponse
  /\ (exists s, stringify parseErrorResponse = Some s
                /\ parseGeminiResponse s = Normal parseErrorResponse).
Proof.
  destruct (C9_renormalize Examples.unexpected) as (_ & _ & _ & H1).
  destruct (C9_renormalize Examples.broken_block) as (_ & _ & _ & H2).
  split; [|split].
  - apply H1; [vm_compute; reflexivity|].
    intros block v Hb. vm_compute in Hb. discriminate Hb.
  - vm_compute. reflexivity.
  - apply H2; [vm_compute; reflexivity|].
    intros block v Hb Hp. vm_compute in Hb. injection Hb as <-.
    vm_compute in Hp. discriminate Hp.
Defined.

End RoundTrip.

(* ===================================================================== *)
(** * The store: what a run of a handler preserves                        *)
(* ===================================================================== *)

Section Triples.
Import Store Pipeline.

(** [triple P m Qn Qe]: from a store that satisfies [P], the computation
    [m] returns [a] in a store that satisfies [Qn a], or throws in a store
    that satisfies [Qe]. *)
Definition triple {A} (P : db -> Prop) (m : St A)
    (Qn : A -> db -> Prop) (Qe : db -> Prop) : Prop :=
  forall d, P d ->
    match m d with
    | (Normal a, d') => Qn a d'
    | (Throw _, d') => Qe d'
    end.

Lemma triple_bind {A B} P (m : St A) (f : A -> St B) Qn Rn Qe :
  triple P m Qn Qe -> (forall a, triple (Qn a) (f a) Rn Qe) ->
  triple P (m ≫= f) Rn Qe.
Proof.
  intros Hm Hf d HP. specialize (Hm d HP).
  unfold mbind, St_bind. destruct (m d) as [[a|e] d']; [|exact Hm].
  exact (Hf a d' Hm).
Qed.

Lemma triple_catch {A} P (body : St A) handler Qn Qe Re :
  triple P body Qn Qe -> (forall e, triple Qe (handler e) Qn Re) ->
  triple P (try_catch_st body handler) Qn Re.
Proof.
  intros Hb Hh d HP. specialize (Hb d HP). unfold try_catch_st.
  destruct (body d) as [[a|e] d']; [exact Hb|]. exact (Hh e d' Hb).
Qed.

Lemma triple_ret {A} (P : db -> Prop) (a : A) (Qn : A -> db -> Prop) Qe :
  (forall d, P d -> Qn a d) -> triple P (mret a) Qn Qe.
Proof. intros H d HP. exact (H d HP). Qed.

Lemma triple_throw {A} (P : db -> Prop) e (Qn : A -> db -> Prop) (Qe : db -> Prop) :
  (forall d, P d -> Qe d) -> triple P (throw e) Qn Qe.
Proof. intros H d HP. exact (H d HP). Qed.

Lemma triple_lift {A} (P : db -> Prop) (c : completion A) :
  triple P (lift c) (fun _ => P) P.
Proof. intros d HP. unfold lift. destruct c; exact HP. Qed.

Lemma triple_detached {A} P (task : St A) (Q : db -> Prop) :
  triple P task (fun _ => Q) Q -> triple P (detached task) (fun _ => Q) Q.
Proof.
  intros H d HP. specialize (H d HP). unfold detached.
  destruct (task d) as [[a|e] d']; exact H.
Qed.

Lemma triple_weaken {A} (P P' : db -> Prop) (m : St A) (Qn Qn' : A -> db -> Prop)
    (Qe Qe' : db -> Prop) :
  triple P' m Qn' Qe' -> (forall d, P d -> P' d) ->
  (forall a d, Qn' a d -> Qn a d) -> (forall d, Qe' d -> Qe d) ->
  triple P m Qn Qe.
Proof.
  intros H HP HQn HQe d Hd. specialize (H d (HP d Hd)).
  destruct (m d) as [[a|e] d']; auto.
Qed.

Lemma trace_app i h1 h2 : trace i (h1 ++ h2) = trace i h1 ++ trace i h2.
Proof.
  induction h1 as [|[j s] h1 IH]; simpl; [reflexivity|].
  destruct (j =? i); simpl; rewrite IH; reflexivity.
Qed.

Lemma trace_In i s h : In s (trace i h) -> In (i, s) h.
Proof.
  induction h as [|[j s'] h IH]; simpl; [tauto|].
  destruct (N.eqb_spec j i) as [->|Hne]; simpl.
  - intros [->|H]; [left; reflexivity|right; exact (IH H)].
  - intros H. right. exact (IH H).
Qed.

Lemma trace_fresh i h n :
  (forall j s, In (j, s) h -> j < n) -> n <= i -> trace i h = [].
Proof.
  intros H Hi. destruct (trace i h) as [|s t] eqn:E; [reflexivity|].
  assert (Hin : In s (trace i h)) by (rewrite E; left; reflexivity).
  apply trace_In, H in Hin. lia.
Qed.

Lemma triple_findById fails i (P : db -> Prop) :
  triple P (File_findById fails i)
    (fun found d => P d /\ found = files d !! i) P.
Proof.
  intros d Hp. unfold File_findById. destruct fails; [exact Hp|].
  split; [exact Hp|reflexivity].
Qed.


Lemma triple_post {A} (P : db -> Prop) (m : St A) (Qn Qn' : A -> db -> Prop)
    (Qe Qe' : db -> Prop) :
  triple P m Qn' Qe' -> (forall a d, Qn' a d -> Qn a d) ->
  (forall d, Qe' d -> Qe d) -> triple P m Qn Qe.
Proof. intros H H1 H2. eapply triple_weaken; [exact H|auto|exact H1|exact H2]. Qed.




(** C6, as the code has it. The document built from a payload takes the
    default for every optional field the payload does not have: no
    findings, no risk factors, empty recommendations and questions in both
    languages, a follow-up time of one month and no follow-up required.
    The confidence is not clamped: a confidence that is a number other
    than zero goes into the document as it is, and one that is missing
    becomes 60. What keeps the range is the schema: a document is stored
    only if its confidence casts to a number between 0 and 100, and one
    whose confidence is a number outside that range is refused, which
    leaves the store as it was. *)
Theorem C6_insight_builder (cast : json -> option Q) (fileId userId : oid)
    (file : File) (fileData : Gemini.file_data) (r : Gemini.result) :
  let doc := buildInsight fileId userId file fileData r in
  (get (Gemini.data r) (u "keyFindings") = None -> keyFindings doc = JArray [])
  /\ (get (Gemini.data r) (u "riskFactors") = None -> riskFactors doc = JArray [])
  /\ (get (Gemini.data r) (u "recommendations") = None ->
      recommendations doc = Gemini.bilingual (JArray []) (JArray []))
  /\ (get (Gemini.data r) (u "doctorQuestions") = None ->
      doctorQuestions doc = Gemini.bilingual (JArray []) (JArray []))
  /\ (get (Gemini.data r) (u "followUpTimeframe") = None ->
      followUpTimeframe doc = JString (u "1-month"))
  /\ (get (Gemini.data r) (u "followUpRequired") = None ->
      followUpRequired doc = JBool false)
  /\ (get (Gemini.data r) (u "confidence") = None -> confidence doc = JNumber 60)
  /\ (forall q, get (Gemini.data r) (u "confidence") = Some (JNumber q) ->
        ~ (q == 0)%Q -> confidence doc = JNumber q)
  /\ (forall fails id d d',
        AiInsight_save cast fails id doc d = (Normal tt, d') ->
        exists q,
          confidence_cast cast (confidence doc) = Some q
          /\ (0 <= q)%Q /\ (q <= 100)%Q
          /\ insights d' !! id = Some (with_confidence q doc))
  /\ (forall q fails id d,
        confidence doc = JNumber q -> ~ ((0 <= q)%Q /\ (q <= 100)%Q) ->
        exists e, AiInsight_save cast fails id doc d = (Throw e, d)).
Proof.
  intros doc.
  repeat (split;
          [intros H; unfold doc, buildInsight; cbn [keyFindings riskFactors
             recommendations doctorQuestions followUpTimeframe followUpRequired
             confidence]; rewrite H; reflexivity|]).
  split.
  { intros q H Hq. unfold doc, buildInsight. cbn [confidence].
    rewrite H. unfold or_else, truthy.
    destruct (Qeq_bool q 0) eqn:E; [|reflexivity].
    apply Qeq_bool_iff in E. contradiction. }
  clearbody doc.
  split.
  { intros fails id d d' H. unfold AiInsight_save in H.
    destruct (confidence_cast cast (confidence doc)) as [q|] eqn:Hc; [|discriminate].
    destruct fails; [discriminate|]. injection H as <-.
    exists q. split; [reflexivity|].
    unfold confidence_cast in Hc.
    destruct (castNumber cast (confidence doc)) as [q'|]; [|discriminate].
    destruct (Qle_bool 0 q' && Qle_bool q' 100) eqn:Hb; [|discriminate].
    injection Hc as ->. apply andb_true_iff in Hb as [H0 H100].
    apply Qle_bool_iff in H0, H100.
    split; [exact H0|]. split; [exact H100|]. simpl. apply lookup_insert_eq. }
  intros q fails id d Hq Hrange. unfold AiInsight_save.
  rewrite Hq. unfold confidence_cast, castNumber.
  destruct (Qle_bool 0 q && Qle_bool q 100) eqn:Hb; [|eexists; reflexivity].
  exfalso. apply Hrange. apply andb_true_iff in Hb as [H0 H100].
  apply Qle_bool_iff in H0, H100. split; assumption.
Qed.

(** C6 at the payload without any optional field and with confidence
    90, saved under id 1. *)
Lemma C6_bare_payload :
  exists doc,
    doc = buildInsight 0 7 (newFile 7 Examples.report) (Gemini.Text [])
            {| Gemini.success := true;
               Gemini.data := JObject [(u "confidence", JNumber 90)];
               Gemini.processingTime := 1500; Gemini.fallback := false |}
    /\ keyFindings doc = JArray []
    /\ followUpTimeframe doc = JString (u "1-month")
    /\ followUpRequired doc = JBool false
    /\ confidence doc = JNumber 90.
Proof.
  eexists. split; [reflexivity|].
  match goal with
  | |- keyFindings (buildInsight ?a ?b ?c ?d ?r) = _ /\ _ =>
      destruct (C6_insight_builder (fun _ => None) a b c d r)
        as (H1 & _ & _ & _ & H5 & H6 & _ & H8 & _)
  end.
  split; [apply H1; reflexivity|].
  split; [apply H5; reflexivity|].
  split; [apply H6; reflexivity|].
  apply H8; [reflexivity|]. intros H. vm_compute in H. discriminate H.
Defined.

(** C6 fails as stated: nothing clamps the confidence. For a payload with
    confidence 500 the document holds 500, the schema refuses it, and the
    run of the pipeline stores no insight and marks the file failed. *)
Lemma C6_confidence_not_clamped :
  confidence
    (buildInsight 0 7 (newFile 7 Examples.report) (Gemini.Text [])
       {| Gemini.success := true;
          Gemini.data := JObject [(u "confidence", JNumber 500)];
          Gemini.processingTime := 1500; Gemini.fallback := false |})
  = JNumber 500
  /\ Gemini.parseGeminiResponse Examples.overconfident
     = Normal (JObject [(u "confidence", JNumber 500)])
  /\ insights (run [Examples.upload Examples.overconfident]) !! 1 = None
  /\ insights (run [Examples.upload Examples.overconfident]) = ∅
  /\ option_map processingStatus
       (files (run [Examples.upload Examples.overconfident]) !! 0)
     = Some Failed.
Proof. vm_compute. repeat split. Qed.



End Triples.

(* ===================================================================== *)
(** * Handlers that take turns                                            *)
(* ===================================================================== *)

Section Sequential.
Import Store Gemini Pipeline Async.

Lemma seq_bind {A B : Type} (p : proc A) (f : A -> proc B) (d : db) :
  seq (bind p f) d
  = match seq p d with
    | (Normal a, d') => seq (f a) d'
    | (Throw e, d') => (Throw e, d')
    end.
Proof.
  revert B f d.
  induction p as [A a|A e|A C call k IH|A child _ k IH]; intros B f d; simpl.
  - reflexivity.
  - reflexivity.
  - apply IH.
  - apply IH.
Qed.

Lemma seq_try_catch {A : Type} (p : proc A) (handler : exn -> proc A) (d : db) :
  seq (try_catch p handler) d
  = match seq p d with
    | (Normal a, d') => (Normal a, d')
    | (Throw e, d') => seq (handler e) d'
    end.
Proof.
  revert handler d.
  induction p as [A a|A e|A C call k IH|A child _ k IH]; intros handler d; simpl.
  - reflexivity.
  - reflexivity.
  - apply IH.
  - apply IH.
Qed.

Lemma seq_await {B : Type} (call : St B) (d : db) : seq (await call) d = call d.
Proof. simpl. destruct (call d) as [[b|e] d']; reflexivity. Qed.












End Sequential.

(** ** What every schedule preserves

    A thread holds what it knows as a value [t : T]; [J d ts] relates the
    store to what the threads hold. [okp t p Q Qe]: the code [p], run by a
    thread that holds [t], keeps [J] at each of its turns, whatever the
    other threads hold, and ends holding [Q a] when it returns [a] and
    [Qe] when it throws. *)
Section Logic.
Import Store Gemini Pipeline Async.
Context {T : Type} (J : db -> list T -> Prop).

Fixpoint okp {A : Type} (t : T) (p : proc A)
    (Q : A -> T -> Prop) (Qe : T -> Prop) : Prop :=
  match p with
  | Ret a => Q a t
  | Raise _ => Qe t
  | Await call k =>
      forall d l, J d (t :: l) ->
        exists t', J (snd (call d)) (t' :: l) /\ okp t' (k (fst (call d))) Q Qe
  | Start child k =>
      exists t' tc,
        (forall d l, J d (t :: l) -> J d (t' :: tc :: l))
        /\ okp tc child (fun _ _ => True) (fun _ => True)
        /\ okp t' k Q Qe
  end.

Lemma okp_mono {A : Type} (p : proc A) :
  forall t (Q Q' : A -> T -> Prop) (Qe Qe' : T -> Prop),
    (forall a t, Q a t -> Q' a t) -> (forall t, Qe t -> Qe' t) ->
    okp t p Q Qe -> okp t p Q' Qe'.
Proof.
  induction p as [A a|A e|A C call k IH|A child _ k IH];
    intros t Q Q' Qe Qe' HQ HQe H; simpl in *.
  - apply HQ, H.
  - apply HQe, H.
  - intros d l HJ. destruct (H d l HJ) as (t' & HJ' & Hk).
    exists t'. split; [exact HJ'|]. eapply IH; eassumption.
  - destruct H as (t' & tc & H1 & H2 & H3). exists t', tc.
    split; [exact H1|]. split; [exact H2|]. eapply IH; eassumption.
Qed.

Lemma okp_bind {A B : Type} (p : proc A) :
  forall t (f : A -> proc B) (Q : A -> T -> Prop) (R : B -> T -> Prop)
         (Qe : T -> Prop),
    okp t p Q Qe -> (forall a t', Q a t' -> okp t' (f a) R Qe) ->
    okp t (bind p f) R Qe.
Proof.
  induction p as [A a|A e|A C call k IH|A child _ k IH];
    intros t f Q R Qe H Hf; simpl in *.
  - apply (Hf a t H).
  - exact H.
  - intros d l HJ. destruct (H d l HJ) as (t' & HJ' & Hk).
    exists t'. split; [exact HJ'|]. eapply IH; eassumption.
  - destruct H as (t' & tc & H1 & H2 & H3). exists t', tc.
    split; [exact H1|]. split; [exact H2|]. eapply IH; eassumption.
Qed.

Lemma okp_mbind {A B : Type} (p : proc A) (f : A -> proc B) t
    (Q : A -> T -> Prop) (R : B -> T -> Prop) (Qe : T -> Prop) :
  okp t p Q Qe -> (forall a t', Q a t' -> okp t' (f a) R Qe) ->
  okp t (p ≫= f) R Qe.
Proof. apply okp_bind. Qed.

Lemma okp_catch {A : Type} (p : proc A) :
  forall t (handler : exn -> proc A) (Q : A -> T -> Prop) (Qe Re : T -> Prop),
    okp t p Q Qe -> (forall e t', Qe t' -> okp t' (handler e) Q Re) ->
    okp t (try_catch p handler) Q Re.
Proof.
  induction p as [A a|A e|A C call k IH|A child _ k IH];
    intros t handler Q Qe Re H Hh; simpl in *.
  - exact H.
  - apply (Hh e t H).
  - intros d l HJ. destruct (H d l HJ) as (t' & HJ' & Hk).
    exists t'. split; [exact HJ'|]. eapply IH; eassumption.
  - destruct H as (t' & tc & H1 & H2 & H3). exists t', tc.
    split; [exact H1|]. split; [exact H2|]. eapply IH; eassumption.
Qed.

Lemma okp_await {B : Type} (call : St B) t (Q : B -> T -> Prop) (Qe : T -> Prop) :
  (forall d l, J d (t :: l) ->
     exists t', J (snd (call d)) (t' :: l)
                /\ match fst (call d) with
                   | Normal b => Q b t'
                   | Throw _ => Qe t'
                   end) ->
  okp t (await call) Q Qe.
Proof.
  intros H d l HJ. destruct (H d l HJ) as (t' & HJ' & HQ).
  exists t'. split; [exact HJ'|]. destruct (fst (call d)); exact HQ.
Qed.

Lemma okp_start {A : Type} (child : proc unit) (k : proc A) t t' tc
    (Q : A -> T -> Prop) (Qe : T -> Prop) :
  (forall d l, J d (t :: l) -> J d (t' :: tc :: l)) ->
  okp tc child (fun _ _ => True) (fun _ => True) ->
  okp t' k Q Qe ->
  okp t (Start child k) Q Qe.
Proof. intros H1 H2 H3. exists t', tc. auto. Qed.

(** A thread and what it holds. *)
Definition okt (t : T) (th : thread) : Prop :=
  match th with
  | Handler p => okp t p (fun _ _ => True) (fun _ => True)
  | Background p => okp t p (fun _ _ => True) (fun _ => True)
  end.

Lemma advance_ok {A : Type} (p : proc A) (t : T) (d : db) (l : list T) :
  okp t p (fun _ _ => True) (fun _ => True) -> J d (t :: l) ->
  exists t' ts,
    J (advance p d).1.2 (t' :: ts ++ l)
    /\ okp t' (advance p d).1.1 (fun _ _ => True) (fun _ => True)
    /\ Forall2 okt ts (advance p d).2.
Proof.
  intros Hp HJ. destruct p as [a|e|C call k|child k]; simpl in *.
  - exists t, []. split; [exact HJ|]. split; [exact I|constructor].
  - exists t, []. split; [exact HJ|]. split; [exact I|constructor].
  - destruct (Hp d l HJ) as (t' & HJ' & Hk). exists t', [].
    split; [exact HJ'|]. split; [exact Hk|constructor].
  - destruct Hp as (t' & tc & H1 & H2 & H3). exists t', [tc].
    split; [exact (H1 d l HJ)|]. split; [exact H3|].
    constructor; [exact H2|constructor].
Qed.

Hypothesis J_perm : forall d l l', l ≡ₚ l' -> J d l -> J d l'.

(** What the threads hold, one value for each thread of the pool. *)
Definition held (c : config) : Prop :=
  exists ts, J (store c) ts /\ Forall2 okt ts (pool c).

Variable t0 : T.
Hypothesis J_arrive : forall d l, J d l -> J d (t0 :: l).
Hypothesis handle_ok :
  forall r, okp t0 (handle r) (fun _ _ => True) (fun _ => True).

Lemma held_next (c : config) (e : event) : held c -> held (next c e).
Proof.
  intros (ts & HJ & Hts). destruct e as [r|n]; simpl.
  - exists (ts ++ [t0]). simpl. split.
    + apply (J_perm _ (t0 :: ts)); [|apply J_arrive, HJ].
      rewrite Permutation_app_comm. reflexivity.
    + apply Forall2_app; [exact Hts|]. constructor; [apply handle_ok|constructor].
  - destruct (pool c !! n) as [th|] eqn:Hn; [|exists ts; split; assumption].
    destruct (Forall2_lookup_r _ _ _ _ _ Hts Hn) as (t & Ht & Hok).
    pose proof (lookup_lt_Some _ _ _ Hn) as Hlen.
    pose proof (lookup_lt_Some _ _ _ Ht) as Hlen'.
    assert (HJ1 : J (store c) (t :: delete n ts)).
    { apply (J_perm _ ts); [|exact HJ]. apply delete_Permutation. exact Ht. }
    assert (Hrest : Forall2 okt (delete n ts) (delete n (pool c))).
    { apply Forall2_delete. exact Hts. }
    assert (Hfinal : forall (t' : T) (th' : thread) ts' started d',
               J d' (t' :: ts' ++ delete n ts) -> okt t' th' ->
               Forall2 okt ts' started ->
               held {| store := d'; pool := <[n := th']> (pool c) ++ started |}).
    { intros t' th' ts' started d' HJ' Hth' Hst.
      exists (<[n := t']> ts ++ ts'). simpl. split.
      - apply (J_perm _ (t' :: ts' ++ delete n ts)); [|exact HJ'].
        rewrite (delete_Permutation (<[n := t']> ts) n t')
          by (apply list_lookup_insert_eq; exact Hlen').
        rewrite !delete_take_drop, take_insert_ge, drop_insert_lt by lia.
        rewrite <- !app_comm_cons. constructor.
        apply Permutation_app_comm.
      - apply Forall2_app; [|exact Hst].
        rewrite !insert_take_drop by assumption.
        rewrite !delete_take_drop in Hrest.
        apply Forall2_app_inv in Hrest as [H1 H2];
          [|rewrite !length_take; apply Forall2_length in Hts; lia].
        apply Forall2_app; [exact H1|]. constructor; [exact Hth'|exact H2]. }
    destruct th as [p|p]; simpl in Hok |- *;
      destruct (advance_ok p t (store c) (delete n ts) Hok HJ1)
        as (t' & ts' & H1 & H2 & H3);
      destruct (advance p (store c)) as [[p' d'] started]; simpl in *.
    + exact (Hfinal t' (Handler p') ts' started d' H1 H2 H3).
    + exact (Hfinal t' (Background p') ts' started d' H1 H2 H3).
Qed.

Theorem held_schedule : J empty_db [] -> forall es, held (schedule es).
Proof.
  intros H0 es. unfold schedule.
  assert (H : held initial) by (exists []; split; [exact H0|constructor]).
  revert H. generalize initial.
  induction es as [|e es IH]; intros c Hc; [exact Hc|].
  simpl. apply IH, held_next, Hc.
Qed.

End Logic.

(** ** The statuses of a file, in every schedule *)

(** How often a status was written. *)
Definition count (s : Store.status) (t : list Store.status) : nat :=
  count_occ Store.status_eq_dec t s.

(** [started n t]: in [t] no [Pending] is written, and [Completed] is
    never written more often than [Processing], counting [n] runs that
    have written [Processing] before [t]. *)
Fixpoint started (n : nat) (t : list Store.status) : bool :=
  match t with
  | [] => true
  | Store.Processing :: t' => started (S n) t'
  | Store.Failed :: t' => started n t'
  | Store.Completed :: t' =>
      match n with
      | O => false
      | S m => started m t'
      end
  | Store.Pending :: _ => false
  end.

(** The statuses a file goes through: [Pending] first and only then;
    after it, every [Completed] is owed to a [Processing] written before
    it, each [Processing] to one [Completed] at most. *)
Definition lifecycle (t : list Store.status) : bool :=
  match t with
  | [] => true
  | Store.Pending :: t' => started 0 t'
  | _ => false
  end.

(** The processing paths of a File document, as every update leaves
    them. *)
Definition linked (f : Store.File) : Prop :=
  (Store.isProcessed f = true <-> is_Some (Store.aiInsight f))
  /\ (Store.processingStatus f = Store.Completed -> Store.isProcessed f = true).

Section Lifecycle.
Import Store Gemini Pipeline Async.

(** The file whose statuses are followed. *)
Variable i : oid.

(** What a thread holds: nothing; that file [i] has been created; that it
    wrote [Processing] to file [i] and no [Completed] since; or that file
    [i] has been deleted. *)
Inductive ghost := Idle | Seen | Credit | Gone.

#[local] Instance ghost_eq_dec : EqDecision ghost.
Proof. solve_decision. Defined.

Definition credits (gs : list ghost) : nat := count_occ ghost_eq_dec gs Credit.

Record inv (d : db) (gs : list ghost) : Prop := {
  inv_history : forall j s, In (j, s) (history d) -> j < next_id d;
  inv_files : forall j f, files d !! j = Some f ->
    trace j (history d) <> [] /\ linked f;
  inv_trace : lifecycle (trace i (history d)) = true;
  inv_credit :
    (count Completed (trace i (history d)) + credits gs
     <= count Processing (trace i (history d)))%nat;
  inv_seen : forall g, In g gs -> g <> Idle -> i < next_id d;
  inv_gone : In Gone gs -> files d !! i = None
}.

Lemma started_snoc n t s :
  started n t = true ->
  s = Processing \/ s = Failed
  \/ (s = Completed /\ (count Completed t < n + count Processing t)%nat) ->
  started n (t ++ [s]) = true.
Proof.
  revert n. induction t as [|x t IH]; intros n Ht Hs.
  - destruct Hs as [->|[->|[-> H]]]; simpl in *; try reflexivity.
    destruct n; [lia|reflexivity].
  - destruct x; simpl in Ht |- *; try discriminate.
    + apply IH; [exact Ht|]. destruct Hs as [->|[->|[-> H]]]; auto.
      right. right. split; [reflexivity|]. unfold count in *. simpl in H. lia.
    + destruct n as [|m]; [discriminate|]. apply IH; [exact Ht|].
      destruct Hs as [->|[->|[-> H]]]; auto.
      right. right. split; [reflexivity|]. unfold count in *. simpl in H. lia.
    + apply IH; [exact Ht|]. destruct Hs as [->|[->|[-> H]]]; auto.
Qed.

Lemma lifecycle_snoc t s :
  lifecycle t = true -> t <> [] ->
  s = Processing \/ s = Failed
  \/ (s = Completed /\ (count Completed t < count Processing t)%nat) ->
  lifecycle (t ++ [s]) = true.
Proof.
  destruct t as [|x t]; [contradiction|]. intros Ht _ Hs.
  destruct x; try discriminate. simpl in *. apply started_snoc; [exact Ht|].
  destruct Hs as [->|[->|[-> H]]]; auto.
Qed.

Lemma started_spec n t :
  started n t = true ->
  ~ In Pending t
  /\ forall l l', t = l ++ l' ->
       (count Completed l <= n + count Processing l)%nat.
Proof.
  revert n. induction t as [|x t IH]; intros n Ht.
  - split; [intros []|]. intros l l' E. symmetry in E.
    apply app_eq_nil in E as [-> _]. unfold count. simpl. lia.
  - assert (Hcons : forall m, started m t = true ->
              (forall l, count Completed (x :: l) <= n + count Processing (x :: l)
                         <-> count Completed l <= m + count Processing l)%nat ->
              x <> Pending ->
              ~ In Pending (x :: t)
              /\ forall l l', x :: t = l ++ l' ->
                   (count Completed l <= n + count Processing l)%nat).
    { intros m Hm Hc Hx. destruct (IH m Hm) as [H1 H2]. split.
      - intros [E|H]; [exact (Hx E)|exact (H1 H)].
      - intros [|y l] l' E; [unfold count; simpl; lia|].
        injection E as <- E. apply Hc. exact (H2 l l' E). }
    destruct x; simpl in Ht; try discriminate.
    + apply (Hcons (S n) Ht); [|discriminate].
      intros l. unfold count. simpl. lia.
    + destruct n as [|m]; [discriminate|].
      apply (Hcons m Ht); [|discriminate].
      intros l. unfold count. simpl. lia.
    + apply (Hcons n Ht); [|discriminate].
      intros l. unfold count. simpl. lia.
Qed.

(** The meaning of [lifecycle]. *)
Lemma lifecycle_spec t :
  lifecycle t = true ->
  t = []
  \/ exists w, t = Pending :: w /\ ~ In Pending w
       /\ forall l l', w = l ++ l' ->
            (count Completed l <= count Processing l)%nat.
Proof.
  destruct t as [|x w]; [left; reflexivity|]. intros Ht. right.
  destruct x; try discriminate. exists w. split; [reflexivity|].
  exact (started_spec 0 w Ht).
Qed.


(** *** The invariant and the writes *)

Lemma credits_cons g l :
  credits (g :: l) = ((if decide (g = Credit) then 1 else 0) + credits l)%nat.
Proof.
  unfold credits. simpl. destruct (ghost_eq_dec g Credit) as [->|Hne].
  - rewrite decide_True by reflexivity. reflexivity.
  - rewrite decide_False by exact Hne. reflexivity.
Qed.

Lemma inv_perm d l l' : l ≡ₚ l' -> inv d l -> inv d l'.
Proof.
  intros Hp [H1 H2 H3 H4 H5 H6]. split; try assumption.
  - unfold credits in *.
    rewrite <- (proj1 (Permutation_count_occ ghost_eq_dec l l') Hp Credit).
    exact H4.
  - intros g Hg. apply H5. apply (Permutation_in _ (Permutation_sym Hp)), Hg.
  - intros Hg. apply H6. apply (Permutation_in _ (Permutation_sym Hp)), Hg.
Qed.

(** A thread may forget, and may note what the store shows. *)
Lemma inv_hold d g g' l :
  inv d (g :: l) ->
  (g' = Credit -> g = Credit) ->
  (g' <> Idle -> i < next_id d) ->
  (g' = Gone -> files d !! i = None) ->
  inv d (g' :: l).
Proof.
  intros [H1 H2 H3 H4 H5 H6] Hc Hs Hg. split; try assumption.
  - rewrite credits_cons in *.
    destruct (decide (g' = Credit)) as [E|_]; [|destruct (decide (g = Credit)); lia].
    rewrite decide_True in H4 by exact (Hc E). exact H4.
  - intros x [<-|Hx] Hne; [exact (Hs Hne)|]. apply (H5 x); [right; exact Hx|exact Hne].
  - intros [E|Hx]; [exact (Hg E)|]. apply H6. right. exact Hx.
Qed.

Lemma inv_idle d l : inv d l -> inv d (Idle :: l).
Proof.
  intros [H1 H2 H3 H4 H5 H6]. split; try assumption.
  - intros x [<-|Hx] Hne; [contradiction|]. exact (H5 x Hx Hne).
  - intros [E|Hx]; [discriminate|]. exact (H6 Hx).
Qed.

(** A step that writes no status to file [i] and does not bring it
    back. *)
Lemma inv_store d d' gs :
  inv d gs ->
  next_id d <= next_id d' ->
  (forall j s, In (j, s) (history d') -> j < next_id d') ->
  (forall j f, files d' !! j = Some f -> trace j (history d') <> [] /\ linked f) ->
  trace i (history d') = trace i (history d) ->
  (files d !! i = None -> files d' !! i = None) ->
  inv d' gs.
Proof.
  intros [H1 H2 H3 H4 H5 H6] Hn Hh Hf Ht Hi. split; try assumption.
  - rewrite Ht. exact H3.
  - rewrite Ht. exact H4.
  - intros g Hg Hne. pose proof (H5 g Hg Hne). lia.
  - intros Hg. exact (Hi (H6 Hg)).
Qed.

(** The store with a fresh id drawn. *)
Definition drawn (d : db) : db :=
  {| files := files d; insights := insights d; next_id := next_id d + 1;
     history := history d |}.

(** The store with another collection of insights. *)
Definition with_insights (m : gmap N AiInsight) (d : db) : db :=
  {| files := files d; insights := m; next_id := next_id d;
     history := history d |}.

(** The store after [s] is written to file [j], which becomes [f']. *)
Definition written (j : oid) (f' : File) (s : status) (d : db) : db :=
  {| files := <[j := f']> (files d); insights := insights d;
     next_id := next_id d; history := history d ++ [(j, s)] |}.

Lemma inv_drawn d gs : inv d gs -> inv (drawn d) gs.
Proof.
  intros H. apply (inv_store d _ gs H); simpl.
  - lia.
  - intros j s Hin. pose proof (inv_history d gs H j s Hin). lia.
  - exact (inv_files d gs H).
  - reflexivity.
  - tauto.
Qed.

Lemma inv_with_insights m d gs : inv d gs -> inv (with_insights m d) gs.
Proof.
  intros H. apply (inv_store d _ gs H); simpl.
  - lia.
  - exact (inv_history d gs H).
  - exact (inv_files d gs H).
  - reflexivity.
  - tauto.
Qed.

Lemma inv_without j d gs :
  inv d gs ->
  inv {| files := delete j (files d); insights := insights d;
         next_id := next_id d; history := history d |} gs.
Proof.
  intros H. apply (inv_store d _ gs H); simpl; [lia| | |reflexivity|].
  - exact (inv_history d gs H).
  - intros k f Hk. apply lookup_delete_Some in Hk as [_ Hk].
    exact (inv_files d gs H k f Hk).
  - intros Hi. destruct (decide (j = i)) as [->|Hne].
    + apply lookup_delete_eq.
    + rewrite lookup_delete_ne by exact Hne. exact Hi.
Qed.

Lemma trace_written j f' s d k :
  trace k (history (written j f' s d))
  = trace k (history d) ++ (if j =? k then [s] else []).
Proof. simpl. rewrite trace_app. simpl. destruct (j =? k); reflexivity. Qed.

Lemma known_id d gs j : inv d gs -> trace j (history d) <> [] -> j < next_id d.
Proof.
  intros H Ht. destruct (trace j (history d)) as [|s t] eqn:E; [contradiction|].
  apply (inv_history d gs H j s). apply trace_In. rewrite E. left. reflexivity.
Qed.

Lemma written_history d gs j f' s :
  inv d gs -> j < next_id d ->
  forall k s', In (k, s') (history (written j f' s d)) ->
               k < next_id (written j f' s d).
Proof.
  intros H Hj k s' Hin. simpl in *.
  apply in_app_or in Hin as [Hin|[[= <- <-]|[]]]; [|exact Hj].
  exact (inv_history d gs H k s' Hin).
Qed.

Lemma written_files d gs j f' s :
  inv d gs -> linked f' ->
  forall k f, files (written j f' s d) !! k = Some f ->
              trace k (history (written j f' s d)) <> [] /\ linked f.
Proof.
  intros H Hl k f Hk. rewrite trace_written. simpl in Hk.
  destruct (decide (j = k)) as [<-|Hne].
  - rewrite lookup_insert_eq in Hk. injection Hk as <-. rewrite N.eqb_refl.
    split; [|exact Hl]. intros E. apply app_eq_nil in E as [_ E]. discriminate.
  - rewrite lookup_insert_ne in Hk by exact Hne.
    destruct (N.eqb_spec j k) as [E|_]; [contradiction|].
    rewrite app_nil_r. exact (inv_files d gs H k f Hk).
Qed.

(** A status written to another file. *)
Lemma inv_written_other d gs j f' s :
  inv d gs -> j <> i -> j < next_id d -> linked f' ->
  inv (written j f' s d) gs.
Proof.
  intros H Hne Hj Hl. apply (inv_store d _ gs H).
  - simpl. lia.
  - exact (written_history d gs j f' s H Hj).
  - exact (written_files d gs j f' s H Hl).
  - rewrite trace_written. destruct (N.eqb_spec j i) as [E|_]; [contradiction|].
    apply app_nil_r.
  - simpl. intros Hi. rewrite lookup_insert_ne by exact Hne. exact Hi.
Qed.

(** A status written to file [i], which is in the store. *)
Lemma inv_written_self d g g' l f f' s :
  inv d (g :: l) -> files d !! i = Some f -> linked f' ->
  g' <> Gone ->
  (s = Processing /\ (credits (g' :: l) <= S (credits (g :: l)))%nat)
  \/ (s = Failed /\ (credits (g' :: l) <= credits (g :: l))%nat)
  \/ (s = Completed /\ (S (credits (g' :: l)) <= credits (g :: l))%nat) ->
  inv (written i f' s d) (g' :: l).
Proof.
  intros H Hf Hl Hg Hs.
  destruct (inv_files d _ H i f Hf) as [Hne _].
  pose proof (known_id d _ i H Hne) as Hi.
  pose proof (inv_credit d _ H) as Hc.
  split.
  - exact (written_history d _ i f' s H Hi).
  - exact (written_files d _ i f' s H Hl).
  - rewrite trace_written, N.eqb_refl.
    apply lifecycle_snoc; [exact (inv_trace d _ H)|exact Hne|].
    destruct Hs as [[-> _]|[[-> _]|[-> Hs]]]; auto.
    right. right. split; [reflexivity|]. lia.
  - rewrite trace_written, N.eqb_refl. unfold count in *.
    rewrite !count_occ_app.
    destruct Hs as [[-> Hs]|[[-> Hs]|[-> Hs]]]; simpl; lia.
  - intros x _ _. exact Hi.
  - intros [E|Hx]; [contradiction|].
    pose proof (inv_gone d _ H (or_intror Hx)) as E. congruence.
Qed.

(** A new file saved under the id just drawn. *)
Lemma inv_created d l f' :
  inv d (Idle :: l) -> linked f' ->
  inv (written (next_id d) f' Pending (drawn d))
    ((if decide (next_id d = i) then Seen else Idle) :: l).
Proof.
  intros H Hl. pose proof (inv_drawn d _ H) as H'.
  assert (Hid : next_id d < next_id (drawn d)) by (simpl; lia).
  destruct (decide (next_id d = i)) as [E|Hne];
    [|apply inv_written_other; assumption].
  assert (Ht : trace i (history d) = []).
  { apply (trace_fresh i (history d) (next_id d)); [exact (inv_history d _ H)|lia]. }
  assert (Hnone : forall g, In g l -> g = Idle).
  { intros g Hg. destruct (decide (g = Idle)) as [|Hg']; [assumption|].
    pose proof (inv_seen d _ H g (or_intror Hg) Hg'). lia. }
  assert (Hcr : credits l = 0%nat).
  { pose proof (inv_credit d _ H) as Hc. rewrite Ht, credits_cons in Hc.
    unfold count in Hc. simpl in Hc. lia. }
  rewrite E in *. split.
  - exact (written_history _ _ i f' Pending H' Hid).
  - exact (written_files _ _ i f' Pending H' Hl).
  - rewrite trace_written, N.eqb_refl. simpl. rewrite Ht. reflexivity.
  - rewrite trace_written, N.eqb_refl. simpl. rewrite Ht, credits_cons, Hcr.
    unfold count. simpl. lia.
  - intros _ _ _. simpl. lia.
  - intros [E'|Hx]; [discriminate|]. apply Hnone in Hx. discriminate.
Qed.

Lemma linked_set_status s f :
  s <> Completed -> linked f -> linked (set_status s f).
Proof. intros Hs [H1 H2]. split; simpl; [exact H1|]. intros E. contradiction. Qed.

Lemma linked_set_completed n f : linked (set_completed n f).
Proof. split; simpl; [|reflexivity]. split; [eexists|]; reflexivity. Qed.

Lemma linked_newFile user req : linked (newFile user req).
Proof.
  split; simpl; [|discriminate]. split; [discriminate|]. intros [x Hx]. discriminate.
Qed.

(** *** The calls of the handlers *)

(** A thread that works on file [j] knows that the file was created;
    after its [Processing] update it has written [Processing], or the
    file is gone. *)
Definition seen (j : oid) (g : ghost) : Prop := j = i -> g = Seen.
Definition ready (j : oid) (g : ghost) : Prop := j = i -> g = Credit \/ g = Gone.

Lemma ok_updateStatus_processing fails j g :
  seen j g ->
  okp inv g (await (File_updateStatus fails j Processing))
    (fun _ g' => ready j g') (fun _ => True).
Proof.
  intros Hg. apply okp_await. intros d l H. unfold File_updateStatus.
  destruct fails; [exists g; split; [exact H|exact I]|].
  destruct (files d !! j) as [f|] eqn:Hf; simpl.
  - change (inv (written j (set_status Processing f) Processing d) ?x)
      with (inv (written j (set_status Processing f) Processing d) x).
    destruct (inv_files d _ H j f Hf) as [Hne Hl].
    assert (Hl' : linked (set_status Processing f))
      by (apply linked_set_status; [discriminate|exact Hl]).
    destruct (decide (j = i)) as [->|Hji].
    + exists Credit. split; [|intros _; left; reflexivity].
      rewrite (Hg eq_refl) in H.
      apply (inv_written_self d Seen Credit l f); try assumption; [discriminate|].
      left. split; [reflexivity|]. rewrite !credits_cons. simpl. lia.
    + exists g. split; [|intros E; contradiction].
      apply inv_written_other; try assumption. exact (known_id d _ j H Hne).
  - destruct (decide (j = i)) as [->|Hji].
    + exists Gone. split; [|intros _; right; reflexivity].
      rewrite (Hg eq_refl) in H.
      apply (inv_hold d Seen Gone l H); [discriminate| |intros _; exact Hf].
      intros _. apply (inv_seen d _ H Seen); [left; reflexivity|discriminate].
    + exists g. split; [exact H|intros E; contradiction].
Qed.

Lemma ok_updateStatus_failed fails j g :
  okp inv g (await (File_updateStatus fails j Failed))
    (fun _ _ => True) (fun _ => True).
Proof.
  apply okp_await. intros d l H. unfold File_updateStatus.
  destruct fails; [exists g; split; [exact H|exact I]|].
  destruct (files d !! j) as [f|] eqn:Hf; simpl; [|exists g; split; [exact H|exact I]].
  destruct (inv_files d _ H j f Hf) as [Hne Hl].
  assert (Hl' : linked (set_status Failed f))
    by (apply linked_set_status; [discriminate|exact Hl]).
  destruct (decide (j = i)) as [->|Hji].
  - exists Idle. split; [|exact I].
    apply (inv_written_self d g Idle l f); try assumption; [discriminate|].
    right. left. split; [reflexivity|]. rewrite !credits_cons. simpl. lia.
  - exists g. split; [|exact I].
    apply (inv_written_other d (g :: l) j); try assumption.
    exact (known_id d _ j H Hne).
Qed.

Lemma ok_link fails j n g :
  ready j g ->
  okp inv g (await (File_link fails j n)) (fun _ _ => True) (fun _ => True).
Proof.
  intros Hg. apply okp_await. intros d l H. unfold File_link.
  destruct fails; [exists g; split; [exact H|exact I]|].
  destruct (files d !! j) as [f|] eqn:Hf; simpl; [|exists g; split; [exact H|exact I]].
  destruct (inv_files d _ H j f Hf) as [Hne _].
  pose proof (linked_set_completed n f) as Hl'.
  destruct (decide (j = i)) as [->|Hji].
  - exists Idle. split; [|exact I].
    destruct (Hg eq_refl) as [->| ->].
    + apply (inv_written_self d Credit Idle l f); try assumption; [discriminate|].
      right. right. split; [reflexivity|]. rewrite !credits_cons. simpl. lia.
    + pose proof (inv_gone d _ H (or_introl eq_refl)) as E. congruence.
  - exists g. split; [|exact I].
    apply (inv_written_other d (g :: l) j); try assumption.
    exact (known_id d _ j H Hne).
Qed.

Lemma ok_create_insight cast fails doc g :
  okp inv g (await (create (fun id => AiInsight_save cast fails id doc)))
    (fun _ g' => g' = g) (fun _ => True).
Proof.
  apply okp_await. intros d l H. exists g.
  unfold create, newId, AiInsight_save, mbind, St_bind, mret, St_ret.
  fold (drawn d). pose proof (inv_drawn d _ H) as H'.
  destruct (confidence_cast cast (confidence doc)) as [q|];
    [|split; [exact H'|exact I]].
  destruct fails; [split; [exact H'|exact I]|].
  split; [|reflexivity]. exact (inv_with_insights _ _ _ H').
Qed.

Lemma ok_create_file fails user req :
  okp inv Idle (await (create (fun id => File_save fails id (newFile user req))))
    (fun id g' => seen id g') (fun _ => True).
Proof.
  apply okp_await. intros d l H.
  unfold create, newId, File_save, mbind, St_bind, mret, St_ret.
  fold (drawn d).
  destruct fails; simpl.
  - exists Idle. split; [exact (inv_drawn d _ H)|exact I].
  - exists (if decide (next_id d = i) then Seen else Idle). split.
    + exact (inv_created d l _ H (linked_newFile user req)).
    + intros E. rewrite decide_True by exact E. reflexivity.
Qed.

Lemma ok_findById fails j g :
  okp inv g (await (File_findById fails j)) (fun _ g' => g' = g) (fun _ => True).
Proof.
  apply okp_await. intros d l H. exists g. unfold File_findById.
  destruct fails; (split; [exact H|]); [exact I|reflexivity].
Qed.

Lemma ok_findOne fails j user :
  okp inv Idle (await (File_findOne fails j user))
    (fun found g' => match found with Some _ => seen j g' | None => True end)
    (fun _ => True).
Proof.
  apply okp_await. intros d l H. unfold File_findOne.
  destruct fails; [exists Idle; split; [exact H|exact I]|]. simpl.
  destruct (files d !! j) as [f|] eqn:Hf; [|exists Idle; split; [exact H|exact I]].
  destruct (f_user f =? user); [|exists Idle; split; [exact H|exact I]].
  destruct (inv_files d _ H j f Hf) as [Hne _].
  exists (if decide (j = i) then Seen else Idle). split.
  - apply (inv_hold d Idle _ l H).
    + destruct (decide (j = i)); discriminate.
    + destruct (decide (j = i)) as [<-|]; [|contradiction].
      intros _. exact (known_id d _ j H Hne).
    + destruct (decide (j = i)); discriminate.
  - intros E. rewrite decide_True by exact E. reflexivity.
Qed.

Lemma ok_lift {A : Type} (c : completion A) g :
  okp inv g (await (lift c)) (fun _ g' => g' = g) (fun _ => True).
Proof.
  apply okp_await. intros d l H. exists g. unfold lift. simpl.
  split; [exact H|]. destruct c; [reflexivity|exact I].
Qed.

Lemma ok_delete_insight fails n g :
  okp inv g (await (AiInsight_findByIdAndDelete fails n))
    (fun _ g' => g' = g) (fun _ => True).
Proof.
  apply okp_await. intros d l H. exists g. unfold AiInsight_findByIdAndDelete.
  destruct fails; simpl; [split; [exact H|exact I]|].
  split; [|reflexivity]. exact (inv_with_insights _ _ _ H).
Qed.

Lemma ok_delete_file fails j g :
  okp inv g (await (File_findByIdAndDelete fails j))
    (fun _ g' => g' = g) (fun _ => True).
Proof.
  apply okp_await. intros d l H. exists g. unfold File_findByIdAndDelete.
  destruct fails; simpl; [split; [exact H|exact I]|].
  split; [|reflexivity]. exact (inv_without j _ _ H).
Qed.

(** *** The handlers *)

Lemma ok_processAIInsight e fs j filePath fileType reportType userId g :
  seen j g ->
  okp inv g (Async.processAIInsight e fs j filePath fileType reportType userId)
    (fun _ _ => True) (fun _ => True).
Proof.
  intros Hg. unfold Async.processAIInsight.
  apply okp_catch with (Qe := fun _ => True).
  - eapply okp_mbind; [apply ok_updateStatus_processing; exact Hg|].
    intros ? g1 Hg1.
    eapply okp_mbind; [apply ok_findById|]. intros found g2 ->.
    destruct found as [file|]; [|exact I]. cbv zeta.
    eapply okp_mbind; [apply ok_lift|]. intros r g3 ->.
    eapply okp_mbind; [apply ok_create_insight|]. intros id g4 ->.
    apply ok_link. exact Hg1.
  - intros ? g' ?. apply ok_updateStatus_failed.
Qed.

Lemma ok_handle (r : request) :
  okp inv Idle (Async.handle r) (fun _ _ => True) (fun _ => True).
Proof.
  destruct r as [e fs valid ffs user req|cast fs elapsed j user|f1 f2 f3 j user];
    unfold Async.handle.
  - unfold Async.uploadRoute.
    apply okp_catch with (Qe := fun _ => True); [|intros; exact I].
    destruct valid; [|exact I].
    eapply okp_mbind; [apply ok_create_file|]. intros id g Hg.
    apply (okp_start inv _ _ g Idle g).
    + intros d l H. apply inv_idle, H.
    + apply ok_processAIInsight. exact Hg.
    + exact I.
  - unfold Async.analyzeFileRoute.
    apply okp_catch with (Qe := fun _ => True).
    + eapply okp_mbind; [apply ok_findOne|]. intros [file|] g Hg; [|exact I].
      destruct (isProcessed file && bool_decide (is_Some (aiInsight file)));
        [exact I|].
      eapply okp_mbind; [apply ok_updateStatus_processing; exact Hg|].
      intros ? g1 Hg1.
      eapply okp_mbind; [apply ok_create_insight|]. intros id g2 ->.
      eapply okp_mbind; [apply ok_link; exact Hg1|]. intros; exact I.
    + intros ? g ?. eapply okp_mbind; [apply ok_updateStatus_failed|].
      intros; exact I.
  - unfold Async.deleteRoute.
    apply okp_catch with (Qe := fun _ => True); [|intros; exact I].
    eapply okp_mbind; [apply ok_findOne|]. intros [file|] g Hg; [|exact I].
    eapply okp_mbind with (Q := fun _ _ => True).
    { destruct (aiInsight file) as [n|]; [|exact I].
      eapply okp_mono; [| |apply ok_delete_insight]; auto. }
    intros ? g1 ?.
    eapply okp_mbind; [apply ok_delete_file|]. intros; exact I.
Qed.

Lemma inv_empty : inv empty_db [].
Proof.
  split; simpl.
  - intros j s [].
  - intros j f H. rewrite lookup_empty in H. discriminate.
  - reflexivity.
  - unfold count, credits. simpl. lia.
  - intros g [].
  - intros [].
Qed.

(** In every schedule the invariant holds, for what some threads hold. *)
Lemma inv_schedule (es : list event) : exists gs, inv (store (schedule es)) gs.
Proof.
  destruct (held_schedule inv inv_perm Idle inv_idle ok_handle inv_empty es)
    as (gs & H & _).
  exists gs. exact H.
Qed.

End Lifecycle.

Section Statuses.
Import Store Gemini Pipeline Async.

Lemma consistent_spec f :
  consistent f = true
  <-> (isProcessed f = true <->
       processingStatus f = Completed /\ is_Some (aiInsight f)).
Proof.
  unfold consistent. split.
  - apply bool_decide_eq_true_1.
  - apply bool_decide_eq_true_2.
Qed.

(** What the code keeps of the relation between the processing paths
    of a File document. A new document is consistent. In every store the
    server reaches, whatever the order of the turns and whichever calls
    fail, a document is processed exactly when it refers to an insight,
    and a completed document is processed; so a document is consistent
    exactly when it is completed or not processed. The update that links
    the insight leaves a consistent document; an update to [processing]
    or to [failed] leaves a consistent document exactly when the document
    was not processed. *)
Theorem processing_paths_kept (es : list event) :
  (forall user req, consistent (newFile user req) = true)
  /\ (forall i f, files (store (schedule es)) !! i = Some f ->
        (isProcessed f = true <-> is_Some (aiInsight f))
        /\ (processingStatus f = Completed -> isProcessed f = true)
        /\ (consistent f = true <->
            (isProcessed f = true -> processingStatus f = Completed)))
  /\ (forall f n, consistent (set_completed n f) = true)
  /\ (forall f s, s = Processing \/ s = Failed ->
        (consistent (set_status s f) = true <-> isProcessed f = false)).
Proof.
  split; [reflexivity|]. split; [|split].
  - intros i f Hf. destruct (inv_schedule i es) as (gs & H).
    destruct (inv_files i _ _ H i f Hf) as [_ [H1 H2]].
    split; [exact H1|]. split; [exact H2|].
    rewrite consistent_spec. split.
    + intros Hc Hp. apply Hc in Hp. exact (proj1 Hp).
    + intros Hc. split.
      * intros Hp. split; [exact (Hc Hp)|apply H1; exact Hp].
      * intros [Hs _]. exact (H2 Hs).
  - intros f n. apply consistent_spec. simpl. split; [|reflexivity].
    intros _. split; [reflexivity|eexists; reflexivity].
  - intros f s Hs. rewrite consistent_spec. simpl. split.
    + intros Hc. destruct (isProcessed f); [|reflexivity].
      destruct (proj1 Hc eq_refl) as [E _].
      destruct Hs as [-> | ->]; discriminate E.
    + intros Hp. rewrite Hp. split; [discriminate|].
      intros [E _]. destruct Hs as [-> | ->]; discriminate E.
Qed.

(** At a file whose background run fails and which the manual route then
    analyses, the updates of the manual route leave it consistent; at a
    file that a manual analysis marks [processing] after the background
    run has completed, no call failing, the file is processed, refers to
    its insight, and is not consistent. *)
Lemma processing_paths_example :
  (exists f,
     files (store (schedule Schedules.failed_then_analysed)) !! 0 = Some f
     /\ processingStatus f = Completed
     /\ aiInsight f = Some 2
     /\ consistent f = true)
  /\ (exists f,
        files (store (schedule Schedules.overlapping)) !! 0 = Some f
        /\ processingStatus f = Processing
        /\ isProcessed f = true
        /\ aiInsight f = Some 1
        /\ consistent f = false).
Proof.
  split.
  - assert (Hf : is_Some (files (store (schedule Schedules.failed_then_analysed)) !! 0)).
    { vm_compute. eexists. reflexivity. }
    destruct Hf as [f Hf]. exists f. split; [exact Hf|].
    assert (Hs : processingStatus f = Completed /\ aiInsight f = Some 2).
    { vm_compute in Hf. injection Hf as <-. split; reflexivity. }
    destruct Hs as [Hs Ha]. split; [exact Hs|]. split; [exact Ha|].
    destruct (processing_paths_kept Schedules.failed_then_analysed) as (_ & H & _).
    destruct (H 0 f Hf) as (_ & _ & Hc). apply Hc. intros _. exact Hs.
  - assert (Hf : is_Some (files (store (schedule Schedules.overlapping)) !! 0)).
    { vm_compute. eexists. reflexivity. }
    destruct Hf as [f Hf]. exists f. split; [exact Hf|].
    assert (Hs : processingStatus f = Processing /\ aiInsight f = Some 1).
    { vm_compute in Hf. injection Hf as <-. split; reflexivity. }
    destruct Hs as [Hs Ha]. split; [exact Hs|].
    destruct (processing_paths_kept Schedules.overlapping) as (_ & H & _).
    destruct (H 0 f Hf) as (Hp & _ & Hc).
    assert (Hp' : isProcessed f = true) by (apply Hp; rewrite Ha; eexists; reflexivity).
    split; [exact Hp'|]. split; [exact Ha|].
    destruct (consistent f) eqn:E; [|reflexivity].
    pose proof (proj1 Hc eq_refl Hp') as E'. congruence.
Defined.

(** C5 fails: the [catch] clause of the manual route writes [failed]
    without looking at the document. When the lookup throws for a file
    that is processed, the file stays processed and is marked failed. *)
Lemma C5_lookup_throws :
  exists f,
    files (run [Examples.upload Examples.labelled_result;
                Examples.analyze_lookup_fails]) !! 0 = Some f
    /\ isProcessed f = true
    /\ processingStatus f = Failed
    /\ aiInsight f = Some 1
    /\ consistent f = false.
Proof.
  eexists. split; [vm_compute; reflexivity|]. repeat split.
Qed.

(** C4, as the code has it. In every store the server reaches, whatever
    the order of the turns and whichever calls fail, the statuses written
    to a file start with [pending], which is never written again; after
    it, at every moment, [completed] has been written at most as often as
    [processing]: a run writes [completed] only after it has written
    [processing]. And a manual analysis whose lookup finds the file
    processed answers 400, File already processed, at that turn, and
    makes no other call. *)
Theorem C4_status_sequence (es : list event) (i : oid) :
  lifecycle (trace i (history (store (schedule es)))) = true
  /\ (trace i (history (store (schedule es))) = []
      \/ exists w,
           trace i (history (store (schedule es))) = Pending :: w
           /\ ~ In Pending w
           /\ forall l l', w = l ++ l' ->
                (count Completed l <= count Processing l)%nat)
  /\ (forall cast fs elapsed user d file,
        File_findOne (fail_find fs) i user d = (Normal (Some file), d) ->
        isProcessed file = true -> is_Some (aiInsight file) ->
        advance (Async.analyzeFileRoute cast fs elapsed i user) d
        = (Ret {| code := 400; ok := false;
                  message := u "File already processed" |}, d, [])).
Proof.
  destruct (inv_schedule i es) as (gs & H).
  pose proof (inv_trace i _ _ H) as Ht.
  split; [exact Ht|]. split; [exact (lifecycle_spec _ Ht)|].
  intros cast fs elapsed user d file Hfind Hp Ha.
  unfold Async.analyzeFileRoute.
  cbn [advance try_catch bind await mbind proc_bind].
  rewrite Hfind. cbn [fst snd try_catch bind].
  rewrite Hp, (bool_decide_eq_true_2 _ Ha). reflexivity.
Qed.

(** C4 at an upload whose analysis completes: the second analysis is
    refused at its first turn and changes nothing. *)
Lemma C4_second_analysis_refused :
  trace 0 (history (store (schedule Schedules.analysed)))
  = [Pending; Processing; Completed]
  /\ advance (Async.handle Examples.analyze) (store (schedule Schedules.analysed))
     = (Ret {| code := 400; ok := false; message := u "File already processed" |},
        store (schedule Schedules.analysed), []).
Proof.
  split; [vm_compute; reflexivity|].
  destruct (C4_status_sequence Schedules.analysed 0) as (_ & _ & H).
  refine (H (fun _ => None) no_faults 3000%Z 7 _
            (set_completed 1 (set_status Processing (newFile 7 Examples.report)))
            _ eq_refl _).
  - vm_compute. reflexivity.
  - eexists. reflexivity.
Defined.

(** C4 fails as stated. A failed file is analysed again on request: the
    model answers with a confidence of 500, the schema refuses the
    document and the background run ends in [failed]; the manual analysis
    then writes [processing] and [completed]. A completed file goes back
    to [processing] when a manual analysis that looked the file up before
    the background run overlaps with it, with no call failing; and it goes
    to [failed] when the lookup of a manual analysis throws. *)
Lemma C4_failed_then_processing :
  trace 0 (history (store (schedule Schedules.failed_then_analysed)))
  = [Pending; Processing; Failed; Processing; Completed]
  /\ trace 0 (history (store (schedule Schedules.overlapped)))
     = [Pending; Processing; Completed; Processing; Completed]
  /\ trace 0 (history (store (schedule Schedules.lookup_thrown)))
     = [Pending; Processing; Completed; Failed].
Proof. vm_compute. repeat split. Qed.

End Statuses.

(** ** What every turn guarantees *)

Section Guarantee.
Import Store Gemini Pipeline Async.

(** [obeys G p]: every call of the code [p] takes the store from [d] to
    some [d'] with [G d d']. *)
Fixpoint obeys (G : db -> db -> Prop) {A : Type} (p : proc A) : Prop :=
  match p with
  | Ret _ | Raise _ => True
  | Await call k => (forall d, G d (snd (call d))) /\ forall c, obeys G (k c)
  | Start child k => obeys G child /\ obeys G k
  end.

Lemma obeys_mbind G {A B : Type} (p : proc A) (f : A -> proc B) :
  obeys G p -> (forall a, obeys G (f a)) -> obeys G (p ≫= f).
Proof.
  unfold mbind, proc_bind. revert B f.
  induction p as [A a|A e|A C call k IH|A child _ k IH]; intros B f Hp Hf; simpl in *.
  - apply Hf.
  - exact I.
  - destruct Hp as [H1 H2]. split; [exact H1|]. intros c. apply IH; [apply H2|exact Hf].
  - destruct Hp as [H1 H2]. split; [exact H1|]. apply IH; [exact H2|exact Hf].
Qed.

Lemma obeys_catch G {A : Type} (p : proc A) (handler : exn -> proc A) :
  obeys G p -> (forall e, obeys G (handler e)) -> obeys G (try_catch p handler).
Proof.
  revert handler.
  induction p as [A a|A e|A C call k IH|A child _ k IH]; intros handler Hp Hh;
    simpl in *.
  - exact I.
  - apply Hh.
  - destruct Hp as [H1 H2]. split; [exact H1|]. intros c. apply IH; [apply H2|exact Hh].
  - destruct Hp as [H1 H2]. split; [exact H1|]. apply IH; [exact H2|exact Hh].
Qed.

Lemma obeys_await G {B : Type} (call : St B) :
  (forall d, G d (snd (call d))) -> obeys G (await call).
Proof. intros H. split; [exact H|]. intros [b|e]; exact I. Qed.

Definition obeys_thread (G : db -> db -> Prop) (t : thread) : Prop :=
  match t with
  | Handler p => obeys G p
  | Background p => obeys G p
  end.

Section Turns.
Variable G : db -> db -> Prop.
Hypothesis G_refl : forall d, G d d.
Hypothesis handle_obeys : forall r, obeys G (handle r).

Lemma obeys_next (c : config) (e : event) :
  Forall (obeys_thread G) (pool c) ->
  G (store c) (store (next c e)) /\ Forall (obeys_thread G) (pool (next c e)).
Proof.
  intros Hp. destruct e as [r|n]; simpl.
  - split; [apply G_refl|]. apply Forall_app. split; [exact Hp|].
    constructor; [apply handle_obeys|constructor].
  - destruct (pool c !! n) as [t|] eqn:Hn; [|split; [apply G_refl|exact Hp]].
    pose proof (Forall_lookup_1 _ _ _ _ Hp Hn) as Ht.
    assert (H : forall (A : Type) (p : proc A), obeys G p ->
              G (store c) (advance p (store c)).1.2
              /\ obeys G (advance p (store c)).1.1
              /\ Forall (obeys_thread G) (advance p (store c)).2).
    { intros A [a|x|B call k|child k] Hobs; simpl in *.
      - split; [apply G_refl|]. split; [exact I|constructor].
      - split; [apply G_refl|]. split; [exact I|constructor].
      - destruct Hobs as [H1 H2]. split; [apply H1|]. split; [apply H2|constructor].
      - destruct Hobs as [H1 H2]. split; [apply G_refl|]. split; [exact H2|].
        constructor; [exact H1|constructor]. }
    destruct t as [p|p]; simpl in Ht |- *;
      destruct (H _ p Ht) as (H1 & H2 & H3);
      destruct (advance p (store c)) as [[p' d'] started]; simpl in *;
      (split; [exact H1|]);
      (apply Forall_app; split; [|exact H3]);
      apply Forall_insert; assumption.
Qed.

Lemma obeys_schedule (es : list event) :
  Forall (obeys_thread G) (pool (schedule es)).
Proof.
  unfold schedule.
  assert (H : Forall (obeys_thread G) (pool initial)) by constructor.
  revert H. generalize initial.
  induction es as [|e es IH]; intros c Hc; [exact Hc|].
  simpl. apply IH. exact (proj2 (obeys_next c e Hc)).
Qed.

Hypothesis G_trans : forall d1 d2 d3, G d1 d2 -> G d2 d3 -> G d1 d3.

Lemma obeys_later (es es' : list event) :
  G (store (schedule es)) (store (schedule (es ++ es'))).
Proof.
  unfold schedule. rewrite fold_left_app. fold (schedule es).
  pose proof (obeys_schedule es) as H. revert H. generalize (schedule es).
  induction es' as [|e es' IH]; intros c Hc; [apply G_refl|].
  simpl. destruct (obeys_next c e Hc) as [H1 H2].
  exact (G_trans _ _ _ H1 (IH _ H2)).
Qed.

End Turns.

(** The insights of [d'] are those of [d], some of them removed, and new
    ones under new ids. *)
Definition insights_kept (d d' : db) : Prop :=
  next_id d <= next_id d'
  /\ (forall n, insights d !! n = None -> n < next_id d -> insights d' !! n = None)
  /\ (forall n doc, insights d !! n = Some doc -> n < next_id d ->
        insights d' !! n = Some doc \/ insights d' !! n = None)
  /\ ((forall n doc, insights d !! n = Some doc -> n < next_id d) ->
      forall n doc, insights d' !! n = Some doc -> n < next_id d').

Lemma insights_kept_refl d : insights_kept d d.
Proof.
  split; [lia|]. split; [auto|]. split; [auto|]. auto.
Qed.

Lemma insights_kept_trans d1 d2 d3 :
  insights_kept d1 d2 -> insights_kept d2 d3 -> insights_kept d1 d3.
Proof.
  intros (A1 & A2 & A3 & A4) (B1 & B2 & B3 & B4).
  split; [lia|]. split; [|split].
  - intros n Hn Hlt. apply B2; [apply A2; assumption|lia].
  - intros n doc Hn Hlt. destruct (A3 n doc Hn Hlt) as [H|H].
    + apply (B3 n doc H). lia.
    + right. apply B2; [exact H|lia].
  - intros Hb. apply B4, A4, Hb.
Qed.

(** A call that leaves the insights alone. *)
Lemma insights_kept_same d d' :
  insights d' = insights d -> next_id d <= next_id d' -> insights_kept d d'.
Proof.
  intros Hi Hn. split; [exact Hn|]. rewrite Hi. split; [auto|]. split; [auto|].
  intros Hb n doc H. pose proof (Hb n doc H) as Hlt. lia.
Qed.

Lemma insights_kept_updateStatus fails j s d :
  insights_kept d (snd (File_updateStatus fails j s d)).
Proof.
  unfold File_updateStatus. destruct fails; [apply insights_kept_refl|].
  destruct (files d !! j); [|apply insights_kept_refl].
  apply insights_kept_same; simpl; [reflexivity|lia].
Qed.

Lemma insights_kept_link fails j n d : insights_kept d (snd (File_link fails j n d)).
Proof.
  unfold File_link. destruct fails; [apply insights_kept_refl|].
  destruct (files d !! j); [|apply insights_kept_refl].
  apply insights_kept_same; simpl; [reflexivity|lia].
Qed.

Lemma insights_kept_create_insight cast fails doc d :
  insights_kept d (snd (create (fun id => AiInsight_save cast fails id doc) d)).
Proof.
  unfold create, newId, AiInsight_save, mbind, St_bind, mret, St_ret.
  destruct (confidence_cast cast (confidence doc)) as [q|];
    [|apply insights_kept_same; cbn [snd insights next_id]; [reflexivity|lia]].
  destruct fails;
    [apply insights_kept_same; cbn [snd insights next_id]; [reflexivity|lia]|].
  cbn [snd]. unfold insights_kept. cbn [insights next_id].
  split; [lia|]. split; [|split].
  - intros n Hn Hlt. rewrite lookup_insert_ne by lia. exact Hn.
  - intros n doc' Hn Hlt. left. rewrite lookup_insert_ne by lia. exact Hn.
  - intros Hb n doc' Hn. destruct (decide (next_id d = n)) as [<-|Hne]; [lia|].
    rewrite lookup_insert_ne in Hn by exact Hne. pose proof (Hb n doc' Hn). lia.
Qed.

Lemma insights_kept_create_file fails f d :
  insights_kept d (snd (create (fun id => File_save fails id f) d)).
Proof.
  unfold create, newId, File_save, mbind, St_bind, mret, St_ret.
  destruct fails; apply insights_kept_same; cbn [snd insights next_id];
    try reflexivity; lia.
Qed.

Lemma insights_kept_delete_insight fails n d :
  insights_kept d (snd (AiInsight_findByIdAndDelete fails n d)).
Proof.
  unfold AiInsight_findByIdAndDelete. destruct fails; [apply insights_kept_refl|].
  cbn [snd]. unfold insights_kept. cbn [insights next_id].
  split; [lia|]. split; [|split].
  - intros m Hm _. apply lookup_delete_None. right. exact Hm.
  - intros m doc Hm _. destruct (decide (n = m)) as [->|Hne].
    + right. apply lookup_delete_eq.
    + left. rewrite lookup_delete_ne by exact Hne. exact Hm.
  - intros Hb m doc Hm. apply lookup_delete_Some in Hm as [_ Hm]. exact (Hb m doc Hm).
Qed.

Lemma insights_kept_delete_file fails j d :
  insights_kept d (snd (File_findByIdAndDelete fails j d)).
Proof.
  unfold File_findByIdAndDelete. destruct fails; [apply insights_kept_refl|].
  apply insights_kept_same; simpl; [reflexivity|lia].
Qed.

Lemma handle_keeps (r : request) : obeys insights_kept (Async.handle r).
Proof.
  assert (Hfailed : forall fails j,
            obeys insights_kept (await (File_updateStatus fails j Failed))).
  { intros fails j. apply obeys_await. intros d. apply insights_kept_updateStatus. }
  assert (Hrun : forall e fs j fp ft rt uid,
            obeys insights_kept (Async.processAIInsight e fs j fp ft rt uid)).
  { intros e fs j fp ft rt uid. unfold Async.processAIInsight.
    apply obeys_catch; [|intros; apply Hfailed].
    apply obeys_mbind; [apply obeys_await; intros d; apply insights_kept_updateStatus|].
    intros _. apply obeys_mbind.
    { apply obeys_await. intros d. unfold File_findById.
      destruct (fail_find fs); apply insights_kept_refl. }
    intros [file|]; [|exact I]. cbv zeta.
    apply obeys_mbind.
    { apply obeys_await. intros d. apply insights_kept_refl. }
    intros r'. apply obeys_mbind.
    { apply obeys_await. intros d. apply insights_kept_create_insight. }
    intros id. apply obeys_await. intros d. apply insights_kept_link. }
  assert (Hfind : forall fails j user,
            obeys insights_kept (await (File_findOne fails j user))).
  { intros fails j user. apply obeys_await. intros d. unfold File_findOne.
    destruct fails; apply insights_kept_refl. }
  destruct r as [e fs valid ffs user req|cast fs elapsed j user|f1 f2 f3 j user];
    unfold Async.handle.
  - unfold Async.uploadRoute. apply obeys_catch; [|intros; exact I].
    destruct valid; [|exact I].
    apply obeys_mbind; [apply obeys_await; intros d; apply insights_kept_create_file|].
    intros id. split; [apply Hrun|exact I].
  - unfold Async.analyzeFileRoute. apply obeys_catch.
    + apply obeys_mbind; [apply Hfind|]. intros [file|]; [|exact I].
      destruct (isProcessed file && bool_decide (is_Some (aiInsight file)));
        [exact I|].
      apply obeys_mbind; [apply obeys_await; intros d; apply insights_kept_updateStatus|].
      intros _. apply obeys_mbind.
      { apply obeys_await. intros d. apply insights_kept_create_insight. }
      intros id. apply obeys_mbind; [|intros; exact I].
      apply obeys_await. intros d. apply insights_kept_link.
    + intros _. apply obeys_mbind; [apply Hfailed|intros; exact I].
  - unfold Async.deleteRoute. apply obeys_catch; [|intros; exact I].
    apply obeys_mbind; [apply Hfind|]. intros [file|]; [|exact I].
    apply obeys_mbind.
    { destruct (aiInsight file) as [n|]; [|exact I].
      apply obeys_await. intros d. apply insights_kept_delete_insight. }
    intros _. apply obeys_mbind; [|intros; exact I].
    apply obeys_await. intros d. apply insights_kept_delete_file.
Qed.

Lemma insights_bounded (es : list event) :
  forall n doc, insights (store (schedule es)) !! n = Some doc ->
                n < next_id (store (schedule es)).
Proof.
  pose proof (obeys_later insights_kept insights_kept_refl handle_keeps
                insights_kept_trans [] es) as (_ & _ & _ & H).
  apply H. intros n doc Hn. simpl in Hn. rewrite lookup_empty in Hn. discriminate.
Qed.

(** Among uploads, their background runs, manual analyses and deletions,
    in whatever order they take their turns and whichever calls fail: an
    insight that is in the store is never written again. Whatever happens
    later, it is in the store as it was, or it is not in the store. *)
Theorem insight_never_rewritten (es es' : list event) (n : oid) (doc : AiInsight) :
  insights (store (schedule es)) !! n = Some doc ->
  insights (store (schedule (es ++ es'))) !! n = Some doc
  \/ insights (store (schedule (es ++ es'))) !! n = None.
Proof.
  intros Hn.
  pose proof (obeys_later insights_kept insights_kept_refl handle_keeps
                insights_kept_trans es es') as (_ & _ & H & _).
  exact (H n doc Hn (insights_bounded es n doc Hn)).
Qed.

Lemma insight_never_rewritten_example :
  exists doc,
    insights (store (schedule Schedules.overlapping)) !! 1 = Some doc
    /\ insights (store (schedule Schedules.overlapped)) !! 1 = Some doc.
Proof.
  assert (Hi : is_Some (insights (store (schedule Schedules.overlapping)) !! 1)).
  { vm_compute. eexists. reflexivity. }
  destruct Hi as [doc Hdoc]. exists doc. split; [exact Hdoc|].
  destruct (insight_never_rewritten Schedules.overlapping [Turn 1; Turn 1] 1 doc Hdoc)
    as [H|H]; [exact H|].
  exfalso. vm_compute in H. discriminate H.
Defined.

End Guarantee.

(** ** Every such sequence of statuses is written in some schedule *)

Section Reached.
Import Store Gemini Pipeline Async.

(** The manual analysis of file 0 by its owner, once its lookup has found
    the file not processed; then once it has written [processing]; and
    the manual analysis whose lookup has thrown. *)
Definition answer (c : N) (s : bool) (m : string) : response :=
  {| code := c; ok := s; message := u m |}.

Definition on_error : exn -> proc response :=
  fun _ =>
    await (File_updateStatus false 0 Failed) ;;
    Ret (answer 500 false "AI analysis failed").

Definition at_save : proc response :=
  try_catch
    (id ← await (create (fun id =>
                   AiInsight_save (fun _ => None) false id
                     (sampleInsight 0 7 3000))) ;
     await (File_link false 0 id) ;;
     Ret (answer 200 true "AI analysis completed successfully"))
    on_error.

Definition at_processing : proc response :=
  try_catch
    (await (File_updateStatus false 0 Processing) ;;
     id ← await (create (fun id =>
                   AiInsight_save (fun _ => None) false id
                     (sampleInsight 0 7 3000))) ;
     await (File_link false 0 id) ;;
     Ret (answer 200 true "AI analysis completed successfully"))
    on_error.

Definition at_failed : proc response := on_error DbError.

(** The request that will write the status [s], and its handler after the
    lookup. For [Completed] it is the one that writes [Processing]
    first. *)
Definition request_for (s : status) : request :=
  match s with
  | Failed => Examples.analyze_lookup_fails
  | _ => Examples.analyze
  end.

Definition armed (s : status) : thread :=
  Handler (match s with Failed => at_failed | _ => at_processing end).

Lemma arm (s : status) (d : db) (file : File) :
  files d !! 0 = Some file -> f_user file = 7 -> isProcessed file = false ->
  advance (Async.handle (request_for s)) d
  = (match s with Failed => at_failed | _ => at_processing end, d, []).
Proof.
  intros Hf Hu Hp.
  assert (H : advance (Async.handle Examples.analyze) d = (at_processing, d, [])).
  { unfold Async.handle, Examples.analyze, Async.analyzeFileRoute, no_faults.
    cbn [advance try_catch bind await mbind proc_bind fail_find
         fail_mark_processing fail_save fail_link fail_mark_failed].
    unfold File_findOne. rewrite Hf, Hu. cbn [fst snd N.eqb Pos.eqb].
    cbn [try_catch bind]. rewrite Hp. reflexivity. }
  destruct s; try exact H. reflexivity.
Qed.

Definition sample_saved (d : db) : db :=
  with_insights
    (<[next_id d := with_confidence 88 (sampleInsight 0 7 3000)]> (insights d))
    (drawn d).

Lemma turn_processing d f :
  files d !! 0 = Some f ->
  advance at_processing d
  = (at_save, written 0 (set_status Processing f) Processing d, []).
Proof.
  intros Hf. unfold at_processing.
  cbn [advance try_catch bind await mbind proc_bind].
  unfold File_updateStatus. rewrite Hf. reflexivity.
Qed.

Lemma turn_failed d f :
  files d !! 0 = Some f ->
  advance at_failed d
  = (Ret (answer 500 false "AI analysis failed"),
     written 0 (set_status Failed f) Failed d, []).
Proof.
  intros Hf. unfold at_failed, on_error.
  cbn [advance try_catch bind await mbind proc_bind].
  unfold File_updateStatus. rewrite Hf. reflexivity.
Qed.

Lemma turn_save_link d f :
  files d !! 0 = Some f ->
  exists p,
    advance at_save d = (p, sample_saved d, [])
    /\ advance p (sample_saved d)
       = (Ret (answer 200 true "AI analysis completed successfully"),
          written 0 (set_completed (next_id d) f) Completed (sample_saved d), []).
Proof.
  intros Hf. unfold at_save.
  cbn [advance try_catch bind await mbind proc_bind].
  eexists. split.
  - reflexivity.
  - assert (E : create (fun id => AiInsight_save (fun _ => None) false id
                                    (sampleInsight 0 7 3000)) d
                = (Normal (next_id d), sample_saved d)) by reflexivity.
    rewrite E. cbn [fst snd try_catch bind advance].
    unfold File_link, sample_saved. cbn [files with_insights drawn].
    rewrite Hf. reflexivity.
Qed.

Lemma next_turn (c : config) (n : nat) (p p' : proc response) (d' : db) :
  pool c !! n = Some (Handler p) ->
  advance p (store c) = (p', d', []) ->
  next c (Turn n) = {| store := d'; pool := <[n := Handler p']> (pool c) |}.
Proof.
  intros Hn Ha. simpl. rewrite Hn. simpl. rewrite Ha, app_nil_r. reflexivity.
Qed.

(** The requests arrive, and each handler makes its lookup. *)
Lemma arrivals (ls : list status) :
  forall (c : config) (file : File),
    files (store c) !! 0 = Some file -> f_user file = 7 ->
    isProcessed file = false ->
    exists es,
      fold_left next es c
      = {| store := store c; pool := pool c ++ map armed ls |}.
Proof.
  induction ls as [|s ls IH]; intros c file Hf Hu Hp.
  - exists []. simpl. rewrite app_nil_r. destruct c; reflexivity.
  - set (c1 := {| store := store c; pool := pool c ++ [armed s] |}).
    destruct (IH c1 file Hf Hu Hp) as (es & Hes).
    exists (Arrive (request_for s) :: Turn (length (pool c)) :: es).
    cbn [fold_left].
    assert (E : next (next c (Arrive (request_for s))) (Turn (length (pool c))) = c1).
    { erewrite next_turn.
      - unfold c1. cbn [store pool next]. f_equal.
        rewrite insert_app_r_alt by lia. rewrite Nat.sub_diag. reflexivity.
      - cbn [next pool]. rewrite lookup_app_r by lia. rewrite Nat.sub_diag.
        reflexivity.
      - cbn [next store]. exact (arm s (store c) file Hf Hu Hp). }
    rewrite E, Hes. unfold c1. cbn [store pool]. f_equal.
    rewrite <- app_assoc. reflexivity.
Qed.

(** The handlers write the statuses [w2], after [w1] has been written:
    thread [b + p] is the one whose letter is at place [p], [open] are
    the threads that have written [Processing] and not yet
    [Completed]. *)
Lemma play (b : nat) (w2 : list status) :
  forall (w1 : list status) (open : list nat) (c : config),
    is_Some (files (store c) !! 0) ->
    trace 0 (history (store c)) = Pending :: w1 ->
    (forall p s, w2 !! p = Some s ->
       pool c !! (b + length w1 + p)%nat = Some (armed s)) ->
    (forall n, In n open ->
       pool c !! n = Some (Handler at_save) /\ (n < b + length w1)%nat) ->
    NoDup open ->
    started (length open) w2 = true ->
    exists es,
      trace 0 (history (store (fold_left next es c))) = Pending :: w1 ++ w2.
Proof.
  induction w2 as [|s w2 IH]; intros w1 open c [f Hf] Ht Harmed Hopen Hnd Hst.
  - exists []. simpl. rewrite app_nil_r. exact Ht.
  - assert (Hlater : forall (c' : config) (n : nat) (t : thread),
              pool c' = <[n := t]> (pool c) -> (n <= b + length w1)%nat ->
              forall p s', w2 !! p = Some s' ->
                pool c' !! (b + length (w1 ++ [s]) + p)%nat = Some (armed s')).
    { intros c' n t Hpool Hn p s' Hp. rewrite Hpool, length_app. simpl.
      rewrite list_lookup_insert_ne by lia.
      replace (b + (length w1 + 1) + p)%nat with (b + length w1 + S p)%nat by lia.
      apply Harmed. exact Hp. }
    assert (Hhere : pool c !! (b + length w1)%nat = Some (armed s)).
    { replace (b + length w1)%nat with (b + length w1 + 0)%nat by lia.
      apply Harmed. reflexivity. }
    assert (Hfinish : forall c',
              (exists es', trace 0 (history (store (fold_left next es' c')))
                           = Pending :: (w1 ++ [s]) ++ w2) ->
              forall es0, fold_left next es0 c = c' ->
              exists es, trace 0 (history (store (fold_left next es c)))
                         = Pending :: w1 ++ s :: w2).
    { intros c' (es' & H) es0 E. exists (es0 ++ es').
      rewrite fold_left_app, E, H, <- app_assoc. reflexivity. }
    destruct s; simpl in Hst; try discriminate.
    + (* processing *)
      set (n := (b + length w1)%nat) in *.
      pose proof (next_turn c n _ _ _ Hhere (turn_processing _ f Hf)) as E.
      refine (Hfinish _ _ [Turn n] E).
      apply (IH (w1 ++ [Processing]) (n :: open)).
      * eexists. cbn [store written files]. apply lookup_insert_eq.
      * cbn [store]. rewrite trace_written, Ht. reflexivity.
      * apply (Hlater _ n (Handler at_save)); [reflexivity|lia].
      * intros m [<-|Hm].
        -- split; [|rewrite length_app; simpl; lia].
           cbn [pool]. apply list_lookup_insert_eq.
           exact (lookup_lt_Some _ _ _ Hhere).
        -- destruct (Hopen m Hm) as [H1 H2]. split; [|rewrite length_app; lia].
           cbn [pool]. rewrite list_lookup_insert_ne by (unfold n; lia). exact H1.
      * constructor; [|exact Hnd]. intros Hin%list_elem_of_In.
        destruct (Hopen n Hin) as [_ H].
        unfold n in H. lia.
      * exact Hst.
    + (* completed *)
      destruct open as [|m open]; [discriminate|]. simpl in Hst.
      destruct (Hopen m (or_introl eq_refl)) as [Hm Hlt].
      destruct (turn_save_link (store c) f Hf) as (p & Hp1 & Hp2).
      pose proof (next_turn c m _ _ _ Hm Hp1) as E1.
      set (c1 := {| store := sample_saved (store c);
                    pool := <[m := Handler p]> (pool c) |}) in *.
      assert (Hm1 : pool c1 !! m = Some (Handler p)).
      { apply list_lookup_insert_eq. exact (lookup_lt_Some _ _ _ Hm). }
      pose proof (next_turn c1 m _ _ _ Hm1 Hp2) as E2.
      assert (E : fold_left next [Turn m; Turn m] c
                  = {| store := written 0 (set_completed (next_id (store c)) f)
                                  Completed (sample_saved (store c));
                       pool := <[m := Handler (Ret (answer 200 true
                                  "AI analysis completed successfully"))]> (pool c1) |})
        by (cbn [fold_left]; rewrite E1; exact E2).
      refine (Hfinish _ _ [Turn m; Turn m] E).
      inversion Hnd as [|? ? Hnotin Hnd']; subst.
      apply (IH (w1 ++ [Completed]) open).
      * eexists. cbn [store written files]. apply lookup_insert_eq.
      * cbn [store]. rewrite trace_written. cbn [history sample_saved with_insights drawn].
        rewrite Ht. reflexivity.
      * apply (Hlater _ m (Handler (Ret (answer 200 true "AI analysis completed successfully"))));
          [|lia].
        cbn [pool c1]. unfold c1. cbn [pool]. apply list_insert_insert_eq.
      * intros k Hk. destruct (Hopen k (or_intror Hk)) as [H1 H2].
        split; [|rewrite length_app; lia].
        cbn [pool]. unfold c1. cbn [pool].
        rewrite !list_lookup_insert_ne
          by (intros ->; apply Hnotin, list_elem_of_In, Hk).
        exact H1.
      * exact Hnd'.
      * exact Hst.
    + (* failed *)
      set (n := (b + length w1)%nat) in *.
      pose proof (next_turn c n _ _ _ Hhere (turn_failed _ f Hf)) as E.
      refine (Hfinish _ _ [Turn n] E).
      apply (IH (w1 ++ [Failed]) open).
      * eexists. cbn [store written files]. apply lookup_insert_eq.
      * cbn [store]. rewrite trace_written, Ht. reflexivity.
      * apply (Hlater _ n (Handler (Ret (answer 500 false "AI analysis failed"))));
          [reflexivity|lia].
      * intros m Hm. destruct (Hopen m Hm) as [H1 H2].
        split; [|rewrite length_app; lia].
        cbn [pool]. rewrite list_lookup_insert_ne by (unfold n; lia). exact H1.
      * exact Hnd.
      * exact Hst.
Qed.

(** The status sequences of the first file that is uploaded are exactly
    those of [lifecycle]: [pending], then any sequence in which
    [completed] is at no moment written more often than [processing]. *)
Theorem lifecycle_exact (w : list status) :
  (exists es, trace 0 (history (store (schedule es))) = Pending :: w)
  <-> started 0 w = true.
Proof.
  split.
  - intros (es & H). destruct (inv_schedule 0 es) as (gs & Hinv).
    pose proof (inv_trace 0 _ _ Hinv) as Ht. rewrite H in Ht. exact Ht.
  - intros Hw.
    set (c0 := schedule [Arrive (Examples.upload Examples.labelled_result); Turn 0]).
    assert (Hf : files (store c0) !! 0 = Some (newFile 7 Examples.report))
      by (vm_compute; reflexivity).
    assert (Ht : trace 0 (history (store c0)) = [Pending])
      by (vm_compute; reflexivity).
    assert (Hl : length (pool c0) = 1%nat) by (vm_compute; reflexivity).
    destruct (arrivals w c0 _ Hf eq_refl eq_refl) as (es1 & H1).
    destruct (play 1 w [] [] (fold_left next es1 c0)) as (es2 & H2).
    + rewrite H1. cbn [store]. rewrite Hf. eexists. reflexivity.
    + rewrite H1. exact Ht.
    + intros p s Hp. rewrite H1. cbn [pool length].
      rewrite lookup_app_r by lia. rewrite Hl.
      replace (1 + 0 + p - 1)%nat with p by lia.
      rewrite list_lookup_fmap, Hp. reflexivity.
    + intros n [].
    + constructor.
    + exact Hw.
    + exists ([Arrive (Examples.upload Examples.labelled_result); Turn 0]
              ++ es1 ++ es2).
      unfold schedule. rewrite !fold_left_app. exact H2.
Qed.

End Reached.

(* ===================================================================== *)
(** * More on config/gemini.js                                            *)
(* ===================================================================== *)

Section Extraction.
Import JSON Gemini.

Lemma from_first_lbrace_first s :
  from_first_lbrace s = [] /\ ~ In 123 s
  \/ exists a r, s = a ++ 123 :: r /\ ~ In 123 a /\ from_first_lbrace s = 123 :: r.
Proof.
  induction s as [|c s IH]; simpl.
  - left. split; [reflexivity|tauto].
  - destruct (N.eqb_spec c 123) as [->|Hc].
    + right. exists [], s. split; [reflexivity|]. split; [intros []|reflexivity].
    + destruct IH as [[IH Hn]|(a & r & Hs & Ha & Hf)].
      * left. split; [exact IH|]. intros [E|H]; [congruence|tauto].
      * right. exists (c :: a), r. split; [simpl; congruence|].
        split; [|exact Hf]. intros [E|H]; [congruence|tauto].
Qed.

Lemma upto_last_rbrace_last s b :
  upto_last_rbrace s = Some b ->
  exists m c, b = m ++ [125] /\ s = b ++ c /\ ~ In 125 c.
Proof.
  revert b. induction s as [|x s IH]; simpl; intros b H; [discriminate|].
  destruct (upto_last_rbrace s) as [r|] eqn:E.
  - injection H as <-. destruct (IH r eq_refl) as (m & c & -> & Hs & Hc).
    exists (x :: m), c. split; [reflexivity|]. split; [simpl; congruence|exact Hc].
  - destruct (N.eqb_spec x 125) as [->|Hx]; [|discriminate].
    injection H as <-. exists [], s. split; [reflexivity|]. split; [reflexivity|].
    apply upto_last_rbrace_None. exact E.
Qed.

(** The block that [parseGeminiResponse] hands to [JSON.parse] is the
    part of the text from its first opening brace to its last closing
    brace: no opening brace comes before it and no closing brace after
    it. *)
Theorem match_json_block_extent (text block : jstring) :
  match_json_block text = Some block ->
  exists a m c,
    text = a ++ block ++ c
    /\ block = 123 :: m ++ [125]
    /\ ~ In 123 a /\ ~ In 125 c.
Proof.
  unfold match_json_block. intros H.
  destruct (from_first_lbrace_first text) as [[E _]|(a & r & Ht & Ha & E)];
    rewrite E in H; [discriminate|].
  destruct (upto_last_rbrace_last _ _ H) as (m & c & Hb & Hs & Hc).
  destruct m as [|x m].
  - simpl in Hb. subst block. discriminate Hs.
  - assert (x = 123) as -> by (subst block; injection Hs as ->; reflexivity).
    exists a, m, c. split; [rewrite Ht, Hs; reflexivity|].
    split; [exact Hb|]. split; assumption.
Qed.

Lemma match_json_block_extent_example :
  exists a m c,
    u "Sure! {'a': {'b': 1}} Hope this helps }:-)" =
      a ++ u "{'a': {'b': 1}} Hope this helps }" ++ c
    /\ u "{'a': {'b': 1}} Hope this helps }" = 123 :: m ++ [125]
    /\ ~ In 123 a /\ ~ In 125 c.
Proof.
  apply (match_json_block_extent
           (u "Sure! {'a': {'b': 1}} Hope this helps }:-)")).
  vm_compute. reflexivity.
Defined.

Lemma lex_go_tokens s : forall m acc ts,
  lex_go m acc s = Some ts -> exists ts', ts = rev acc ++ ts'.
Proof.
  induction s as [|c s IH]; intros m acc ts; simpl.
  - destruct (lex_end m) as [te|]; [|discriminate]. intros [= <-].
    exists te. rewrite rev_app_distr, rev_involutive. reflexivity.
  - destruct (lex_step m c) as [[t1 m']|]; [|discriminate]. intros H.
    destruct (IH _ _ _ H) as (ts' & ->). exists (t1 ++ ts').
    rewrite rev_app_distr, rev_involutive, <- app_assoc. reflexivity.
Qed.

(** The open arrays and objects, innermost first: is the outermost one an
    object? *)
Fixpoint bottom (stk : list frame) : bool :=
  match stk with
  | [] => false
  | [FObj _ _] => true
  | [FArr _] => false
  | _ :: stk' => bottom stk'
  end.

Definition is_object (v : json) : bool :=
  match v with JObject _ => true | _ => false end.

(** The parser is reading an object at the top level. *)
Definition in_object (st : pstate) : bool :=
  match st with
  | PValue stk | PArrFirst stk => bottom stk
  | PObjFirst stk | PObjKey _ stk | PColon _ _ stk =>
      match stk with [] => true | _ => bottom stk end
  | PAfter v stk => match stk with [] => is_object v | _ => bottom stk end
  end.

Lemma bottom_cons fr stk : stk <> [] -> bottom (fr :: stk) = bottom stk.
Proof. destruct stk; [contradiction|]. destruct fr; reflexivity. Qed.

Lemma bottom_nonempty stk : bottom stk = true -> stk <> [].
Proof. destruct stk; [discriminate|discriminate]. Qed.

Lemma value_token_in_object t stk st :
  bottom stk = true -> value_token t stk = Some st -> in_object st = true.
Proof.
  intros Hb H. pose proof (bottom_nonempty stk Hb) as Hne.
  destruct t; simpl in H; try discriminate; injection H as <-; simpl;
    try exact Hb; destruct stk; try contradiction; exact Hb.
Qed.

Lemma parse_step_in_object st t st' :
  in_object st = true -> parse_step st t = Some st' -> in_object st' = true.
Proof.
  intros Hg H. destruct st as [stk|stk|stk|props stk|props k stk|v stk]; simpl in *.
  - exact (value_token_in_object t stk st' Hg H).
  - pose proof (bottom_nonempty stk Hg) as Hne.
    destruct t; try discriminate;
      try (injection H as <-; simpl; try exact Hg;
           try (rewrite bottom_cons by exact Hne; exact Hg);
           destruct stk; [contradiction|exact Hg]).
  - destruct t; try discriminate; injection H as <-; exact Hg.
  - destruct t; try discriminate. injection H as <-. exact Hg.
  - destruct t; try discriminate. injection H as <-. simpl.
    destruct stk; [reflexivity|exact Hg].
  - destruct stk as [|[done|props k] stk']; [discriminate| |];
      destruct t; try discriminate; injection H as <-; simpl.
    + destruct stk'; [discriminate|]. exact Hg.
    + destruct stk'; [discriminate|]. exact Hg.
    + destruct stk'; [reflexivity|]. exact Hg.
    + destruct stk'; [reflexivity|]. exact Hg.
Qed.

Lemma parse_go_in_object ts : forall st v,
  in_object st = true -> parse_go st ts = Some v -> is_object v = true.
Proof.
  induction ts as [|t ts IH]; intros st v Hg H; simpl in H.
  - destruct st as [| | | | |v' [|? ?]]; try discriminate.
    injection H as <-. exact Hg.
  - destruct (parse_step st t) as [st'|] eqn:E; [|discriminate].
    exact (IH st' v (parse_step_in_object st t st' Hg E) H).
Qed.

(** [JSON.parse] of a text that starts with an opening brace gives an
    object, if anything. *)
Lemma parse_brace_object s v :
  JSON.parse (123 :: s) = Normal v -> is_object v = true.
Proof.
  unfold JSON.parse, lex. intros H.
  destruct (lex_go LStart [] (123 :: s)) as [ts|] eqn:El; [|discriminate].
  destruct (parse_tokens ts) as [v'|] eqn:Ep; [|discriminate]. injection H as ->.
  change (lex_go LStart [] (123 :: s)) with (lex_go LStart [TLBrace] s) in El.
  destruct (lex_go_tokens _ _ _ _ El) as (ts' & ->).
  exact (parse_go_in_object ts' (PObjFirst []) v eq_refl Ep).
Qed.

(** Whatever the text, [parseGeminiResponse] returns an object: never
    [null], an array, a string, a number or a boolean. The property reads
    of [processAIInsight] on the result cannot throw. *)
Theorem parseGeminiResponse_object (text : jstring) :
  exists props, parseGeminiResponse text = Normal (JObject props).
Proof.
  pose proof (parseGeminiResponse_cases text) as H.
  destruct (match_json_block text) as [block|] eqn:Hb.
  - destruct (JSON.parse block) as [v|e] eqn:Hp.
    + destruct (match_json_block_extent text block Hb) as (_ & m & _ & _ & -> & _).
      pose proof (parse_brace_object _ _ Hp) as Ho.
      destruct v; try discriminate. eexists. exact H.
    + eexists. exact H.
  - eexists. exact H.
Qed.

End Extraction.

Section Answers.
Import Gemini.

(** When the model answers, [analyzeMedicalReport] returns the normalized
    answer, not marked as fallback. For an image the model is given the
    bytes with the MIME type read from their first two bytes; otherwise it
    is given the prompt followed by the data. *)
Theorem analyzeMedicalReport_answer (gemini : model) (startTime endTime : Z)
    (fileData : file_data) (fileType reportType text : jstring) :
  gemini (match fileData with
          | Buffer bytes =>
              if str_eqb fileType (u "image")
              then WithImage fileType reportType bytes (detectMime bytes)
              else PromptOnly fileType reportType fileData
          | Text _ => PromptOnly fileType reportType fileData
          end) = Normal text ->
  (fileType = u "image" -> exists bytes, fileData = Buffer bytes) ->
  exists d,
    parseGeminiResponse text = Normal d
    /\ analyzeMedicalReport gemini startTime endTime fileData fileType reportType
       = Normal {| success := true; data := d;
                   processingTime := endTime - startTime; fallback := false |}.
Proof.
  intros Hg Himg.
  destruct (parseGeminiResponse_normal text) as (d & Hd). exists d.
  split; [exact Hd|].
  unfold analyzeMedicalReport, analyze_body, str_eqb in *.
  destruct (bool_decide (fileType = u "image")) eqn:E.
  - apply bool_decide_eq_true_1 in E. destruct (Himg E) as (bytes & ->).
    rewrite Hg. unfold respond. rewrite Hd. reflexivity.
  - assert (Hreq : gemini (PromptOnly fileType reportType fileData) = Normal text).
    { destruct fileData; exact Hg. }
    rewrite Hreq. unfold respond. rewrite Hd. reflexivity.
Qed.

Lemma analyzeMedicalReport_answer_png :
  exists d,
    parseGeminiResponse Examples.labelled_result = Normal d
    /\ analyzeMedicalReport
         (fun req =>
            match req with
            | WithImage _ _ _ ImagePng => Normal Examples.labelled_result
            | _ => Throw (Error (u "unexpected request"))
            end)
         0 1500 (Buffer [137; 80; 78; 71; 13; 10; 26; 10]) (u "image")
         (u "x-ray")
       = Normal {| success := true; data := d; processingTime := 1500;
                   fallback := false |}.
Proof.
  apply (analyzeMedicalReport_answer _ 0 1500
           (Buffer [137; 80; 78; 71; 13; 10; 26; 10]) (u "image") (u "x-ray")).
  - vm_compute. reflexivity.
  - intros _. eexists. reflexivity.
Defined.

End Answers.

(* ===================================================================== *)
(** * More on the routes                                                  *)
(* ===================================================================== *)

Section Routes.
Import Store Pipeline.

(** A user who does not own a file, or names a file that does not exist,
    gets 404 from the manual analysis and from the deletion, and the
    store stays as it is. *)
Theorem foreign_file_untouched (d : db) (fileId user : oid) :
  (forall f, files d !! fileId = Some f -> f_user f <> user) ->
  (forall cast fs elapsed, fail_find fs = false ->
     analyzeFileRoute cast fs elapsed fileId user d
     = (Normal {| code := 404; ok := false; message := u "File not found" |}, d))
  /\ (forall f2 f3,
       deleteRoute false f2 f3 fileId user d
       = (Normal {| code := 404; ok := false; message := u "File not found" |}, d)).
Proof.
  intros Hown.
  assert (Hfind : File_findOne false fileId user d = (Normal None, d)).
  { unfold File_findOne. destruct (files d !! fileId) as [f|] eqn:Hf; [|reflexivity].
    destruct (N.eqb_spec (f_user f) user) as [E|_]; [|reflexivity].
    exfalso. exact (Hown f eq_refl E). }
  split.
  - intros cast fs elapsed Hff.
    unfold analyzeFileRoute, try_catch_st, mbind, St_bind. rewrite Hff, Hfind.
    reflexivity.
  - intros f2 f3. unfold deleteRoute, try_catch_st, mbind, St_bind. rewrite Hfind.
    reflexivity.
Qed.

Lemma foreign_file_untouched_example :
  analyzeFileRoute (fun _ => None) no_faults 3000 0 8
    (run [Examples.upload Examples.labelled_result])
  = (Normal {| code := 404; ok := false; message := u "File not found" |},
     run [Examples.upload Examples.labelled_result]).
Proof.
  refine (proj1 (foreign_file_untouched _ 0 8 _) (fun _ => None) no_faults 3000%Z
            eq_refl).
  intros f Hf. vm_compute in Hf. injection Hf as <-. discriminate.
Defined.

(** A run of [processAIInsight] for a file that is not in the store
    changes nothing, whichever calls fail. *)
Theorem processAIInsight_missing_file (e : env) (fs : faults) (fileId : oid)
    (filePath fileType reportType : jstring) (userId : oid) (d : db) :
  files d !! fileId = None ->
  snd (processAIInsight e fs fileId filePath fileType reportType userId d) = d.
Proof.
  intros Hf.
  unfold processAIInsight, try_catch_st, process_body, mbind, St_bind,
    File_updateStatus, File_findById.
  rewrite !Hf.
  destruct (fail_mark_processing fs), (fail_find fs), (fail_mark_failed fs);
    unfold throw; cbn; rewrite ?Hf; reflexivity.
Qed.

Lemma processAIInsight_missing_file_example :
  snd (processAIInsight (Examples.answering Examples.labelled_result) no_faults 5
         (u "healthmate/cbc") (u "pdf") (u "blood-test") 7 empty_db) = empty_db.
Proof. apply processAIInsight_missing_file. reflexivity. Defined.

(** The paths of a File document that describe the upload. *)
Definition content (f : File) :=
  (f_user f, originalName f, fileUrl f, f_fileType f, f_reportType f,
   testDate f, labName f, doctorName f).

(** File [i] is in the store, with the content of [f]. *)
Definition kept (f : File) (i : oid) (d : db) : Prop :=
  exists g, files d !! i = Some g /\ content g = content f.

Lemma kept_updateStatus f i fails j s (Qe : db -> Prop) :
  (forall d, kept f i d -> Qe d) ->
  triple (kept f i) (File_updateStatus fails j s) (fun _ => kept f i) Qe.
Proof.
  intros HQ d Hk. unfold File_updateStatus.
  destruct fails; [exact (HQ d Hk)|].
  destruct (files d !! j) as [g|] eqn:Hg; [|exact Hk].
  destruct Hk as (g' & Hg' & Hc). unfold kept. simpl.
  destruct (decide (i = j)) as [->|Hne].
  - rewrite lookup_insert_eq. exists (set_status s g). split; [reflexivity|].
    rewrite Hg in Hg'. injection Hg' as <-. exact Hc.
  - rewrite lookup_insert_ne by congruence. exists g'. split; assumption.
Qed.

Lemma kept_link f i fails j insight (Qe : db -> Prop) :
  (forall d, kept f i d -> Qe d) ->
  triple (kept f i) (File_link fails j insight) (fun _ => kept f i) Qe.
Proof.
  intros HQ d Hk. unfold File_link.
  destruct fails; [exact (HQ d Hk)|].
  destruct (files d !! j) as [g|] eqn:Hg; [|exact Hk].
  destruct Hk as (g' & Hg' & Hc). unfold kept. simpl.
  destruct (decide (i = j)) as [->|Hne].
  - rewrite lookup_insert_eq. exists (set_completed insight g).
    split; [reflexivity|]. rewrite Hg in Hg'. injection Hg' as <-. exact Hc.
  - rewrite lookup_insert_ne by congruence. exists g'. split; assumption.
Qed.

Lemma kept_newId f i (Qe : db -> Prop) :
  triple (kept f i) newId (fun _ => kept f i) Qe.
Proof. intros d Hk. exact Hk. Qed.

Lemma kept_AiInsight_save f i cast fails id doc :
  triple (kept f i) (AiInsight_save cast fails id doc) (fun _ => kept f i)
    (kept f i).
Proof.
  intros d Hk. unfold AiInsight_save.
  destruct (confidence_cast cast (confidence doc)); [|exact Hk].
  destruct fails; exact Hk.
Qed.

(** The background run changes the processing paths of a file and
    nothing else of it. *)
Lemma kept_processAIInsight f i e fs j filePath fileType reportType userId :
  triple (kept f i)
    (processAIInsight e fs j filePath fileType reportType userId)
    (fun _ => kept f i) (kept f i).
Proof.
  unfold processAIInsight. apply triple_catch with (Qe := kept f i).
  - unfold process_body.
    eapply triple_bind; [apply kept_updateStatus; auto|]. intros ?.
    eapply triple_bind.
    { eapply triple_post; [apply (triple_findById _ _ (kept f i))| |auto].
      intros found d H. exact (proj1 H). }
    intros [file|]; [|apply triple_throw; auto].
    eapply triple_bind; [apply triple_lift|]. intros geminiResult.
    eapply triple_bind; [apply kept_newId|]. intros id.
    eapply triple_bind; [apply kept_AiInsight_save|]. intros ?.
    apply kept_link. auto.
  - intros ?. apply kept_updateStatus. auto.
Qed.

(** The answer to an upload does not wait for the analysis and does not
    depend on it: with valid input and a successful [file.save()] the
    answer is 201 whatever the model, the storage and the database do in
    the background run, and the file is in the store afterwards, under a
    new id, with the content that was uploaded. Invalid input is answered
    400 and changes nothing; a failing [file.save()] is answered 500 and
    stores nothing. *)
Theorem upload_answer (e : env) (fs : faults) (user : oid)
    (req : upload_request) (d : db) :
  (exists d',
     uploadRoute e fs true false user req d
     = (Normal {| code := 201; ok := true;
                  message := u "File uploaded successfully" |}, d')
     /\ kept (newFile user req) (next_id d) d')
  /\ (forall fail_file_save,
        uploadRoute e fs false fail_file_save user req d
        = (Normal {| code := 400; ok := false; message := u "Validation failed" |},
           d))
  /\ (exists d',
        uploadRoute e fs true true user req d
        = (Normal {| code := 500; ok := false; message := u "File upload failed" |},
           d')
        /\ files d' = files d /\ insights d' = insights d).
Proof.
  split; [|split; [reflexivity|eexists; split; [reflexivity|split; reflexivity]]].
  unfold uploadRoute, try_catch_st, mbind, St_bind, newId, File_save, detached.
  cbn [fst snd]. eexists. split; [reflexivity|].
  match goal with
  | |- kept _ _ (snd (processAIInsight ?e ?fs ?i ?a ?b ?c ?u ?d0)) =>
      pose proof (kept_processAIInsight (newFile user req) i e fs i a b c u d0) as H;
      destruct (processAIInsight e fs i a b c u d0) as [[x|err] d']; apply H
  end; (eexists; split; [apply lookup_insert_eq|reflexivity]).
Qed.

Lemma kept_analyzeFileRoute f i cast fs elapsed j user :
  triple (kept f i) (analyzeFileRoute cast fs elapsed j user)
    (fun _ => kept f i) (kept f i).
Proof.
  unfold analyzeFileRoute. apply triple_catch with (Qe := kept f i).
  - eapply (triple_bind _ _ _ (fun _ => kept f i)).
    { intros d Hk. unfold File_findOne. destruct (fail_find fs); exact Hk. }
    intros [file|]; [|apply triple_ret; auto].
    destruct (isProcessed file && bool_decide (is_Some (aiInsight file)));
      [apply triple_ret; auto|].
    eapply triple_bind; [apply kept_updateStatus; auto|]. intros ?.
    eapply triple_bind; [apply kept_newId|]. intros id.
    eapply triple_bind; [apply kept_AiInsight_save|]. intros ?.
    eapply triple_bind; [apply kept_link; auto|]. intros ?.
    apply triple_ret. auto.
  - intros ?. eapply triple_bind; [apply kept_updateStatus; auto|]. intros ?.
    apply triple_ret. auto.
Qed.

Lemma kept_uploadRoute f i e fs valid ffs user req :
  triple (fun d => kept f i d /\ i < next_id d)
    (uploadRoute e fs valid ffs user req) (fun _ => kept f i) (kept f i).
Proof.
  unfold uploadRoute. apply triple_catch with (Qe := kept f i).
  - destruct valid; [|apply triple_ret; tauto].
    eapply (triple_bind _ _ _ (fun id d => kept f i d /\ i < id)).
    { intros d [Hk Hi]. split; [exact Hk|exact Hi]. }
    intros id.
    eapply (triple_bind _ _ _ (fun _ => kept f i)).
    { intros d [(g & Hg & Hc) Hi]. unfold File_save.
      destruct ffs; [exists g; split; assumption|].
      exists g. split; [|exact Hc]. cbn [files].
      rewrite lookup_insert_ne by lia. exact Hg. }
    intros ?.
    eapply triple_bind; [apply triple_detached, kept_processAIInsight|].
    intros ?. apply triple_ret. auto.
  - intros ?. apply triple_ret. auto.
Qed.

(** No request changes what a file is: after any request, a file that was
    in the store is still there with its owner, name, URL, type, report
    type, date, laboratory and doctor, unless the request is the deletion
    of this very file by its owner. *)
Theorem content_stable (d : db) (r : request) (i : oid) (f : File) :
  files d !! i = Some f -> i < next_id d ->
  kept f i (step d r)
  \/ (files (step d r) !! i = None
      /\ exists f1 f2 f3, r = DeleteFile f1 f2 f3 i (f_user f)).
Proof.
  intros Hf Hi.
  assert (Hk : kept f i d) by (exists f; split; [exact Hf|reflexivity]).
  unfold step.
  destruct r as [e fs valid ffs user req|cast fs elapsed j user|f1 f2 f3 j user];
    cbn [handle].
  - left.
    pose proof (kept_uploadRoute f i e fs valid ffs user req d (conj Hk Hi)) as H.
    destruct (uploadRoute e fs valid ffs user req d) as [[x|err] d']; exact H.
  - left. pose proof (kept_analyzeFileRoute f i cast fs elapsed j user d Hk) as H.
    destruct (analyzeFileRoute cast fs elapsed j user d) as [[x|err] d']; exact H.
  - unfold deleteRoute, try_catch_st, mbind, St_bind, File_findOne.
    destruct f1; [left; exact Hk|].
    destruct (files d !! j) as [g|] eqn:Hg; [|left; exact Hk].
    destruct (N.eqb_spec (f_user g) user) as [Hu|_]; [|left; exact Hk].
    assert (Hdel : forall m b2 b3,
              kept f i {| files := delete j (files d); insights := m;
                          next_id := next_id d; history := history d |}
              \/ (delete j (files d) !! i = None
                  /\ exists f1 f2 f3,
                       DeleteFile false b2 b3 j user = DeleteFile f1 f2 f3 i (f_user f))).
    { intros m b2 b3. destruct (decide (i = j)) as [->|Hne].
      - right. split; [apply lookup_delete_eq|].
        rewrite Hf in Hg. injection Hg as <-. rewrite Hu. eauto.
      - left. exists f. split; [|reflexivity]. cbn [files].
        rewrite lookup_delete_ne by congruence. exact Hf. }
    destruct (aiInsight g) as [insight|]; cbn.
    + unfold AiInsight_findByIdAndDelete. destruct f2; [left; exact Hk|]. cbn.
      destruct f3; cbn; [left; exact Hk|]. apply (Hdel _ false false).
    + destruct f3; cbn; [left; exact Hk|]. apply (Hdel _ f2 false).
Qed.

Lemma content_stable_example :
  kept (newFile 7 Examples.report) 0
    (step (run [Examples.upload Examples.overconfident]) Examples.analyze).
Proof.
  destruct (content_stable (run [Examples.upload Examples.overconfident])
              Examples.analyze 0
              (set_status Failed (set_status Processing (newFile 7 Examples.report))))
    as [H|[_ (f1 & f2 & f3 & H)]].
  - vm_compute. reflexivity.
  - vm_compute. reflexivity.
  - exact H.
  - discriminate H.
Defined.







End Routes.

(* ===================================================================== *)
(** * More on models/Vitals.js                                            *)
(* ===================================================================== *)

Section OtherAlerts.
Import Vitals Ranges.
Local Open Scope string_scope.

(** The two tests of [checkNormalRanges] beside the five of C10: low
    blood pressure is reported exactly when a systolic reading is below 90
    or a diastolic reading below 60, and high post-meal sugar exactly when
    the reading is above 200. Both blood-pressure alerts are reported
    together when the readings call for both. *)
Theorem checkNormalRanges_low_and_post_meal (v : vitals) :
  (In "Low blood pressure detected" (checkNormalRanges v) <->
     exists bp, bloodPressure v = Some bp /\
       (below (systolic bp) 90 \/ below (diastolic bp) 60))
  /\ (In "High post-meal blood sugar" (checkNormalRanges v) <->
       exists bs, bloodSugar v = Some bs /\ above (postPrandial bs) 200)
  /\ (forall bp, bloodPressure v = Some bp ->
       above (systolic bp) 140 -> below (diastolic bp) 60 ->
       exists rest,
         checkNormalRanges v
         = "High blood pressure detected" :: "Low blood pressure detected" :: rest).
Proof.
  split; [|split].
  - rewrite alerts_low_bp. split; intros (bp & Hbp & H); exists bp; (split; [exact Hbp|]).
    + apply orb_true_iff in H. rewrite <- !lt_below. exact H.
    + apply orb_true_iff. rewrite !lt_below. exact H.
  - rewrite alerts_post_meal.
    split; intros (bs & Hbs & H); exists bs; (split; [exact Hbs|]);
      apply gt_above; exact H.
  - intros bp Hbp Hs Hd. apply gt_above in Hs. apply lt_below in Hd.
    unfold checkNormalRanges. rewrite Hbp, Hs, Hd, orb_true_r. simpl.
    eexists. reflexivity.
Qed.

(** The seven alerts, in the order of the tests. *)
Definition all_alerts : list string :=
  [ "High blood pressure detected"; "Low blood pressure detected";
    "High fasting blood sugar"; "High post-meal blood sugar";
    "Abnormal heart rate"; "Abnormal body temperature";
    "Low oxygen saturation" ].

Lemma sublist_alert_if c t : sublist (alert_if c t) [t].
Proof. destruct c; simpl; [reflexivity|apply sublist_nil_l]. Qed.

(** The alerts always come in the same order and none is repeated: the
    result is the list of the seven alerts with some of them left out. *)
Theorem checkNormalRanges_order (v : vitals) :
  sublist (checkNormalRanges v) all_alerts /\ (length (checkNormalRanges v) <= 7)%nat.
Proof.
  assert (H : sublist (checkNormalRanges v) all_alerts).
  { unfold checkNormalRanges, all_alerts.
    change [ "High blood pressure detected"; "Low blood pressure detected";
             "High fasting blood sugar"; "High post-meal blood sugar";
             "Abnormal heart rate"; "Abnormal body temperature";
             "Low oxygen saturation" ]
      with ((["High blood pressure detected"] ++ ["Low blood pressure detected"])
            ++ (["High fasting blood sugar"] ++ ["High post-meal blood sugar"])
            ++ ["Abnormal heart rate"] ++ ["Abnormal body temperature"]
            ++ ["Low oxygen saturation"])%list.
    repeat apply sublist_app.
    - destruct (bloodPressure v); [|apply sublist_nil_l].
      apply sublist_app; apply sublist_alert_if.
    - destruct (bloodSugar v); [|apply sublist_nil_l].
      apply sublist_app; apply sublist_alert_if.
    - destruct (heartRate v); [apply sublist_alert_if|apply sublist_nil_l].
    - destruct (temperature v); [apply sublist_alert_if|apply sublist_nil_l].
    - destruct (oxygenSaturation v); [apply sublist_alert_if|apply sublist_nil_l]. }
  split; [exact H|]. apply sublist_length in H. exact H.
Qed.

End OtherAlerts.

(* ===================================================================== *)
(** * models/AiInsight.js and models/File.js                              *)
(* ===================================================================== *)

Section InsightMethods.
Import Insight.

Lemma is_string_true o s : is_string o s = true <-> o = Some (JString s).
Proof.
  unfold is_string, str_eqb. destruct o as [[| | |t| |]|]; try (split; discriminate).
  rewrite bool_decide_eq_true. split; [intros ->; reflexivity|intros [= ->]; reflexivity].
Qed.

Lemma filter_length_pos {A} (f : A -> bool) l :
  (0 < length (List.filter f l))%nat <-> exists x, In x l /\ f x = true.
Proof.
  split.
  - destruct (List.filter f l) as [|x t] eqn:E; [simpl; lia|]. intros _.
    exists x. apply filter_In. rewrite E. left. reflexivity.
  - intros (x & Hx & Hf). assert (Hin : In x (List.filter f l)) by (apply filter_In; auto).
    destruct (List.filter f l); [destruct Hin|simpl; lia].
Qed.

Lemma filter_length_submseteq {A} (f : A -> bool) (l1 l2 : list A) :
  l1 ⊆+ l2 -> (length (List.filter f l1) <= length (List.filter f l2))%nat.
Proof.
  induction 1 as [|x l1 l2 _ IH|x y l|x l1 l2 _ IH|l1 l2 l3 _ IH1 _ IH2]; simpl.
  - lia.
  - destruct (f x); simpl; lia.
  - destruct (f x), (f y); simpl; lia.
  - destruct (f x); simpl; lia.
  - lia.
Qed.

(** The levels in order. *)
Definition risk_rank (level : jstring) : nat :=
  if str_eqb level (u "high") then 2
  else if str_eqb level (u "medium") then 1 else 0.

(** [overallRiskLevel] is high exactly when some risk factor is high,
    and otherwise medium exactly when at least three are medium; it does
    not depend on the order of the risk factors, and more risk factors
    never lower it. *)
Theorem overallRiskLevel_spec (riskFactors : list json) :
  (overallRiskLevel riskFactors = u "high" <->
     exists rf, In rf riskFactors /\ get rf (u "level") = Some (JString (u "high")))
  /\ (overallRiskLevel riskFactors = u "medium" <->
       (forall rf, In rf riskFactors ->
          get rf (u "level") <> Some (JString (u "high")))
       /\ (3 <= length (List.filter (fun rf => has_level "medium" rf)
                          riskFactors))%nat)
  /\ (forall more, riskFactors ⊆+ more ->
       (risk_rank (overallRiskLevel riskFactors)
        <= risk_rank (overallRiskLevel more))%nat).
Proof.
  unfold overallRiskLevel.
  assert (Hhigh : forall l,
            (0 <? length (List.filter (fun rf => has_level "high" rf) l))%nat = true
            <-> exists rf, In rf l /\ get rf (u "level") = Some (JString (u "high"))).
  { intros l. rewrite Nat.ltb_lt, filter_length_pos.
    split; intros (rf & Hin & H); exists rf; (split; [exact Hin|]);
      apply is_string_true; exact H. }
  split; [|split].
  - rewrite <- Hhigh.
    destruct (0 <? length (List.filter (fun rf => has_level "high" rf) riskFactors))%nat;
      [tauto|].
    destruct (2 <? _)%nat; split; discriminate.
  - destruct (0 <? length (List.filter (fun rf => has_level "high" rf) riskFactors))%nat
      eqn:E.
    + split; [discriminate|]. intros [Hno _]. apply Hhigh in E as (rf & Hin & H).
      exfalso. exact (Hno rf Hin H).
    + assert (Hno : forall rf, In rf riskFactors ->
                      get rf (u "level") <> Some (JString (u "high"))).
      { intros rf Hin H. assert (Ht : (0 <? length (List.filter (fun rf => has_level "high" rf) riskFactors))%nat = true)
          by (apply Hhigh; eauto). congruence. }
      destruct (2 <? length (List.filter (fun rf => has_level "medium" rf) riskFactors))%nat
        eqn:E2.
      * apply Nat.ltb_lt in E2. split; [|reflexivity]. intros _. split; [exact Hno|lia].
      * apply Nat.ltb_ge in E2. split; [discriminate|]. intros [_ H]. lia.
  - intros more Hsub.
    pose proof (filter_length_submseteq (fun rf => has_level "high" rf) _ _ Hsub) as H1.
    pose proof (filter_length_submseteq (fun rf => has_level "medium" rf) _ _ Hsub) as H2.
    destruct (Nat.ltb_spec 0 (length (List.filter (fun rf => has_level "high" rf) riskFactors)));
      destruct (Nat.ltb_spec 0 (length (List.filter (fun rf => has_level "high" rf) more)));
      destruct (Nat.ltb_spec 2 (length (List.filter (fun rf => has_level "medium" rf) riskFactors)));
      destruct (Nat.ltb_spec 2 (length (List.filter (fun rf => has_level "medium" rf) more)));
      try lia; vm_compute; lia.
Qed.

Lemma sublist_filter {A} (f : A -> bool) l : sublist (List.filter f l) l.
Proof.
  induction l as [|x l IH]; simpl; [constructor|].
  destruct (f x); [apply sublist_skip|apply sublist_cons]; exact IH.
Qed.

(** The critical and the normal findings are findings of the insight, in
    their order, and no finding is both. A finding whose status is high
    or low is in neither list. *)
Theorem findings_lists (keyFindings : list json) :
  sublist (getCriticalFindings keyFindings) keyFindings
  /\ sublist (getNormalFindings keyFindings) keyFindings
  /\ (forall finding, In finding (getCriticalFindings keyFindings) ->
       ~ In finding (getNormalFindings keyFindings))
  /\ (forall finding,
       get finding (u "status") = Some (JString (u "high"))
       \/ get finding (u "status") = Some (JString (u "low")) ->
       ~ In finding (getCriticalFindings keyFindings)
       /\ ~ In finding (getNormalFindings keyFindings)).
Proof.
  unfold getCriticalFindings, getNormalFindings.
  split; [apply sublist_filter|]. split; [apply sublist_filter|]. split.
  - intros finding H1 H2. apply filter_In in H1 as [_ H1]. apply filter_In in H2 as [_ H2].
    unfold has_status in *. apply is_string_true in H2.
    rewrite H2 in H1. vm_compute in H1. discriminate H1.
  - intros finding H. split; intros Hin; apply filter_In in Hin as [_ Hin];
      unfold has_status in Hin; destruct H as [H|H]; rewrite H in Hin;
      vm_compute in Hin; discriminate Hin.
Qed.

End InsightMethods.

Section Age.
Import FileAge.
Local Open Scope Z_scope.

(** A file is recent exactly when less than 31 days lie between its test
    date and now; a test date in the future counts as recent. *)
Theorem isRecent_spec (now testDate : Z) :
  (isRecent now testDate = true <-> now - testDate < 31 * msPerDay)
  /\ (now <= testDate -> isRecent now testDate = true).
Proof.
  assert (H : isRecent now testDate = true <-> now - testDate < 31 * msPerDay).
  { unfold isRecent, ageInDays. rewrite Z.leb_le.
    assert (Hd : msPerDay = 86400000) by reflexivity. rewrite Hd.
    pose proof (Z.div_mod (now - testDate) 86400000 ltac:(lia)).
    pose proof (Z.mod_pos_bound (now - testDate) 86400000 ltac:(lia)).
    lia. }
  split; [exact H|]. intros Hle. apply H.
  assert (Hd : msPerDay = 86400000) by reflexivity. rewrite Hd. lia.
Qed.

End Age.

(* ===================================================================== *)
(** * analyzeVitals and the upload filter                                 *)
(* ===================================================================== *)

Section VitalsReport.
Import Gemini VitalsAnalysis.

(** [analyzeVitals] never throws. It fails exactly when asking the model
    throws, and then reports the message of the exception; when the model
    answers, the data is what [parseGeminiResponse] makes of the answer,
    an object in every case, and for an answer without a block it is the
    record meant for a medical report. *)
Theorem analyzeVitals_report (gemini : json -> completion jstring) (vitalsData : json) :
  (forall e, gemini vitalsData = Throw e ->
     analyzeVitals gemini vitalsData
     = Normal {| success := false; data := None; error := Some (message e) |})
  /\ (forall text, gemini vitalsData = Normal text ->
       exists props,
         parseGeminiResponse text = Normal (JObject props)
         /\ analyzeVitals gemini vitalsData
            = Normal {| success := true; data := Some (JObject props);
                        error := None |})
  /\ (forall text, gemini vitalsData = Normal text -> ~ has_block text ->
       analyzeVitals gemini vitalsData
       = Normal {| success := true; data := Some (noJsonResponse text);
                   error := None |}).
Proof.
  unfold analyzeVitals. split; [|split].
  - intros e ->. reflexivity.
  - intros text ->. destruct (parseGeminiResponse_object text) as (props & Hp).
    exists props. rewrite Hp. split; reflexivity.
  - intros text -> Hno. apply match_json_block_None in Hno.
    pose proof (parseGeminiResponse_cases text) as Hc. rewrite Hno in Hc.
    rewrite Hc. reflexivity.
Qed.

End VitalsReport.

Section Filter.
Import Upload.

(** Of the files that [fileFilter] accepts, exactly the PDF documents are
    recorded as [pdf]; all others are recorded as [image]. *)
Theorem accepted_file_types (mimetype : jstring) :
  fileFilter mimetype = true ->
  (fileTypeOf mimetype = u "pdf" <-> mimetype = u "application/pdf")
  /\ (fileTypeOf mimetype = u "image" <-> mimetype <> u "application/pdf").
Proof.
  unfold fileFilter. intros H. apply existsb_exists in H as (t & Hin & Ht).
  unfold str_eqb in Ht. apply bool_decide_eq_true_1 in Ht. subst t.
  unfold allowedTypes in Hin. simpl in Hin.
  repeat (destruct Hin as [<-|Hin];
          [vm_compute; split; split; (discriminate || reflexivity || congruence
                                      || (intros H; contradiction))|]).
  destruct Hin.
Qed.

Lemma accepted_file_types_webp :
  fileTypeOf (u "image/webp") = u "image".
Proof.
  apply (accepted_file_types (u "image/webp")); [reflexivity|].
  vm_compute. discriminate.
Defined.

End Filter.

(* ===================================================================== *)
(** * The body-mass index                                                 *)
(* ===================================================================== *)

Section BodyMass.
Import Bmi.
Local Open Scope Q_scope.

Lemma Qfloor_lt_iff (y : Q) (k : Z) : (Qfloor y < k)%Z <-> y < inject_Z k.
Proof.
  pose proof (Qfloor_le y) as H1. pose proof (Qlt_floor y) as H2. split.
  - intros H. apply Qlt_le_trans with (inject_Z (Qfloor y + 1)); [exact H2|].
    rewrite <- Zle_Qle. lia.
  - intros H. apply Z.lt_nge. intros Hk. rewrite Zle_Qle in Hk. lra.
Qed.

Lemma tenths_lt (n k : Z) : n # 10 < k # 10 <-> (n < k)%Z.
Proof. unfold Qlt. simpl. lia. Qed.

Lemma less_lt q c : less (Num q) c = true <-> q < c.
Proof.
  simpl. rewrite negb_true_iff. split.
  - intros H. apply Qnot_le_lt. intros Hle. apply Qle_bool_iff in Hle. congruence.
  - intros H. destruct (Qle_bool c q) eqn:E; [|reflexivity].
    apply Qle_bool_iff in E. lra.
Qed.

(** Rounding to a tenth before comparing with a bound that is a multiple
    of a tenth moves the bound down by a twentieth. *)
Lemma less_toFixed1 (q : Q) (k : Z) :
  (0 < k)%Z -> k # 10 <= 10 ^ 21 ->
  (less (toFixed1 (Num q)) (k # 10) = true <-> q < (2 * k - 1) # 20).
Proof.
  intros Hk Hbig.
  assert (Hk10 : 0 < k # 10) by (unfold Qlt; simpl; lia).
  assert (Hmid : (2 * k - 1) # 20 < k # 10) by (unfold Qlt; simpl; lia).
  assert (Hmid0 : 0 < (2 * k - 1) # 20) by (unfold Qlt; simpl; lia).
  unfold toFixed1.
  destruct (Qle_bool (10 ^ 21) (Qabs q)) eqn:Ebig.
  - apply Qle_bool_iff in Ebig. rewrite less_lt.
    destruct (Qlt_le_dec q 0) as [Hneg|Hpos].
    + set (a := k # 10) in *. set (b := (2 * k - 1) # 20) in *. clearbody a b.
      split; intros _; lra.
    + rewrite Qabs_pos in Ebig by exact Hpos.
      set (a := k # 10) in *. set (b := (2 * k - 1) # 20) in *.
      set (B := 10 ^ 21) in *. clearbody a b B.
      split; intros H; lra.
  - assert (Hsmall : Qabs q < 10 ^ 21).
    { apply Qnot_le_lt. intros H. apply Qle_bool_iff in H. congruence. }
    destruct (Qle_bool 0 q) eqn:Esign.
    + apply Qle_bool_iff in Esign. rewrite Qabs_pos by exact Esign.
      rewrite less_lt, tenths_lt, Qfloor_lt_iff.
      assert (E : (2 * k - 1) # 20 == (inject_Z k - (1 # 2)) * (1 # 10)).
      { unfold Qeq, Qminus, Qmult, Qplus, Qopp, inject_Z. simpl. lia. }
      rewrite E. split; intros H; lra.
    + assert (Hneg : q < 0).
      { apply Qnot_le_lt. intros H. apply Qle_bool_iff in H. congruence. }
      rewrite less_lt. split; intros _;
        [set (b := (2 * k - 1) # 20) in *; clearbody b; lra|].
      assert (Hn : (0 <= Qfloor (10 * Qabs q + (1 # 2)))%Z).
      { apply Z.lt_succ_r. apply Z.lt_le_trans with (Qfloor (10 * Qabs q + (1 # 2)) + 1)%Z; [|lia].
        pose proof (Qlt_floor (10 * Qabs q + (1 # 2))) as Hf.
        pose proof (Qabs_nonneg q) as Ha.
        rewrite Zlt_Qlt. apply Qle_lt_trans with (10 * Qabs q + (1 # 2)); [|exact Hf].
        change (inject_Z 0) with 0. lra. }
      apply Qle_lt_trans with 0; [|exact Hk10].
      unfold Qle. cbn [Qnum Qden]. lia.
Qed.

Lemma less_whole b (k : Z) : less b (inject_Z k) = less b (10 * k # 10).
Proof.
  destruct b as [q| | |]; try reflexivity. simpl. f_equal.
  unfold Qle_bool, inject_Z. cbn [Qnum Qden].
  apply eq_true_iff_eq. rewrite !Z.leb_le. lia.
Qed.

(** The category goes by the index rounded to a tenth, so that its
    bounds lie a twentieth below 18.5, 25 and 30, on the quotient as the
    doubles give it: at 73.8 kg and 200 cm the quotient is the double
    just below 18.45, and the category is underweight. *)
Theorem bmiCategory_bounds (w h x : Q) :
  ratio (Some w) (Some h) = Num x ->
  let category :=
    bmiCategory (Some {| Vitals.value := Some w |})
      (Some {| Vitals.value := Some h |}) in
  (category = Some (u "underweight") <-> x < 1845 # 100)
  /\ (category = Some (u "normal") <-> 1845 # 100 <= x /\ x < 2495 # 100)
  /\ (category = Some (u "overweight") <-> 2495 # 100 <= x /\ x < 2995 # 100)
  /\ (category = Some (u "obese") <-> 2995 # 100 <= x).
Proof.
  intros Hr category.
  assert (H1 := less_toFixed1 x 185 ltac:(lia) ltac:(vm_compute; discriminate)).
  assert (H2 := less_toFixed1 x 250 ltac:(lia) ltac:(vm_compute; discriminate)).
  assert (H3 := less_toFixed1 x 300 ltac:(lia) ltac:(vm_compute; discriminate)).
  assert (Hc : category
               = Some (if less (toFixed1 (Num x)) (185 # 10) then u "underweight"
                       else if less (toFixed1 (Num x)) (250 # 10) then u "normal"
                       else if less (toFixed1 (Num x)) (300 # 10) then u "overweight"
                       else u "obese")).
  { unfold category, bmiCategory, bmi. cbn [Vitals.value]. rewrite Hr.
    rewrite (less_whole _ 25), (less_whole _ 30). reflexivity. }
  rewrite Hc. clear Hc category.
  change ((2 * 185 - 1) # 20) with (369 # 20) in H1.
  change ((2 * 250 - 1) # 20) with (499 # 20) in H2.
  change ((2 * 300 - 1) # 20) with (599 # 20) in H3.
  destruct (less (toFixed1 (Num x)) (185 # 10)) eqn:E1;
    destruct (less (toFixed1 (Num x)) (250 # 10)) eqn:E2;
    destruct (less (toFixed1 (Num x)) (300 # 10)) eqn:E3;
    repeat match goal with
           | H : true = true <-> _ |- _ =>
               let H' := fresh in assert (H' := proj1 H eq_refl); clear H
           | H : false = true <-> ?P |- _ =>
               let H' := fresh in
               assert (H' : ~ P) by (intros HP; apply H in HP; discriminate HP);
               clear H
           end;
    (split; [|split; [|split]]);
    (split;
     [ intros Heq; first [discriminate Heq | idtac]; try (split; lra); try lra
     | intros Hx; first [reflexivity | exfalso; lra] ]).
Qed.

Lemma bmiCategory_bounds_example :
  bmiCategory (Some {| Vitals.value := Some (738 # 10) |})
    (Some {| Vitals.value := Some 200 |}) = Some (u "underweight")
  /\ bmiCategory (Some {| Vitals.value := Some (2698592 # 100000) |})
       (Some {| Vitals.value := Some 104 |}) = Some (u "normal")
  /\ (738 # 10) / ((200 / 100) * (200 / 100)) == 1845 # 100.
Proof.
  split; [|split; [|vm_compute; reflexivity]].
  - eassert (Hr : ratio (Some (738 # 10)) (Some 200) = Num _)
      by (vm_compute; reflexivity).
    destruct (bmiCategory_bounds _ _ _ Hr) as (H & _).
    apply H. vm_compute. reflexivity.
  - eassert (Hr : ratio (Some (2698592 # 100000)) (Some 104) = Num _)
      by (vm_compute; reflexivity).
    destruct (bmiCategory_bounds _ _ _ Hr) as (_ & H & _).
    apply H. split; vm_compute; [discriminate|reflexivity].
Defined.

(** A double that is not below zero: it is not negative, or it is not a
    number. *)
Definition plus_or_nan (x : double) : Prop :=
  match x with
  | SpecFloat.S754_zero false | SpecFloat.S754_infinity false
  | SpecFloat.S754_finite false _ _ | SpecFloat.S754_nan => True
  | _ => False
  end.

Lemma round_plus mx ex lx :
  plus_or_nan (SpecFloat.binary_round_aux prec emax false mx ex lx).
Proof.
  unfold SpecFloat.binary_round_aux.
  destruct (SpecFloat.shr_fexp prec emax mx ex lx) as [mrs' e'].
  destruct (SpecFloat.shr_fexp prec emax
              (SpecFloat.round_nearest_even (SpecFloat.shr_m mrs')
                 (SpecFloat.loc_of_shr_record mrs')) e' SpecFloat.loc_Exact)
    as [mrs'' e''].
  destruct (SpecFloat.shr_m mrs'') as [|m|m]; try exact I.
  destruct (e'' <=? emax - prec)%Z; exact I.
Qed.

Lemma of_Z_plus (n : Z) : (0 <= n)%Z -> plus_or_nan (of_Z n).
Proof.
  intros Hn. unfold of_Z, SpecFloat.binary_normalize.
  destruct n as [|p|p]; [exact I| |lia].
  unfold SpecFloat.binary_round.
  destruct (SpecFloat.shl_align p 0
              (SpecFloat.fexp prec emax (Z.pos (SpecFloat.digits2_pos p) + 0)))
    as [mz ez].
  apply round_plus.
Qed.

Lemma div_plus (x y : double) :
  plus_or_nan x -> plus_or_nan y -> plus_or_nan (div x y).
Proof.
  destruct x as [[]|[]| |[] mx ex], y as [[]|[]| |[] my ey];
    simpl; try tauto.
  intros _ _. unfold div, SpecFloat.SFdiv.
  destruct (SpecFloat.SFdiv_core_binary prec emax (Z.pos mx) ex (Z.pos my) ey)
    as [[mz ez] lz].
  apply round_plus.
Qed.

(** Without a weight or a height object there is no index and no
    category. With both objects, a value that is not set, or a height of
    zero under a positive weight, gives the category obese. *)
Theorem bmiCategory_without_value :
  (forall height, bmiCategory None height = None)
  /\ (forall weight, bmiCategory weight None = None)
  /\ (forall weight height,
        Vitals.value weight = None \/ Vitals.value height = None ->
        bmiCategory (Some weight) (Some height) = Some (u "obese"))
  /\ (forall w, 0 < w ->
        bmiCategory (Some {| Vitals.value := Some w |})
          (Some {| Vitals.value := Some 0 |}) = Some (u "obese")).
Proof.
  split; [reflexivity|]. split; [intros [w|]; reflexivity|]. split.
  - intros [w] [h] [H|H]; simpl in H; subst; unfold bmiCategory, bmi, ratio; simpl;
      [reflexivity|destruct w; reflexivity].
  - intros w Hw. unfold bmiCategory, bmi, ratio. cbn [Vitals.value].
    change (mul (div (to_double 0) (of_Z 100)) (div (to_double 0) (of_Z 100)))
      with (SpecFloat.S754_zero false).
    assert (Hp : plus_or_nan (to_double w)).
    { unfold to_double. apply div_plus; apply of_Z_plus; [|lia].
      unfold Qlt in Hw. simpl in Hw. lia. }
    destruct (to_double w) as [[]|[]| |[] m e]; simpl in Hp; try contradiction;
      reflexivity.
Qed.

End BodyMass.

(* ===================================================================== *)
(** * The limiter of sensitive operations                                 *)
(* ===================================================================== *)

Section Limiter.
Import RateLimit.
Local Open Scope Z_scope.

Variable windowMs : Z.
Variable max : nat.

(** The time [t] is within the window that ends at [T]. *)
Definition recent (T t : Z) : bool := bool_decide (T - t < windowMs).

(** The times at which requests of [key] were let through. *)
Definition times (key : jstring) (passed : list (jstring * Z)) : list Z :=
  map snd (List.filter (fun r => bool_decide (fst r = key)) passed).

(** How many requests of [key] were let through in the window that ends
    at [T]. *)
Definition in_window (key : jstring) (T : Z) (passed : list (jstring * Z)) : nat :=
  length (List.filter (fun t => bool_decide (t <= T) && recent T t) (times key passed)).

Lemma times_app key p1 p2 : times key (p1 ++ p2) = times key p1 ++ times key p2.
Proof. unfold times. rewrite List.filter_app, map_app. reflexivity. Qed.

Lemma times_single key k now :
  times key [(k, now)] = if bool_decide (k = key) then [now] else [].
Proof. unfold times. simpl. destruct (bool_decide (k = key)); reflexivity. Qed.

Lemma filter_length_le {A} (f g : A -> bool) l :
  (forall x, In x l -> f x = true -> g x = true) ->
  (length (List.filter f l) <= length (List.filter g l))%nat.
Proof.
  induction l as [|x l IH]; intros H; simpl; [lia|].
  assert (IH' := IH (fun y Hy => H y (or_intror Hy))).
  destruct (f x) eqn:Ef.
  - rewrite (H x (or_introl eq_refl) Ef). simpl. lia.
  - destruct (g x); simpl; lia.
Qed.

Lemma filter_filter_recent now T l :
  now <= T ->
  List.filter (recent T) (List.filter (recent now) l) = List.filter (recent T) l.
Proof.
  intros Hle. induction l as [|t l IH]; simpl; [reflexivity|].
  destruct (recent now t) eqn:En; simpl; rewrite IH; [reflexivity|].
  destruct (recent T t) eqn:Et; [|reflexivity].
  unfold recent in *. apply bool_decide_eq_true_1 in Et.
  apply bool_decide_eq_false_1 in En. lia.
Qed.

(** What the map remembers of the requests let through so far: for every
    window that ends at [last] or later, the times it keeps for a user
    are the times of that user in the window. *)
Definition remembers (a : attempts) (passed : list (jstring * Z)) (last : Z) : Prop :=
  forall key T, last <= T ->
    List.filter (recent T) (default [] (a !! key))
    = List.filter (recent T) (times key passed).

Lemma window_bound_step (a : attempts) (passed : list (jstring * Z)) (last : Z)
    (requests : list (jstring * Z)) :
  remembers a passed last ->
  (forall r, In r passed -> snd r <= last) ->
  (forall key T, (in_window key T passed <= max)%nat) ->
  Sorted Z.le (last :: map snd requests) ->
  forall key T,
    (in_window key T (passed ++ admitted windowMs max a requests) <= max)%nat.
Proof.
  revert a passed last.
  induction requests as [|[k now] rest IH]; intros a passed last Hrem Hpast Hbound Hsorted.
  - simpl. intros key T. rewrite app_nil_r. apply Hbound.
  - apply Sorted_inv in Hsorted as [Hsorted Hhd]. apply HdRel_inv in Hhd.
    cbn [map snd] in Hsorted, Hhd.
    cbn [admitted]. unfold sensitiveOperationLimit.
    assert (Hrecent : List.filter (fun time => bool_decide (now - time < windowMs))
                        (default [] (a !! k))
                      = List.filter (recent now) (times k passed)).
    { exact (Hrem k now Hhd). }
    rewrite Hrecent.
    destruct (Nat.leb_spec max (length (List.filter (recent now) (times k passed))))
      as [Hfull|Hroom].
    + (* refused *)
      cbn [app]. apply (IH a passed now); try assumption.
      * intros key T HT. apply Hrem. lia.
      * intros r Hr. specialize (Hpast r Hr). lia.
    + (* let through *)
      intros key T.
      replace (passed ++ ([(k, now)] ++ admitted windowMs max
                 (<[k:=List.filter (recent now) (times k passed) ++ [now]]> a) rest))
        with ((passed ++ [(k, now)]) ++ admitted windowMs max
                 (<[k:=List.filter (recent now) (times k passed) ++ [now]]> a) rest)
        by (rewrite <- app_assoc; reflexivity).
      apply (IH _ (passed ++ [(k, now)]) now); try assumption.
      * intros key' T' HT'. rewrite times_app.
        destruct (decide (key' = k)) as [->|Hne].
        -- rewrite lookup_insert_eq. cbn [default id].
           rewrite times_single, bool_decide_eq_true_2 by reflexivity.
           rewrite !List.filter_app.
           rewrite filter_filter_recent by exact HT'. reflexivity.
        -- rewrite lookup_insert_ne by congruence.
           rewrite times_single, bool_decide_eq_false_2 by congruence.
           rewrite app_nil_r. apply Hrem. lia.
      * intros r Hr. apply in_app_or in Hr as [Hr|[<-|[]]]; [|simpl; lia].
        specialize (Hpast r Hr). lia.
      * intros key' T'. unfold in_window. rewrite times_app, List.filter_app, length_app.
        fold (in_window key' T' passed).
        rewrite times_single.
        destruct (decide (k = key')) as [->|Hne].
        -- rewrite bool_decide_eq_true_2 by reflexivity. cbn [List.filter].
           destruct (bool_decide (now <= T') && recent T' now) eqn:Ein;
             [|cbn [length]; specialize (Hbound key' T'); lia].
           apply andb_true_iff in Ein as [Ele _]. apply bool_decide_eq_true_1 in Ele.
           cbn [length].
           assert (Hle : (in_window key' T' passed
                          <= length (List.filter (recent now) (times key' passed)))%nat).
           { unfold in_window. apply filter_length_le. intros t _ Ht.
             apply andb_true_iff in Ht as [_ Ht]. unfold recent in *.
             apply bool_decide_eq_true_1 in Ht. apply bool_decide_eq_true_2. lia. }
           lia.
        -- rewrite bool_decide_eq_false_2 by congruence. cbn [List.filter length].
           specialize (Hbound key' T'). lia.
Qed.

End Limiter.

(** However the requests arrive, as long as the clock does not go back,
    at most [max] requests of one user are let through in any window of
    [windowMs] milliseconds. *)
Theorem rate_limit_window_bound (windowMs : Z) (max : nat)
    (requests : list (jstring * Z)) (key : jstring) (T : Z) :
  Sorted Z.le (map snd requests) ->
  (in_window windowMs key T (RateLimit.admitted windowMs max ∅ requests) <= max)%nat.
Proof.
  intros Hsorted.
  destruct requests as [|[k now] rest]; [cbn; lia|].
  apply (window_bound_step windowMs max ∅ [] now ((k, now) :: rest)).
  - intros key' T' _. rewrite lookup_empty. reflexivity.
  - intros r [].
  - intros key' T'. cbn. lia.
  - constructor; [exact Hsorted|]. constructor. cbn. lia.
Qed.

Lemma rate_limit_window_bound_example :
  (in_window 900000 (u "user-7") 1000500
     (RateLimit.admitted 900000 2 ∅
        [(u "user-7", 1000000); (u "user-7", 1000100); (u "user-8", 1000200);
         (u "user-7", 1000300); (u "user-7", 1000400)]%Z) <= 2)%nat
  /\ RateLimit.admitted 900000 2 ∅
       [(u "user-7", 1000000); (u "user-7", 1000100); (u "user-8", 1000200);
        (u "user-7", 1000300); (u "user-7", 1000400)]%Z
     = [(u "user-7", 1000000); (u "user-7", 1000100); (u "user-8", 1000200)]%Z.
Proof.
  split; [|vm_compute; reflexivity].
  apply rate_limit_window_bound. cbn. repeat constructor; cbn; lia.
Defined.

(* ===================================================================== *)
(** * References from files to insights                                   *)
(* ===================================================================== *)

Section References.
Import Store Pipeline.















(** Insight [n] is in the store as [doc], under an id that was drawn
    from the counter. *)
Definition stored (doc : AiInsight) (n : oid) (d : db) : Prop :=
  insights d !! n = Some doc /\ n < next_id d.

Lemma stored_updateStatus doc n fails i s (Qe : db -> Prop) :
  (forall d, stored doc n d -> Qe d) ->
  triple (stored doc n) (File_updateStatus fails i s) (fun _ => stored doc n) Qe.
Proof.
  intros HQ d Hd. unfold File_updateStatus. destruct fails; [exact (HQ d Hd)|].
  destruct (files d !! i); exact Hd.
Qed.

Lemma stored_save_and_link doc n cast fs i (new : AiInsight) (k : St response) :
  triple (stored doc n) k (fun _ => stored doc n) (stored doc n) ->
  triple (stored doc n)
    (id ← newId ;
     AiInsight_save cast (fail_save fs) id new ;;
     File_link (fail_link fs) i id ;; k)
    (fun _ => stored doc n) (stored doc n).
Proof.
  intros Hk.
  eapply (triple_bind _ _ _ (fun m d => stored doc n d /\ n < m)).
  { intros d [Hd Hn]. unfold newId. split; [split; [exact Hd|simpl; lia]|exact Hn]. }
  intros m.
  eapply (triple_bind _ _ _ (fun _ => stored doc n)).
  { intros d [[Hd Hn] Hm]. unfold AiInsight_save.
    destruct (confidence_cast cast (confidence new)); [|split; assumption].
    destruct (fail_save fs); [split; assumption|].
    split; [|exact Hn]. simpl. rewrite lookup_insert_ne by lia. exact Hd. }
  intros ?.
  eapply (triple_bind _ _ _ (fun _ => stored doc n)); [|intros ?; exact Hk].
  intros d Hd. unfold File_link. destruct (fail_link fs); [exact Hd|].
  destruct (files d !! i); exact Hd.
Qed.

Lemma stored_processAIInsight doc n e fs i filePath fileType reportType userId :
  triple (stored doc n)
    (processAIInsight e fs i filePath fileType reportType userId)
    (fun _ => stored doc n) (stored doc n).
Proof.
  unfold processAIInsight. apply triple_catch with (Qe := stored doc n).
  - unfold process_body.
    eapply triple_bind; [apply stored_updateStatus; auto|]. intros ?.
    eapply triple_bind.
    { eapply triple_post; [apply (triple_findById _ _ (stored doc n))| |auto].
      intros found d H. exact (proj1 H). }
    intros [file|]; [|apply triple_throw; auto].
    eapply triple_bind; [apply triple_lift|]. intros geminiResult.
    eapply (triple_bind _ _ _ (fun m d => stored doc n d /\ n < m)).
    { intros d [Hd Hn]. unfold newId. split; [split; [exact Hd|simpl; lia]|exact Hn]. }
    intros m.
    eapply (triple_bind _ _ _ (fun _ => stored doc n)).
    { intros d [[Hd Hn] Hm]. unfold AiInsight_save.
      match goal with
      | |- context [confidence_cast ?c ?v] => destruct (confidence_cast c v)
      end; [|split; assumption].
      destruct (fail_save fs); [split; assumption|].
      split; [|exact Hn]. simpl. rewrite lookup_insert_ne by lia. exact Hd. }
    intros ?. intros d Hd. unfold File_link. destruct (fail_link fs); [exact Hd|].
    destruct (files d !! i); exact Hd.
  - intros ?. apply stored_updateStatus. auto.
Qed.

(** An upload with its background run, a manual analysis or a deletion,
    handled from start to end, leaves every insight of the store as it
    was, whichever calls fail, unless it is a deletion by the owner of a
    file that refers to the insight. (The route that reviews an insight
    and the deletion of an account are not among the requests.) *)
Theorem insight_immutable (d : db) (r : request) (n : oid) (doc : AiInsight) :
  insights d !! n = Some doc -> n < next_id d ->
  insights (step d r) !! n = Some doc
  \/ exists f1 f2 f3 i f,
       r = DeleteFile f1 f2 f3 i (f_user f)
       /\ files d !! i = Some f /\ aiInsight f = Some n.
Proof.
  intros Hdoc Hn. assert (Hs : stored doc n d) by (split; assumption).
  unfold step.
  destruct r as [e fs valid ffs user req|cast fs elapsed i user|f1 f2 f3 i user];
    cbn [handle].
  - left.
    assert (H : triple (stored doc n) (uploadRoute e fs valid ffs user req)
                  (fun _ => stored doc n) (stored doc n)).
    { unfold uploadRoute. apply triple_catch with (Qe := stored doc n).
      - destruct valid; [|apply triple_ret; auto].
        eapply (triple_bind _ _ _ (fun _ => stored doc n)).
        { intros d0 [H0 H1]. unfold newId. split; [exact H0|simpl; lia]. }
        intros id.
        eapply (triple_bind _ _ _ (fun _ => stored doc n)).
        { intros d0 H0. unfold File_save. destruct ffs; exact H0. }
        intros ?.
        eapply triple_bind; [apply triple_detached, stored_processAIInsight|].
        intros ?. apply triple_ret. auto.
      - intros ?. apply triple_ret. auto. }
    specialize (H d Hs).
    destruct (uploadRoute e fs valid ffs user req d) as [[x|err] d']; exact (proj1 H).
  - left.
    assert (H : triple (stored doc n) (analyzeFileRoute cast fs elapsed i user)
                  (fun _ => stored doc n) (stored doc n)).
    { unfold analyzeFileRoute. apply triple_catch with (Qe := stored doc n).
      - eapply (triple_bind _ _ _ (fun _ => stored doc n)).
        { intros d0 H0. unfold File_findOne. destruct (fail_find fs); exact H0. }
        intros [file|]; [|apply triple_ret; auto].
        destruct (isProcessed file && bool_decide (is_Some (aiInsight file)));
          [apply triple_ret; auto|].
        eapply triple_bind; [apply stored_updateStatus; auto|]. intros ?.
        apply stored_save_and_link. apply triple_ret. auto.
      - intros ?. eapply triple_bind; [apply stored_updateStatus; auto|]. intros ?.
        apply triple_ret. auto. }
    specialize (H d Hs).
    destruct (analyzeFileRoute cast fs elapsed i user d) as [[x|err] d'];
      exact (proj1 H).
  - unfold deleteRoute, try_catch_st, mbind, St_bind, File_findOne.
    destruct f1; [left; exact Hdoc|].
    destruct (files d !! i) as [f|] eqn:Hf; [|left; exact Hdoc].
    destruct (N.eqb_spec (f_user f) user) as [Hu|_]; [|left; exact Hdoc].
    destruct (aiInsight f) as [m|] eqn:Hm; cbn.
    + unfold AiInsight_findByIdAndDelete. destruct f2; [left; exact Hdoc|]. cbn.
      destruct (decide (m = n)) as [->|Hne].
      * right. exists false, false, f3, i, f. rewrite Hu. auto.
      * left. destruct f3; cbn; rewrite lookup_delete_ne by exact Hne; exact Hdoc.
    + left. destruct f3; exact Hdoc.
Qed.

Lemma insight_immutable_example :
  exists doc,
    insights (run [Examples.upload Examples.labelled_result]) !! 1 = Some doc
    /\ insights (step (run [Examples.upload Examples.labelled_result])
                 (Examples.upload_unlinked Examples.labelled_result)) !! 1
       = Some doc.
Proof.
  assert (Hi : is_Some (insights (run [Examples.upload Examples.labelled_result]) !! 1)).
  { vm_compute. eexists. reflexivity. }
  destruct Hi as [doc Hdoc]. exists doc. split; [exact Hdoc|].
  assert (Hn : 1 < next_id (run [Examples.upload Examples.labelled_result]))
    by (vm_compute; reflexivity).
  destruct (insight_immutable _ (Examples.upload_unlinked Examples.labelled_result)
              1 doc Hdoc Hn) as [H|(f1 & f2 & f3 & i & f & H & _)];
    [exact H|discriminate H].
Defined.

End References.
